(** * titiler-pgstac: search identity, item cache and colormap resolution

    A shallow embedding of [titiler/pgstac/dependencies.py] together with the
    parts of the registration and resolution path that the dependencies feed,
    and the properties of the specification checked against it.  The
    writing of rasters in [titiler/pgstac/cog_utils.py] is embedded too,
    and further properties of both files are proved after those of the
    specification.

    Python values are embedded as first-order data: [str] as [string],
    [int] as [Z], [dict] as an association list in insertion order, [None]
    as a constructor of its own.  Exceptions are values of a sum type, the
    process-wide cache is threaded explicitly as state. *)

From Stdlib Require Import ZArith List Bool Ascii String Floats Lia.
From stdpp Require Import gmap strings list sorting.
Import ListNotations.

Set Warnings "-register-all".

Local Open Scope string_scope.
Local Open Scope Z_scope.

(* ===================================================================== *)
(** * Python values that travel as JSON *)
(* ===================================================================== *)

Module Py.

(** A JSON number is kept as a decimal [mant * 10^-scale]: this is what the
    text sent to the catalogue carries and what its [jsonb] type stores. *)
Record number := Num { mant : Z; scale : nat }.

(** [VModel] is a pydantic model instance: its fields in declaration order,
    each with its name, its alias and its value. *)
Inductive value :=
| VNone
| VBool (b : bool)
| VNum (n : number)
| VStr (s : string)
| VList (l : list value)
| VDict (kv : list (string * value))
| VModel (fs : list (string * (string * value))).

Definition int (z : Z) : value := VNum (Num z 0).
Definition dec (m : Z) (sc : nat) : value := VNum (Num m sc).

Definition is_none (v : value) : bool :=
  match v with VNone => true | _ => false end.

(** [dict.get(k)] on an association list: the first binding of [k]. *)
Fixpoint assoc {A} (k : string) (kv : list (string * A)) : option A :=
  match kv with
  | [] => None
  | (k', v) :: r => if String.eqb k k' then Some v else assoc k r
  end.

Definition keys {A} (kv : list (string * A)) : list string := map fst kv.

End Py.

(* ===================================================================== *)
(** * MD5 (RFC 1321), the digest behind a searchid *)
(* ===================================================================== *)

Module MD5.

Local Open Scope Z_scope.

Definition w32 (x : Z) : Z := x mod 2 ^ 32.

Definition lnot32 (x : Z) : Z := Z.lxor x 4294967295.

Definition rotl (x c : Z) : Z :=
  w32 (Z.lor (Z.shiftl x c) (Z.shiftr x (32 - c))).

Definition K : list Z :=
  [ 3614090360; 3905402710; 606105819; 3250441966;
    4118548399; 1200080426; 2821735955; 4249261313;
    1770035416; 2336552879; 4294925233; 2304563134;
    1804603682; 4254626195; 2792965006; 1236535329;
    4129170786; 3225465664; 643717713; 3921069994;
    3593408605; 38016083; 3634488961; 3889429448;
    568446438; 3275163606; 4107603335; 1163531501;
    2850285829; 4243563512; 1735328473; 2368359562;
    4294588738; 2272392833; 1839030562; 4259657740;
    2763975236; 1272893353; 4139469664; 3200236656;
    681279174; 3936430074; 3572445317; 76029189;
    3654602809; 3873151461; 530742520; 3299628645;
    4096336452; 1126891415; 2878612391; 4237533241;
    1700485571; 2399980690; 4293915773; 2240044497;
    1873313359; 4264355552; 2734768916; 1309151649;
    4149444226; 3174756917; 718787259; 3951481745 ].

Definition S : list Z :=
  [ 7; 12; 17; 22; 7; 12; 17; 22; 7; 12; 17; 22; 7; 12; 17; 22;
    5; 9; 14; 20; 5; 9; 14; 20; 5; 9; 14; 20; 5; 9; 14; 20;
    4; 11; 16; 23; 4; 11; 16; 23; 4; 11; 16; 23; 4; 11; 16; 23;
    6; 10; 15; 21; 6; 10; 15; 21; 6; 10; 15; 21; 6; 10; 15; 21 ].

Definition state : Type := Z * Z * Z * Z.

Definition init : state := (1732584193, 4023233417, 2562383102, 271733878).

(** One of the 64 steps on a block of sixteen words. *)
Definition step (words : list Z) (st : state) (i : nat) : state :=
  let '(a, b, c, d) := st in
  let iz := Z.of_nat i in
  let '(f, g) :=
    if iz <? 16 then (Z.lor (Z.land b c) (Z.land (lnot32 b) d), iz)
    else if iz <? 32 then
      (Z.lor (Z.land d b) (Z.land (lnot32 d) c), (5 * iz + 1) mod 16)
    else if iz <? 48 then (Z.lxor (Z.lxor b c) d, (3 * iz + 5) mod 16)
    else (Z.lxor c (Z.lor b (lnot32 d)), (7 * iz) mod 16) in
  let f' := w32 (f + a + nth i K 0 + nth (Z.to_nat g) words 0) in
  (d, w32 (b + rotl f' (nth i S 0)), b, c).

Definition block (st : state) (words : list Z) : state :=
  let '(a, b, c, d) := st in
  let '(a', b', c', d') := fold_left (step words) (seq 0 64) st in
  (w32 (a + a'), w32 (b + b'), w32 (c + c'), w32 (d + d')).

(** Little-endian bytes of a word and back. *)
Fixpoint le_bytes (n : nat) (x : Z) : list Z :=
  match n with
  | O => []
  | Datatypes.S n' => x mod 256 :: le_bytes n' (x / 256)
  end.

Fixpoint le_word (bs : list Z) : Z :=
  match bs with
  | [] => 0
  | b :: r => b + 256 * le_word r
  end.

(** The message followed by 0x80, zeros up to 56 modulo 64, and its length
    in bits on eight bytes. *)
Definition pad (msg : list Z) : list Z :=
  let len := Z.of_nat (length msg) in
  let zeros := Z.to_nat ((55 - len) mod 64) in
  msg ++ [128] ++ repeat 0 zeros ++ le_bytes 8 ((8 * len) mod 2 ^ 64).

Fixpoint chunks (fuel n : nat) (l : list Z) : list (list Z) :=
  match fuel with
  | O => []
  | Datatypes.S fuel' =>
      match l with
      | [] => []
      | _ => firstn n l :: chunks fuel' n (skipn n l)
      end
  end.

Definition words_of_block (blk : list Z) : list Z :=
  map le_word (chunks 16 4 blk).

Definition digest (msg : list Z) : list Z :=
  let p := pad msg in
  let blocks := chunks (length p) 64 p in
  let '(a, b, c, d) := fold_left block (map words_of_block blocks) init in
  le_bytes 4 a ++ le_bytes 4 b ++ le_bytes 4 c ++ le_bytes 4 d.

Definition hex_digit (n : Z) : ascii :=
  nth (Z.to_nat n)
      (list_ascii_of_string "0123456789abcdef"%string) "0"%char.

Fixpoint hex (bs : list Z) : string :=
  match bs with
  | [] => EmptyString
  | b :: r => String (hex_digit (b / 16)) (String (hex_digit (b mod 16)) (hex r))
  end.

Definition bytes_of_string (s : string) : list Z :=
  map (fun c => Z.of_N (N_of_ascii c)) (list_ascii_of_string s).

(** [md5(text)] of PostgreSQL: thirty-two lowercase hexadecimal digits. *)
Definition md5 (s : string) : string := hex (digest (bytes_of_string s)).

End MD5.

(* ===================================================================== *)
(** * The text of a JSON document as the catalogue stores it *)
(* ===================================================================== *)

Module Jsonb.
Import Py.

Local Open Scope Z_scope.

Definition digit (n : Z) : ascii := ascii_of_N (48 + Z.to_N n).

Fixpoint digits (fuel : nat) (n : Z) (acc : string) : string :=
  match fuel with
  | O => acc
  | S fuel' =>
      let acc' := String (digit (n mod 10)) acc in
      if n <? 10 then acc' else digits fuel' (n / 10) acc'
  end.

(** Decimal digits of a natural number. *)
Definition nat_text (n : Z) : string :=
  digits (S (Z.to_nat (Z.log2 n))) n EmptyString.

Fixpoint zeros (n : nat) : string :=
  match n with O => EmptyString | S n' => String "0" (zeros n') end.

(** [-85535] at scale 3 is written [-85.535], [5] at scale 2 [0.05]. *)
Definition number_text (x : number) : string :=
  let a := nat_text (Z.abs (mant x)) in
  let a := (zeros (S (scale x) - String.length a) ++ a)%string in
  let n := (String.length a - scale x)%nat in
  let body :=
    match scale x with
    | O => a
    | _ => (substring 0 n a ++ "." ++ substring n (scale x) a)%string
    end in
  if mant x <? 0 then String "-" body else body.

Definition hex4 (n : Z) : string :=
  String (MD5.hex_digit (n / 4096 mod 16))
    (String (MD5.hex_digit (n / 256 mod 16))
       (String (MD5.hex_digit (n / 16 mod 16))
          (String (MD5.hex_digit (n mod 16)) EmptyString))).

Definition dquote : ascii := ascii_of_N 34.
Definition backslash : ascii := ascii_of_N 92.

Definition escape_char (c : ascii) : string :=
  let n := Z.of_N (N_of_ascii c) in
  let esc (x : string) := String backslash x in
  if n =? 34 then esc (String dquote EmptyString)
  else if n =? 92 then esc (String backslash EmptyString)
  else if n =? 8 then esc "b"
  else if n =? 12 then esc "f"
  else if n =? 10 then esc "n"
  else if n =? 13 then esc "r"
  else if n =? 9 then esc "t"
  else if n <? 32 then esc (String "u" (hex4 n))
  else String c EmptyString.

Fixpoint escape (s : string) : string :=
  match s with
  | EmptyString => EmptyString
  | String c r => (escape_char c ++ escape r)%string
  end.

Definition quote (s : string) : string :=
  String dquote (escape s ++ String dquote EmptyString).

Fixpoint join (sep : string) (l : list string) : string :=
  match l with
  | [] => EmptyString
  | [x] => x
  | x :: r => (x ++ sep ++ join sep r)%string
  end.

(** Byte-wise order of two strings of the same length. *)
Fixpoint bytes_ltb (a b : string) : bool :=
  match a, b with
  | String x a', String y b' =>
      let nx := N_of_ascii x in
      let ny := N_of_ascii y in
      if (nx <? ny)%N then true
      else if (ny <? nx)%N then false
      else bytes_ltb a' b'
  | EmptyString, String _ _ => true
  | _, _ => false
  end.

(** Object keys are ordered by length first, then byte-wise. *)
Definition key_ltb (a b : string) : bool :=
  let la := String.length a in
  let lb := String.length b in
  if (la <? lb)%nat then true
  else if (lb <? la)%nat then false
  else bytes_ltb a b.

(** Insertion in a sorted object; a key met again replaces the earlier
    member (the last value wins). *)
Fixpoint insert_member (k : string) (t : string) (l : list (string * string))
  : list (string * string) :=
  match l with
  | [] => [(k, t)]
  | (k', t') :: r =>
      if String.eqb k k' then (k, t) :: r
      else if key_ltb k k' then (k, t) :: (k', t') :: r
      else (k', t') :: insert_member k t r
  end.

Definition sort_members (l : list (string * string)) : list (string * string) :=
  fold_left (fun acc '(k, t) => insert_member k t acc) l [].

Definition member_text (m : string * string) : string :=
  (quote (fst m) ++ ": " ++ snd m)%string.

Definition object_text (members : list (string * string)) : string :=
  ("{" ++ join ", " (map member_text (sort_members members)) ++ "}")%string.

(** [j::jsonb::text].  A model instance met inside a document is written
    as the dictionary of its fields by name. *)
Fixpoint text (v : value) : string :=
  match v with
  | VNone => "null"
  | VBool true => "true"
  | VBool false => "false"
  | VNum n => number_text n
  | VStr s => quote s
  | VList l => ("[" ++ join ", " (map text l) ++ "]")%string
  | VDict kv => object_text (map (fun m => (fst m, text (snd m))) kv)
  | VModel fs => object_text (map (fun f => (fst f, text (snd (snd f)))) fs)
  end.



End Jsonb.

(* ===================================================================== *)
(** * Request models and [SearchParams] *)
(* ===================================================================== *)

Module Model.
Import Py.

(** A field of a model instance: name, alias, value.  A field the model
    does not declare (the search models accept extra fields) is its own
    alias. *)
Definition field : Type := string * (string * value).

Definition fname (f : field) : string := fst f.
Definition falias (f : field) : string := fst (snd f).
Definition fvalue (f : field) : value := snd (snd f).

(** What [BaseModel.dict] does to the value of a field it keeps: a nested
    model becomes the dictionary of its fields, under the same
    [exclude_none] and [by_alias]; lists and dictionaries are walked, and
    keep the [None] they hold. *)
Fixpoint get_value (exclude_none by_alias : bool) (v : value) : value :=
  match v with
  | VModel fs =>
      VDict
        ((fix iter (fs : list field) : list (string * value) :=
            match fs with
            | [] => []
            | f :: r =>
                if exclude_none && is_none (snd (snd f)) then iter r
                else ((if by_alias then fst (snd f) else fst f),
                      get_value exclude_none by_alias (snd (snd f))) :: iter r
            end) fs)
  | VDict kv =>
      VDict (map (fun m => (fst m, get_value exclude_none by_alias (snd m))) kv)
  | VList l => VList (map (get_value exclude_none by_alias) l)
  | _ => v
  end.

Definition mem (k : string) (l : list string) : bool := existsb (String.eqb k) l.

(** [m.dict(exclude_none=..., exclude={...}, by_alias=...)]: the fields in
    order, without the excluded names and, under [exclude_none], without
    the fields whose value is [None]. *)
Fixpoint dict (exclude_none : bool) (exclude : list string) (by_alias : bool)
  (fs : list field) : list (string * value) :=
  match fs with
  | [] => []
  | f :: r =>
      if mem (fname f) exclude || (exclude_none && is_none (fvalue f))
      then dict exclude_none exclude by_alias r
      else ((if by_alias then falias f else fname f),
            get_value exclude_none by_alias (fvalue f))
           :: dict exclude_none exclude by_alias r
  end.

(** [m.json(...)]: the document the model is sent as. *)
Definition json (exclude_none by_alias : bool) (fs : list field) : value :=
  VDict (dict exclude_none [] by_alias fs).

(** Attribute access on an instance. *)
Fixpoint getattr (name : string) (fs : list field) : option value :=
  match fs with
  | [] => None
  | f :: r => if String.eqb name (fname f) then Some (fvalue f) else getattr name r
  end.

(** Modelled from the spec: [titiler/pgstac/model.py] is not part of the
    sources.  The fields of a search are those of the SearchQuery of the
    data model (collections, bounding box, datetime, the structured filter
    and the older query grammar) and those the code and the tests name
    ([ids], [filter-lang]); each is declared with its name and alias. *)
Definition PgSTACSearch_fields : list (string * string) :=
  [ ("collections", "collections"); ("ids", "ids"); ("bbox", "bbox");
    ("intersects", "intersects"); ("query", "query"); ("filter", "filter");
    ("datetime", "datetime"); ("sortby", "sortby");
    ("filter_lang", "filter-lang") ].

(** Modelled from the spec: [RegisterMosaic] of the missing
    [titiler/pgstac/model.py]; a registration request is a search plus its
    metadata. *)
Definition RegisterMosaic_fields : list (string * string) :=
  PgSTACSearch_fields ++ [ ("metadata", "metadata") ].

(** Modelled from the spec: [Metadata] of the missing
    [titiler/pgstac/model.py]; the metadata of a registration carry the
    discriminator [type], always [mosaic], and optional overrides. *)
Definition Metadata_fields : list (string * string) :=
  [ ("type", "type"); ("bounds", "bounds"); ("minzoom", "minzoom");
    ("maxzoom", "maxzoom"); ("name", "name"); ("assets", "assets");
    ("defaults", "defaults") ].

Definition declared (schema : list (string * string)) (f : field) : bool :=
  existsb (fun d => String.eqb (fname f) (fst d) && String.eqb (falias f) (snd d))
          schema.

(** [fs] is an instance of the model declared by [schema]: a declared
    field carries its declared alias, any other field is an extra one,
    known under its own name. *)
Definition is_instance (schema : list (string * string)) (fs : list field) : bool :=
  forallb (fun f =>
             declared schema f
             || (negb (mem (fname f) (map fst schema))
                 && String.eqb (falias f) (fname f)))
          fs.

(** the constructor of a model called with keyword arguments: every declared field is looked up under its alias
    and is [None] when absent; the other entries are kept as extra
    fields. *)
Definition construct (schema : list (string * string))
  (kwargs : list (string * value)) : list field :=
  map (fun d => (fst d, (snd d, default VNone (assoc (snd d) kwargs)))) schema
  ++ map (fun m => (fst m, (fst m, snd m)))
       (List.filter (fun m => negb (mem (fst m) (map snd schema))) kwargs).


(** The dictionary [search] built inside [SearchParams]. *)
Definition search_dict (body : list field) : list (string * value) :=
  dict true ["metadata"] true body.

(** [SearchParams(body)]: the search and the metadata of a registration
    request.  [None] stands for the attribute error of a body without a
    [metadata] field, which no instance of [RegisterMosaic] raises. *)
Definition SearchParams (body : list field) : option (list field * value) :=
  match getattr "metadata" body with
  | Some metadata => Some (construct PgSTACSearch_fields (search_dict body), metadata)
  | None => None
  end.

(** [Metadata()] with nothing set. *)
Definition default_metadata : value :=
  VModel (construct Metadata_fields [("type", VStr "mosaic")]).

(** A request body as the framework builds it from the posted document:
    the metadata are those posted, or the default ones. *)
Definition RegisterMosaic (posted : list (string * value)) : list field :=
  construct RegisterMosaic_fields
    (match assoc "metadata" posted with
     | Some _ => posted
     | None => posted ++ [("metadata", default_metadata)]
     end).

End Model.

(* ===================================================================== *)
(** * Search identity and registry *)
(* ===================================================================== *)

Module Registry.
Import Py.

Record RegisteredSearch := {
  rs_search : value;
  rs_metadata : value;
  rs_registered : Z
}.

Record RegisterResponse := {
  searchid : string;
  links : list string
}.

(** Modelled from the spec: the canonical encoder of §4.1, of which the
    sources hold no code.  The query is encoded as the text of its
    document: the members of every object, nested ones too, are written in
    one order, whatever the order in which they were given. *)
Definition encode (search : value) : string := Jsonb.text search.

(** The discriminator that marks a registration as that of a mosaic, the
    same for every registration. *)
Definition mosaic_marker : string := Jsonb.text (VDict [("type", VStr "mosaic")]).

(** Modelled from the spec: the identifier of §4.2, which the missing
    register route obtains from the catalogue.  It is a content hash of
    fixed width of the encoded query, and of nothing else: the metadata
    of the registration take no part in it (§3, §4.1).  The spec does not
    name the hash; the one modelled here gives the two identifiers
    asserted in [tests/test_mosaic.py]: MD5 over the encoded query
    followed by the marker of a mosaic registration. *)
Definition search_hash (search : value) : string :=
  MD5.md5 (encode search ++ mosaic_marker)%string.


(** Modelled from the spec: the upsert of §4.2, made by the catalogue for
    the missing register route.  A search met for the first time is
    recorded under its identifier, with the metadata it comes with; for a
    search already recorded the call changes nothing and answers the stored
    record. *)
Definition search_query (store : gmap string RegisteredSearch)
  (search metadata : value) (now : Z)
  : gmap string RegisteredSearch * (string * RegisteredSearch) :=
  let h := search_hash search in
  match store !! h with
  | Some r => (store, (h, r))
  | None =>
      let r := {| rs_search := search; rs_metadata := metadata;
                  rs_registered := now |} in
      (<[h := r]> store, (h, r))
  end.

(** Modelled from the spec: the registration operation of §6, whose route
    (the factory of the endpoints) is not part of the sources.
    [SearchParams] splits the body; the search and the metadata are sent
    without their [None] fields, the search under its aliases. *)
Definition register (store : gmap string RegisteredSearch)
  (body : list Model.field) (now : Z)
  : option (gmap string RegisteredSearch * RegisterResponse) :=
  match Model.SearchParams body with
  | None => None
  | Some (search, metadata) =>
      let '(store', (h, _)) :=
        search_query store (Model.json true true search)
          (Model.get_value true false metadata) now in
      Some (store', {| searchid := h; links := ["metadata"; "tilejson"] |})
  end.

(** The document that a posted request is registered as: what
    [SearchParams] makes of the body built from it, without the fields
    that are [None] and under their aliases. *)
Definition query_of (posted : list (string * value)) : option value :=
  match Model.SearchParams (Model.RegisterMosaic posted) with
  | Some (search, _) => Some (Model.json true true search)
  | None => None
  end.




End Registry.

(* ===================================================================== *)
(** * Exceptions *)
(* ===================================================================== *)

Inductive exn :=
| HTTPException (status_code : Z) (detail : string)
| JSONDecodeError
| ValueError
| TypeError
| KeyError
| IndexError
| AttributeError
| RecursionError
| STACTypeError
| InvalidColorFormat
| InvalidColorMapName.

Inductive result (A : Type) :=
| Ok (a : A)
| Raise (e : exn).

Arguments Ok {A} a.
Arguments Raise {A} e.

(* ===================================================================== *)
(** * The time-expiring bounded cache behind [get_stac_item] *)
(* ===================================================================== *)

Module TTL.

Section Cache.
Context {K : Type} `{EqDecision K} {V : Type}.

(** [links] is the ordered dictionary of the cache, least recently used
    first; each link carries the cached value and the time at which it
    expires.  [ring] is the list of the same links in the order in which
    they were stored, walked by [expire]. *)
Record TTLCache := {
  maxsize : Z;
  ttl : Z;
  links : list (K * (V * Z));
  ring : list K
}.

Definition empty (maxsize ttl : Z) : TTLCache :=
  {| maxsize := maxsize; ttl := ttl; links := []; ring := [] |}.

Fixpoint find {A} (k : K) (l : list (K * A)) : option A :=
  match l with
  | [] => None
  | (k', x) :: r => if decide (k' = k) then Some x else find k r
  end.

Definition remove {A} (k : K) (l : list (K * A)) : list (K * A) :=
  List.filter (fun e => negb (bool_decide (fst e = k))) l.

Definition unlink (k : K) (r : list K) : list K :=
  List.filter (fun k' => negb (bool_decide (k' = k))) r.

Definition with_links (c : TTLCache) (l : list (K * (V * Z))) (r : list K)
  : TTLCache :=
  {| maxsize := maxsize c; ttl := ttl c; links := l; ring := r |}.

(** [__getlink]: the link of [k], which becomes the most recently used. *)
Definition move_to_end (k : K) (l : list (K * (V * Z))) : list (K * (V * Z)) :=
  match find k l with
  | Some x => remove k l ++ [(k, x)]
  | None => l
  end.

(** [cache[k]] at time [now]: [None] stands for [KeyError].  The link of a
    key that is present is moved to the end before its expiry is looked
    at. *)
Definition getitem (now : Z) (k : K) (c : TTLCache) : option V * TTLCache :=
  match find k (links c) with
  | None => (None, c)
  | Some (v, expires) =>
      let c' := with_links c (move_to_end k (links c)) (ring c) in
      if now <? expires then (Some v, c') else (None, c')
  end.

Definition delitem (k : K) (c : TTLCache) : TTLCache :=
  with_links c (remove k (links c)) (unlink k (ring c)).

(** [expire(time)]: walks the ring from its oldest link and deletes links
    until one has not expired. *)
Fixpoint expire_ring (time : Z) (l : list (K * (V * Z))) (r : list K)
  : list (K * (V * Z)) * list K :=
  match r with
  | [] => (l, [])
  | k :: r' =>
      match find k l with
      | Some (_, expires) =>
          if time <? expires then (l, r)
          else expire_ring time (remove k l) r'
      | None => expire_ring time l r'
      end
  end.

Definition expire (time : Z) (c : TTLCache) : TTLCache :=
  let '(l, r) := expire_ring time (links c) (ring c) in with_links c l r.

(** [popitem()]: after [expire], the least recently used link is removed;
    [None] stands for the [KeyError] of an empty cache. *)
Definition popitem (time : Z) (c : TTLCache) : option TTLCache :=
  let c1 := expire time c in
  match links c1 with
  | [] => None
  | (k, _) :: _ => Some (delitem k c1)
  end.

(** [while currsize + size > maxsize: popitem()], every value being of
    size one. *)
Fixpoint evict (fuel : nat) (time : Z) (c : TTLCache) : option TTLCache :=
  if maxsize c <? Z.of_nat (length (links c)) + 1 then
    match fuel with
    | O => None
    | S fuel' =>
        match popitem time c with
        | None => None
        | Some c' => evict fuel' time c'
        end
    end
  else Some c.

Inductive stored :=
| Stored (c : TTLCache)
| TooLarge (c : TTLCache)
| Emptied.

(** [cache[k] = v] at time [time]: the expired links go first; a value
    larger than the whole cache is refused with [ValueError]; room is made
    for a new key; the link of [k] is then the most recent of both
    orders and expires at [time + ttl]. *)
Definition setitem (time : Z) (k : K) (v : V) (c : TTLCache) : stored :=
  let c1 := expire time c in
  if maxsize c1 <? 1 then TooLarge c1
  else
    let room :=
      match find k (links c1) with
      | Some _ => Some c1
      | None => evict (length (links c1)) time c1
      end in
    match room with
    | None => Emptied
    | Some c2 =>
        Stored (with_links c2
                  (remove k (links c2) ++ [(k, (v, time + ttl c2))])
                  (unlink k (ring c2) ++ [k]))
    end.

(** The keys linked after [k], that is, used more recently than [k]. *)
Fixpoint newer (k : K) (l : list (K * (V * Z))) : list K :=
  match l with
  | [] => []
  | (k', _) :: r => if decide (k' = k) then map fst r else newer k r
  end.

(** The state the cache is in between two operations: no key is linked
    twice and the size bound is kept. *)
Definition wf (c : TTLCache) : Prop :=
  NoDup (map fst (links c))
  /\ Z.of_nat (length (links c)) <= Z.max (maxsize c) 0.

(** The link of [k] holds [v] until [e], and every link used more recently
    belongs to [seen]. *)
Definition keeps (k : K) (v : V) (e : Z) (seen : list K) (c : TTLCache) : Prop :=
  wf c /\ find k (links c) = Some (v, e) /\ newer k (links c) ⊆ seen.

End Cache.

Arguments TTLCache K V : clear implicits.
Arguments stored K V : clear implicits.
Arguments newer {K _ V} k l.

End TTL.

(* ===================================================================== *)
(** * [get_stac_item] *)
(* ===================================================================== *)

Module Items.
Import Py.

(** What the catalogue answers to a search: the [features] it found, when
    the answer has that key, and the other members of the answer. *)
Record FeatureCollection := {
  features : option (list value);
  members : list (string * value)
}.

(** [cursor.fetchone()["search"]]: [None] for a null answer. *)
Definition response : Type := option FeatureCollection.

(** A connection pool: where it connects, and what the catalogue behind
    it answers to a search document. *)
Record ConnectionPool := {
  conninfo : string;
  pgstac_search : value -> response
}.

(** An item, as [pystac] builds it from the feature it is read from. *)
Inductive Item := Item_from_dict (feature : value).

(** [pystac.Item.from_dict] belongs to a library outside the repository,
    and reads only some dictionaries as items.  It refuses the others
    with an error of its own or of Python: [STACTypeError] for a
    dictionary that is not an item, [KeyError] for an item that lacks a
    member, and so on.  The library knows nothing of the web framework:
    no error of it is an [HTTPException]. *)
Definition is_http (e : exn) : bool :=
  match e with HTTPException _ _ => true | _ => false end.

Record refusal := Refusal {
  error : exn;
  error_own : is_http error = false
}.

(** Which features the library does not read as items. *)
Class Pystac := {
  refused : value -> option refusal
}.

(** [not resp]: a null answer or an empty dictionary. *)
Definition falsy (resp : response) : bool :=
  match resp with
  | None => true
  | Some fc =>
      match features fc, members fc with
      | None, [] => true
      | _, _ => false
      end
  end.


Definition not_found_detail (collection item : string) : string :=
  "No item '" ++ item ++ "' found in '" ++ collection ++ "' collection".

(** The search of one item in one collection. *)
Definition item_search (collection item : string) : value :=
  Model.json true true
    (Model.construct Model.PgSTACSearch_fields
       [ ("ids", VList [VStr item]); ("collections", VList [VStr collection]) ]).

Section Lookup.
Context {library : Pystac}.

(** [pystac.Item.from_dict(feature)]. *)
Definition from_dict (feature : value) : result Item :=
  match refused feature with
  | Some r => Raise (error r)
  | None => Ok (Item_from_dict feature)
  end.

(** The body of [get_stac_item], without its cache. *)
Definition fetch_stac_item (pool : ConnectionPool) (collection item : string)
  : result Item :=
  let resp := pgstac_search pool (item_search collection item) in
  if falsy resp then Raise (HTTPException 404 (not_found_detail collection item))
  else
    match resp with
    | Some {| features := Some [feature] |} => from_dict feature
    | _ => Raise (HTTPException 404 (not_found_detail collection item))
    end.

(** [hashkey(collection, item)]. *)
Definition hashkey (collection item : string) : string * string :=
  (collection, item).

(** The process: the cache of the decorator and, to count them, the
    searches sent so far: the pool each went through and the collection
    and item it asked for. *)
Record process := {
  cache : TTL.TTLCache (string * string) Item;
  sent : list (string * (string * string))
}.

(** Modelled from the spec: [titiler/pgstac/settings.py] is not part of the
    sources; the size bound and the time-to-live of the cache are its two
    settings. *)
Definition start (maxsize ttl : Z) : process :=
  {| cache := TTL.empty maxsize ttl; sent := [] |}.

(** [get_stac_item(pool, collection, item)] under [@cached]: the clock
    reads [now] when the cache is looked up and [later] when the fetched
    item is stored.  The key leaves the pool out. *)
Definition get_stac_item (now later : Z) (pool : ConnectionPool)
  (collection item : string) (p : process) : result Item * process :=
  let k := hashkey collection item in
  match TTL.getitem now k (cache p) with
  | (Some v, c) => (Ok v, {| cache := c; sent := sent p |})
  | (None, c) =>
      let log := (sent p ++ [(conninfo pool, (collection, item))])%list in
      match fetch_stac_item pool collection item with
      | Raise e => (Raise e, {| cache := c; sent := log |})
      | Ok v =>
          match TTL.setitem later k v c with
          | TTL.Stored c' => (Ok v, {| cache := c'; sent := log |})
          | TTL.TooLarge c' => (Ok v, {| cache := c'; sent := log |})
          | TTL.Emptied => (Raise KeyError, {| cache := c; sent := log |})
          end
      end
  end.

(** [ItemPathParams(request, collection_id, item_id)], the pool being the
    one of the application. *)
Definition ItemPathParams (now later : Z) (dbpool : ConnectionPool)
  (collection_id item_id : string) (p : process) : result Item * process :=
  get_stac_item now later dbpool collection_id item_id p.

(** A call of [get_stac_item] and the clock readings it is made under. *)
Record call := {
  c_now : Z;
  c_later : Z;
  c_pool : ConnectionPool;
  c_collection : string;
  c_item : string
}.

Definition call_key (c : call) : string * string :=
  hashkey (c_collection c) (c_item c).

Definition do_call (p : process) (c : call) : process :=
  snd (get_stac_item (c_now c) (c_later c) (c_pool c)
         (c_collection c) (c_item c) p).

(** The process after a sequence of calls. *)
Definition run (p : process) (calls : list call) : process :=
  fold_left do_call calls p.

(** The keys other than [k] that a sequence of calls asks for. *)
Definition other_keys (k : string * string) (calls : list call)
  : list (string * string) :=
  List.filter (fun k' => negb (bool_decide (k' = k))) (map call_key calls).

(** How many searches for [k] were sent. *)
Definition fetches (collection item : string) (p : process) : nat :=
  length (List.filter
            (fun q => bool_decide (snd q = (collection, item)))
            (sent p)).

(** The property of the cache when its size bound is left out: in a
    process started with the given settings, once a lookup has succeeded,
    any call for the same collection and item made before the time-to-live
    has run out answers the cached item and sends no search, whatever was
    called in between. *)
Definition one_fetch_within_ttl (maxsize ttl : Z) : Prop :=
  forall pool collection item now later v p' calls pool' now' later',
    get_stac_item now later pool collection item (start maxsize ttl) = (Ok v, p') ->
    Forall (fun cl => c_now cl < later + ttl /\ c_later cl < later + ttl) calls ->
    now' < later + ttl ->
    fst (get_stac_item now' later' pool' collection item (run p' calls)) = Ok v
    /\ sent (snd (get_stac_item now' later' pool' collection item (run p' calls)))
       = sent (run p' calls).

End Lookup.

End Items.


(* ===================================================================== *)
(** * Operations on a registered search *)
(* ===================================================================== *)

Module Mosaic.
Import Py.

(** [PathParams(searchid)]: the identifier of the path, as it is. *)
Definition PathParams (searchid : string) : string := searchid.

(** [PgSTACParams]: the tuning of a search; what is not set is left to the
    catalogue. *)
Record PgSTACParams := {
  scan_limit : option Z;
  items_limit : option Z;
  time_limit : option Z;
  exitwhenfull : option bool;
  skipcovered : option bool
}.

(** Modelled from the spec: the routes and the mosaic backend are not part
    of the sources.  What follows is the taxonomy of §7, the query regions
    and asset records of §3, and the operations of §6. *)
Inductive error :=
| NotFound (message : string)
| NoAssetFound
| InvalidInput (message : string).

Inductive region :=
| Point (lon lat : number)
| Tile (z x y : Z) (tms : string)
| Geometry (geojson : value).

Inductive selector :=
| Assets (names : list string)
| Expression (expression : string).

Record AssetRecord := {
  asset_id : value;
  asset_bbox : value;
  asset_assets : value;
  asset_collection : value
}.

(** Modelled from the spec: the reduction of an item of the catalogue to
    its asset record (§3), made by the missing mosaic backend. *)
Definition asset_record (item : value) : AssetRecord :=
  let get k := match item with
               | VDict kv => default VNone (assoc k kv)
               | _ => VNone
               end in
  {| asset_id := get "id"; asset_bbox := get "bbox";
     asset_assets := get "assets"; asset_collection := get "collection" |}.

Inductive operation :=
| Info
| AssetsForPoint (lon lat : number) (tuning : PgSTACParams)
| AssetsForTile (z x y : Z) (tms : string) (tuning : PgSTACParams)
| RenderTile (z x y : Z) (tms : string) (layer : selector) (tuning : PgSTACParams)
| Statistics (geojson : value) (layer : selector) (tuning : PgSTACParams).

Section Engine.

(** The collaborators of §6, taken as they are: the spatial search of the
    catalogue, which answers the items of a registered search that meet a
    region, in its own order, and the rendering and statistics of a list
    of assets. *)
Context {Image Stats : Type}.
Variable spatial_search : value -> region -> PgSTACParams -> list value.
Variable render : list AssetRecord -> selector -> Image.
Variable summarize : list AssetRecord -> selector -> Stats.

Inductive answer :=
| SearchInfo (search metadata : value)
| AssetList (assets : list AssetRecord)
| Rendered (image : Image)
| Summary (stats : Stats).

(** Modelled from the spec: [lookup] of §4.2, made by the missing routes
    and mosaic backend. *)
Definition lookup (store : gmap string Registry.RegisteredSearch)
  (searchid : string) : error + Registry.RegisteredSearch :=
  match store !! searchid with
  | Some r => inr r
  | None => inl (NotFound ("SearchId `" ++ searchid ++ "` not found"))
  end.

(** Modelled from the spec: [resolve] of §4.4, of the missing mosaic
    backend.  The registered search is looked up, its filter and the
    region go to the spatial search with the tuning as given, and the
    items come back as asset records in the order of the search. *)
Definition resolve (store : gmap string Registry.RegisteredSearch)
  (searchid : string) (where_ : region) (tuning : PgSTACParams)
  : error + list AssetRecord :=
  match lookup store searchid with
  | inl e => inl e
  | inr r => inr (map asset_record (spatial_search (Registry.rs_search r) where_ tuning))
  end.

(** Modelled from the spec: the check of the missing rendering routes; a
    rendering that finds no asset is a [NoAssetFound]. *)
Definition covered (assets : list AssetRecord) : error + list AssetRecord :=
  match assets with
  | [] => inl NoAssetFound
  | _ => inr assets
  end.

(** Modelled from the spec: the operations of §6 on a search identifier,
    whose routes are not part of the sources.  The selector of a rendering
    is part of the operation: a request without one is refused before. *)
Definition perform (store : gmap string Registry.RegisteredSearch)
  (searchid : string) (op : operation) : error + answer :=
  let searchid := PathParams searchid in
  match op with
  | Info =>
      match lookup store searchid with
      | inl e => inl e
      | inr r => inr (SearchInfo (Registry.rs_search r) (Registry.rs_metadata r))
      end
  | AssetsForPoint lon lat tuning =>
      match resolve store searchid (Point lon lat) tuning with
      | inl e => inl e
      | inr assets => inr (AssetList assets)
      end
  | AssetsForTile z x y tms tuning =>
      match resolve store searchid (Tile z x y tms) tuning with
      | inl e => inl e
      | inr assets => inr (AssetList assets)
      end
  | RenderTile z x y tms layer tuning =>
      match resolve store searchid (Tile z x y tms) tuning with
      | inl e => inl e
      | inr assets =>
          match covered assets with
          | inl e => inl e
          | inr assets => inr (Rendered (render assets layer))
          end
      end
  | Statistics geojson layer tuning =>
      match resolve store searchid (Geometry geojson) tuning with
      | inl e => inl e
      | inr assets =>
          match covered assets with
          | inl e => inl e
          | inr assets => inr (Summary (summarize assets layer))
          end
      end
  end.

End Engine.

End Mosaic.

(* ===================================================================== *)
(** * Decoding the JSON text of a colormap *)
(* ===================================================================== *)

Module JSON.

Local Open Scope Z_scope.

(** What [json.loads] answers, and what the functions applied to it make
    of it.  [PObj] is a JSON object as decoded, [PMap] the dictionary with
    integer keys that the hook of [ColorMapParams] turns it into.  Text is
    kept as UTF-8 bytes. *)
Inductive pyval :=
| PNone
| PBool (b : bool)
| PInt (z : Z)
| PFloat (x : float)
| PStr (s : string)
| PList (l : list pyval)
| PTuple (l : list pyval)
| PObj (kv : list (string * pyval))
| PMap (kv : list (Z * pyval)).

(** ** Numbers *)

(** The float nearest to [n / d], for [d > 0]: the quotient is taken with
    three bits to spare and a sticky bit, then rounded to nearest even. *)
Definition round_ratio (n d : Z) : float :=
  if n =? 0 then PrimFloat.zero
  else
    let a := Z.abs n in
    let e := Z.log2 a - Z.log2 d - 56 in
    let num := if 0 <=? e then a else a * 2 ^ (- e) in
    let den := if 0 <=? e then d * 2 ^ e else d in
    let m := 2 * (num / den) + (if num mod den =? 0 then 0 else 1) in
    SF2Prim (binary_normalize prec emax (if n <? 0 then - m else m) (e - 1) false).

(** [float(z)] and [a / b] on integers. *)
Definition float_of_int (z : Z) : float := round_ratio z 1.

Definition true_divide (a b : Z) : float :=
  if b <? 0 then round_ratio (- a) (- b) else round_ratio a b.

(** The float written [m * 10^e]. *)
Definition float_of_decimal (negative : bool) (m e : Z) : float :=
  if m =? 0 then (if negative then PrimFloat.neg_zero else PrimFloat.zero)
  else
    let m := if negative then - m else m in
    if 0 <=? e then round_ratio (m * 10 ^ e) 1 else round_ratio m (10 ^ (- e)).

(** The integer part of a finite float, towards zero. *)
Definition trunc (f : float) : Z :=
  match Prim2SF f with
  | S754_finite s m e =>
      let v := if 0 <=? e then Zpos m * 2 ^ e else Zpos m / 2 ^ (- e) in
      if s then - v else v
  | _ => 0
  end.

(** [round(f)]: the nearest integer, the even one of two. *)
Definition round_half_even (f : float) : Z :=
  match Prim2SF f with
  | S754_finite s m e =>
      let v :=
        if 0 <=? e then Zpos m * 2 ^ e
        else
          let d := 2 ^ (- e) in
          let q := Zpos m / d in
          let r := Zpos m mod d in
          if d <? 2 * r then q + 1
          else if 2 * r <? d then q
          else if Z.even q then q else q + 1 in
      if s then - v else v
  | _ => 0
  end.

(** ** Text *)

Definition codes (s : string) : list Z := MD5.bytes_of_string s.

Fixpoint text (l : list Z) : string :=
  match l with
  | [] => EmptyString
  | c :: r => String (ascii_of_N (Z.to_N c)) (text r)
  end.

(** Literals are written with an apostrophe where the text has a double
    quote. *)
Definition dq (s : string) : string :=
  text (map (fun c => if c =? 39 then 34 else c) (codes s)).

Definition is_digit (c : Z) : bool := (48 <=? c) && (c <=? 57).

Definition hexval (c : Z) : option Z :=
  if is_digit c then Some (c - 48)
  else if (65 <=? c) && (c <=? 70) then Some (c - 55)
  else if (97 <=? c) && (c <=? 102) then Some (c - 87)
  else None.

Fixpoint span_digits (s : list Z) : list Z * list Z :=
  match s with
  | c :: r =>
      if is_digit c then let '(d, r') := span_digits r in (c :: d, r')
      else ([], s)
  | [] => ([], [])
  end.

Definition number_of_digits (d : list Z) : Z :=
  fold_left (fun acc c => 10 * acc + (c - 48)) d 0.

(** [s] without the prefix [lit], when it starts with it. *)
Fixpoint starts_with (lit s : list Z) : option (list Z) :=
  match lit, s with
  | [], _ => Some s
  | a :: lit', b :: s' => if a =? b then starts_with lit' s' else None
  | _ :: _, [] => None
  end.

(** The UTF-8 bytes of a code point. *)
Definition utf8 (u : Z) : list Z :=
  if u <? 128 then [u]
  else if u <? 2048 then [192 + u / 64; 128 + u mod 64]
  else if u <? 65536 then [224 + u / 4096; 128 + u / 64 mod 64; 128 + u mod 64]
  else [240 + u / 262144; 128 + u / 4096 mod 64; 128 + u / 64 mod 64; 128 + u mod 64].

(** Four hexadecimal digits. *)
Definition hex4 (s : list Z) : option (Z * list Z) :=
  match s with
  | a :: b :: c :: d :: r =>
      match hexval a, hexval b, hexval c, hexval d with
      | Some a, Some b, Some c, Some d => Some (4096 * a + 256 * b + 16 * c + d, r)
      | _, _, _, _ => None
      end
  | _ => None
  end.

(** ** The decoder *)

Definition ws (c : Z) : bool :=
  (c =? 32) || (c =? 9) || (c =? 10) || (c =? 13).

Fixpoint skip_ws (s : list Z) : list Z :=
  match s with
  | c :: r => if ws c then skip_ws r else s
  | [] => []
  end.

(** The character that a simple escape stands for. *)
Definition escape (e : Z) : option Z :=
  if e =? 34 then Some 34
  else if e =? 92 then Some 92
  else if e =? 47 then Some 47
  else if e =? 98 then Some 8
  else if e =? 102 then Some 12
  else if e =? 110 then Some 10
  else if e =? 114 then Some 13
  else if e =? 116 then Some 9
  else None.

(** What follows [\u]: four hexadecimal digits; a high surrogate followed
    by an escaped low surrogate makes one character with it. *)
Definition scan_unicode (s : list Z) : option (Z * list Z) :=
  match hex4 s with
  | None => None
  | Some (u, r) =>
      let alone := Some (u, r) in
      if (55296 <=? u) && (u <=? 56319) then
        match r with
        | a :: b :: r2 =>
            if (a =? 92) && (b =? 117) then
              match hex4 r2 with
              | Some (u2, r3) =>
                  if (56320 <=? u2) && (u2 <=? 57343)
                  then Some (65536 + (u - 55296) * 1024 + (u2 - 56320), r3)
                  else alone
              | None => alone
              end
            else alone
        | _ => alone
        end
      else alone
  end.

(** The text of a string, after its opening quote, and what follows its
    closing quote.  A control character is refused. *)
Fixpoint scanstring (fuel : nat) (s acc : list Z) : result (string * list Z) :=
  match fuel with
  | O => Raise JSONDecodeError
  | S fuel' =>
      match s with
      | [] => Raise JSONDecodeError
      | c :: r =>
          if c =? 34 then Ok (text (rev acc), r)
          else if c =? 92 then
            match r with
            | [] => Raise JSONDecodeError
            | e :: r' =>
                match escape e with
                | Some ch => scanstring fuel' r' (ch :: acc)
                | None =>
                    if e =? 117 then
                      match scan_unicode r' with
                      | Some (u, r2) => scanstring fuel' r2 (rev (utf8 u) ++ acc)
                      | None => Raise JSONDecodeError
                      end
                    else Raise JSONDecodeError
                end
            end
          else if c <? 32 then Raise JSONDecodeError
          else scanstring fuel' r (c :: acc)
      end
  end.

(** The parts of a number: its sign, its integer part, and a fraction and
    an exponent when they are complete. *)
Definition scan_sign (s : list Z) : bool * list Z :=
  match s with
  | c :: r => if c =? 45 then (true, r) else (false, s)
  | [] => (false, s)
  end.

Definition scan_int (s : list Z) : list Z * list Z :=
  match s with
  | c :: r => if c =? 48 then ([48], r) else span_digits s
  | [] => ([], s)
  end.

Definition scan_frac (s : list Z) : list Z * list Z :=
  match s with
  | c :: r =>
      if c =? 46 then
        match span_digits r with
        | ([], _) => ([], s)
        | (d, r') => (d, r')
        end
      else ([], s)
  | [] => ([], s)
  end.

Definition scan_exp (s : list Z) : option Z * list Z :=
  match s with
  | c :: r =>
      if (c =? 101) || (c =? 69) then
        let '(negative, r1) :=
          match r with
          | c' :: r' =>
              if c' =? 43 then (false, r')
              else if c' =? 45 then (true, r')
              else (false, r)
          | [] => (false, r)
          end in
        match span_digits r1 with
        | ([], _) => (None, s)
        | (d, r2) =>
            (Some (if negative then - number_of_digits d else number_of_digits d), r2)
        end
      else (None, s)
  | [] => (None, s)
  end.

(** [sys.get_int_max_str_digits()], as the interpreter starts with it: an
    integer is not read from more decimal digits than that. *)
Definition int_max_str_digits : nat := 4300.

(** A number: an integer when it has neither fraction nor exponent, a
    float otherwise; [None] when no number starts the text.  The digits of
    an integer are handed to [int], which refuses too many of them with a
    [ValueError]; a float is read from any number of digits. *)
Definition scan_number (s : list Z) : option (result (pyval * list Z)) :=
  let '(negative, s1) := scan_sign s in
  let '(int_digits, s2) := scan_int s1 in
  match int_digits with
  | [] => None
  | _ =>
      let '(frac, s3) := scan_frac s2 in
      let '(expo, s4) := scan_exp s3 in
      match frac, expo with
      | [], None =>
          if (int_max_str_digits <? length int_digits)%nat then Some (Raise ValueError)
          else
            let n := number_of_digits int_digits in
            Some (Ok (PInt (if negative then - n else n), s4))
      | _, _ =>
          Some (Ok (PFloat
                      (float_of_decimal negative
                         (number_of_digits (int_digits ++ frac))
                         (default 0 expo - Z.of_nat (length frac))),
                    s4))
      end
  end.

(** [dict(pairs)]: a key met again takes the new value where it stands. *)
Fixpoint dict_set {A B} (eqb : A -> A -> bool) (k : A) (v : B) (d : list (A * B))
  : list (A * B) :=
  match d with
  | [] => [(k, v)]
  | (k', v') :: r =>
      if eqb k k' then (k, v) :: r else (k', v') :: dict_set eqb k v r
  end.

Definition dict_of {A B} (eqb : A -> A -> bool) (pairs : list (A * B)) : list (A * B) :=
  fold_left (fun d kv => dict_set eqb (fst kv) (snd kv) d) pairs [].

(** A value that is neither a string, an object nor an array: [null],
    [true], [false], a number, or one of the constants [NaN], [Infinity]
    and [-Infinity]. *)
Definition scan_literal (s : list Z) : result (pyval * list Z) :=
  match starts_with (codes "null") s,
        starts_with (codes "true") s,
        starts_with (codes "false") s with
  | Some r, _, _ => Ok (PNone, r)
  | _, Some r, _ => Ok (PBool true, r)
  | _, _, Some r => Ok (PBool false, r)
  | None, None, None =>
      match scan_number s with
      | Some res => res
      | None =>
          match starts_with (codes "NaN") s,
                starts_with (codes "Infinity") s,
                starts_with (codes "-Infinity") s with
          | Some r, _, _ => Ok (PFloat PrimFloat.nan, r)
          | _, Some r, _ => Ok (PFloat PrimFloat.infinity, r)
          | _, _, Some r => Ok (PFloat PrimFloat.neg_infinity, r)
          | None, None, None => Raise JSONDecodeError
          end
      end
  end.

(** [sys.getrecursionlimit()], as the interpreter starts with it.  The
    decoder makes one call for every object and every array that it
    enters, and gives up with [RecursionError] when the calls under way
    reach the limit.  In the program the calls that lead to the decoder
    count too, so that it gives up on texts nested somewhat less deeply
    than here; nothing below depends on where exactly. *)
Definition recursion_limit : nat := 1000.

Section Decoder.

(** The hook called on every object that has been decoded. *)
Variable object_hook : list (string * pyval) -> result pyval.

(** [scan_once] decodes one value; [array_items] and [object_items] decode
    what follows the opening bracket or the first quote of an object, up
    to the closing bracket or brace.  [depth] is the number of objects and
    arrays that may still be entered, one inside the other.  The fuel is
    there for the recursion of the definition only: [loads] gives enough
    of it for any text. *)
Fixpoint scan_once (fuel depth : nat) (s : list Z) {struct fuel}
  : result (pyval * list Z) :=
  match fuel with
  | O => Raise RecursionError
  | S fuel' =>
      match s with
      | [] => Raise JSONDecodeError
      | c :: r =>
          if c =? 34 then
            match scanstring (length r) r [] with
            | Ok (str, r') => Ok (PStr str, r')
            | Raise e => Raise e
            end
          else if c =? 123 then
            match depth with
            | O => Raise RecursionError
            | S depth' =>
                match skip_ws r with
                | [] => Raise JSONDecodeError
                | c' :: r' =>
                    if c' =? 125 then
                      match object_hook [] with
                      | Ok v => Ok (v, r')
                      | Raise e => Raise e
                      end
                    else if c' =? 34 then object_items fuel' depth' r' []
                    else Raise JSONDecodeError
                end
            end
          else if c =? 91 then
            match depth with
            | O => Raise RecursionError
            | S depth' =>
                match skip_ws r with
                | [] => array_items fuel' depth' [] []
                | c' :: r' =>
                    if c' =? 93 then Ok (PList [], r')
                    else array_items fuel' depth' (c' :: r') []
                end
            end
          else scan_literal s
      end
  end

with array_items (fuel depth : nat) (s : list Z) (acc : list pyval) {struct fuel}
  : result (pyval * list Z) :=
  match fuel with
  | O => Raise RecursionError
  | S fuel' =>
      match scan_once fuel' depth s with
      | Raise e => Raise e
      | Ok (v, r) =>
          match skip_ws r with
          | [] => Raise JSONDecodeError
          | c :: r' =>
              if c =? 93 then Ok (PList (rev (v :: acc)), r')
              else if c =? 44 then array_items fuel' depth (skip_ws r') (v :: acc)
              else Raise JSONDecodeError
          end
      end
  end

with object_items (fuel depth : nat) (s : list Z) (acc : list (string * pyval))
  {struct fuel} : result (pyval * list Z) :=
  match fuel with
  | O => Raise RecursionError
  | S fuel' =>
      match scanstring (length s) s [] with
      | Raise e => Raise e
      | Ok (key, r) =>
          match skip_ws r with
          | [] => Raise JSONDecodeError
          | c :: r1 =>
              if c =? 58 then
                match scan_once fuel' depth (skip_ws r1) with
                | Raise e => Raise e
                | Ok (v, r2) =>
                    match skip_ws r2 with
                    | [] => Raise JSONDecodeError
                    | c2 :: r3 =>
                        if c2 =? 125 then
                          match object_hook (dict_of String.eqb (rev ((key, v) :: acc))) with
                          | Ok o => Ok (o, r3)
                          | Raise e => Raise e
                          end
                        else if c2 =? 44 then
                          match skip_ws r3 with
                          | [] => Raise JSONDecodeError
                          | c4 :: r4 =>
                              if c4 =? 34 then object_items fuel' depth r4 ((key, v) :: acc)
                              else Raise JSONDecodeError
                          end
                        else Raise JSONDecodeError
                    end
                end
              else Raise JSONDecodeError
          end
      end
  end.

(** [json.loads(s, object_hook=...)]: one value, with white space around
    it and nothing else. *)
Definition loads (s : string) : result pyval :=
  let input := codes s in
  match scan_once (2 * length input + 2) recursion_limit (skip_ws input) with
  | Raise e => Raise e
  | Ok (v, r) =>
      match skip_ws r with
      | [] => Ok v
      | _ => Raise JSONDecodeError
      end
  end.

End Decoder.

(** What a step of the decoder on [s] may end with: a value and a strictly
    shorter rest, a decoding error, the refusal of an integer of too many
    digits, the refusal to enter one more object or array, or an error
    raised by the hook. *)
Definition step_outcome (h : list (string * pyval) -> result pyval)
  (s : list Z) (res : result (pyval * list Z)) : Prop :=
  match res with
  | Ok (_, r) => (length r < length s)%nat
  | Raise e =>
      e = JSONDecodeError \/ e = ValueError \/ e = RecursionError
      \/ exists x, h x = Raise e
  end.

(** Without a hook an object is decoded as it is. *)
Definition plain (pairs : list (string * pyval)) : result pyval := Ok (PObj pairs).

End JSON.

(* ===================================================================== *)
(** * [ColorMapParams] *)
(* ===================================================================== *)

Module Colormap.
Import JSON.

Local Open Scope Z_scope.

(** ** The hook: integer keys and parsed colours *)

(** White space as [int] strips it from a text of ASCII characters. *)
Definition is_space (c : Z) : bool :=
  ((9 <=? c) && (c <=? 13)) || (c =? 32).

Fixpoint lstrip (s : list Z) : list Z :=
  match s with
  | c :: r => if is_space c then lstrip r else s
  | [] => []
  end.

Definition strip (s : list Z) : list Z := rev (lstrip (rev (lstrip s))).

(** Decimal digits, with single underscores between them. *)
Fixpoint int_digits (s : list Z) (acc : Z) (after_digit : bool) : option Z :=
  match s with
  | [] => if after_digit then Some acc else None
  | c :: r =>
      if is_digit c then int_digits r (10 * acc + (c - 48)) true
      else if (c =? 95) && after_digit then
        match r with
        | d :: _ => if is_digit d then int_digits r acc false else None
        | [] => None
        end
      else None
  end.

(** [int(k)] on a string of ASCII characters: a sign, then digits; more
    digits than [int_max_str_digits] are refused like a text that is no
    number. *)
Definition py_int (k : string) : result Z :=
  let s := strip (codes k) in
  let '(negative, s) :=
    match s with
    | 45 :: r => (true, r)
    | 43 :: r => (false, r)
    | _ => (false, s)
    end in
  match int_digits s 0 false with
  | Some n =>
      if (int_max_str_digits <? length (List.filter is_digit s))%nat
      then Raise ValueError
      else Ok (if negative then - n else n)
  | None => Raise ValueError
  end.

Fixpoint hex_pairs (factor1 : bool) (s : list Z) : option (list Z) :=
  match s with
  | [] => Some []
  | a :: r =>
      if factor1 then
        match r with
        | b :: r' =>
            match hexval a, hexval b, hex_pairs factor1 r' with
            | Some a, Some b, Some l => Some (16 * a + b :: l)
            | _, _, _ => None
            end
        | [] => None
        end
      else
        match hexval a, hex_pairs factor1 r with
        | Some a, Some l => Some (17 * a :: l)
        | _, _ => None
        end
  end.

(** A colour written [#rgb], [#rgba], [#rrggbb] or [#rrggbbaa]; a final
    newline is let through, as the patterns do. *)
Definition parse_hex (s : string) : option (list Z) :=
  let l := codes s in
  let l := match rev l with 10 :: r => rev r | _ => l end in
  match l with
  | 35 :: h =>
      let n := length h in
      if (n =? 3)%nat || (n =? 4)%nat then hex_pairs false h
      else if (n =? 6)%nat || (n =? 8)%nat then hex_pairs true h
      else None
  | _ => None
  end.

(** [parse_color] of the tiling library: a hexadecimal string or a
    sequence of three or four components becomes a tuple of four
    components, the alpha being 255 when it is not given. *)
Definition parse_color (rgba : pyval) : result pyval :=
  let of_sequence (l : list pyval) :=
    let n := length l in
    if (4 <? n)%nat || (n <? 3)%nat then Raise InvalidColorFormat
    else Ok (PTuple (if (n =? 3)%nat then l ++ [PInt 255] else l)) in
  match rgba with
  | PStr s =>
      match parse_hex s with
      | Some l => of_sequence (map PInt l)
      | None => Raise AttributeError
      end
  | PList l => of_sequence l
  | PTuple l => of_sequence l
  | PObj kv => of_sequence (map (fun m => PStr (fst m)) kv)
  | PMap kv => of_sequence (map (fun m => PInt (fst m)) kv)
  | _ => Raise TypeError
  end.

(** The comprehension of the hook, entry after entry. *)
Fixpoint hook_items (items : list (string * pyval)) (acc : list (Z * pyval))
  : result pyval :=
  match items with
  | [] => Ok (PMap acc)
  | (k, v) :: r =>
      match py_int k with
      | Raise e => Raise e
      | Ok n =>
          match parse_color v with
          | Raise e => Raise e
          | Ok c => hook_items r (dict_set Z.eqb n c acc)
          end
      end
  end.

(** [lambda x: {int(k): parse_color(v) for k, v in x.items()}]. *)
Definition object_hook (x : list (string * pyval)) : result pyval :=
  hook_items x [].

(** ** Intervals *)

(** The items of a sequence: a string is the sequence of its
    characters. *)
Definition sequence_items (v : pyval) : option (list pyval) :=
  match v with
  | PList l | PTuple l => Some l
  | PStr s => Some (map (fun c => PStr (text [c])) (codes s))
  | _ => None
  end.

(** What can be iterated over: sequences, and dictionaries by their
    keys. *)
Definition iterate (v : pyval) : option (list pyval) :=
  match v with
  | PObj kv => Some (map (fun m => PStr (fst m)) kv)
  | PMap kv => Some (map (fun m => PInt (fst m)) kv)
  | _ => sequence_items v
  end.

(** [(tuple(inter), parse_color(v)) for (inter, v) in cm]. *)
Fixpoint intervals (items : list pyval) : result (list pyval) :=
  match items with
  | [] => Ok []
  | x :: r =>
      match iterate x with
      | None => Raise TypeError
      | Some [inter; v] =>
          match iterate inter with
          | None => Raise TypeError
          | Some bounds =>
              match parse_color v with
              | Raise e => Raise e
              | Ok c =>
                  match intervals r with
                  | Raise e => Raise e
                  | Ok l => Ok (PTuple [PTuple bounds; c] :: l)
                  end
              end
          end
      | Some _ => Raise ValueError
      end
  end.

(** ** Linear colormaps *)

(** The number of levels of a colormap. *)
Definition levels : nat := 256.

Definition f255 : float := float_of_int 255.

(** [numpy.linspace(0, 1, levels)]: multiples of the step, the last point
    being the end point itself. *)
Definition linspace (i : nat) : float :=
  if (S i =? levels)%nat then PrimFloat.one
  else PrimFloat.mul (float_of_int (Z.of_nat i))
         (PrimFloat.div PrimFloat.one (float_of_int (Z.of_nat levels - 1))).

(** [v / 255] on a component of a colour. *)
Definition over_255 (v : pyval) : result float :=
  match v with
  | PInt z => Ok (true_divide z 255)
  | PBool b => Ok (true_divide (if b then 1 else 0) 255)
  | PFloat x => Ok (PrimFloat.div x f255)
  | _ => Raise TypeError
  end.

Fixpoint components (l : list pyval) : result (list float) :=
  match l with
  | [] => Ok []
  | v :: r =>
      match over_255 v with
      | Raise e => Raise e
      | Ok x =>
          match components r with
          | Raise e => Raise e
          | Ok xs => Ok (x :: xs)
          end
      end
  end.

(** A component through [to_hex] and back: it must lie between 0 and 1,
    is written as the two hexadecimal digits of the nearest of the 256
    levels, and read back as that level over 255. *)
Definition through_hex (x : float) : result float :=
  if PrimFloat.ltb x PrimFloat.zero || PrimFloat.ltb PrimFloat.one x
     || PrimFloat.is_nan x
  then Raise ValueError
  else Ok (true_divide (round_half_even (PrimFloat.mul x f255)) 255).

Fixpoint channels (xs : list float) : result (list float) :=
  match xs with
  | [] => Ok []
  | x :: r =>
      match through_hex x with
      | Raise e => Raise e
      | Ok y =>
          match channels r with
          | Raise e => Raise e
          | Ok ys => Ok (y :: ys)
          end
      end
  end.

(** A stop of the gradient: its position [k / 255] and its four
    channels. *)
Definition stop (k : Z) (rgba : pyval) : result (float * list float) :=
  match iterate rgba with
  | None => Raise TypeError
  | Some l =>
      match components l with
      | Raise e => Raise e
      | Ok xs =>
          let n := length xs in
          if negb ((n =? 3)%nat || (n =? 4)%nat) then Raise ValueError
          else
            match channels (if (n =? 3)%nat then xs ++ [PrimFloat.one] else xs) with
            | Raise e => Raise e
            | Ok ys => Ok (true_divide k 255, ys)
            end
      end
  end.

Fixpoint stops (kv : list (Z * pyval)) : result (list (float * list float)) :=
  match kv with
  | [] => Ok []
  | (k, rgba) :: r =>
      match stop k rgba with
      | Raise e => Raise e
      | Ok st =>
          match stops r with
          | Raise e => Raise e
          | Ok l => Ok (st :: l)
          end
      end
  end.

(** [l[i]], a negative index counting from the end. *)
Definition item (l : list float) (i : Z) : option float :=
  let n := Z.of_nat (length l) in
  let j := if i <? 0 then i + n else i in
  if (0 <=? j) && (j <? n) then nth_error l (Z.to_nat j) else None.

Fixpoint increasing (xs : list float) : bool :=
  match xs with
  | a :: ((b :: _) as r) => negb (PrimFloat.ltb (PrimFloat.sub b a) PrimFloat.zero) && increasing r
  | _ => true
  end.

(** [numpy.searchsorted(xs, v)]: how many points lie before [v]. *)
Definition searchsorted (xs : list float) (v : float) : Z :=
  Z.of_nat (length (List.filter (fun x => PrimFloat.ltb x v) xs)).

Definition clip01 (x : float) : float :=
  if PrimFloat.ltb x PrimFloat.zero then PrimFloat.zero
  else if PrimFloat.ltb PrimFloat.one x then PrimFloat.one
  else x.

(** A level strictly inside the table: the value found on the segment
    between the two stops around it. *)
Definition interpolate (xs ys : list float) (i : nat) : result float :=
  let xind := PrimFloat.mul f255 (linspace i) in
  let ind := searchsorted xs xind in
  match item xs (ind - 1), item xs ind, item ys (ind - 1), item ys ind with
  | Some xa, Some xb, Some ya, Some yb =>
      let distance := PrimFloat.div (PrimFloat.sub xind xa) (PrimFloat.sub xb xa) in
      Ok (PrimFloat.add (PrimFloat.mul distance (PrimFloat.sub yb ya)) ya)
  | _, _, _, _ => Raise IndexError
  end.

Fixpoint interior (xs ys : list float) (idxs : list nat) : result (list float) :=
  match idxs with
  | [] => Ok []
  | i :: r =>
      match interpolate xs ys i with
      | Raise e => Raise e
      | Ok v =>
          match interior xs ys r with
          | Raise e => Raise e
          | Ok l => Ok (v :: l)
          end
      end
  end.

(** The lookup table of one channel, from the positions of the stops and
    the values of the channel there: the positions must start at 0, end at
    1 and not decrease. *)
Definition create_lookup_table (x y : list float) : result (list float) :=
  match item x 0, item x (-1), item y 0, item y (-1) with
  | Some x0, Some x1, Some y0, Some y1 =>
      if negb (PrimFloat.eqb x0 PrimFloat.zero) || negb (PrimFloat.eqb x1 PrimFloat.one)
      then Raise ValueError
      else if negb (increasing x) then Raise ValueError
      else
        let xs := map (fun a => PrimFloat.mul a f255) x in
        match interior xs y (seq 1 (levels - 2)) with
        | Raise e => Raise e
        | Ok mid => Ok (map clip01 ([y0] ++ mid ++ [y1]))
        end
  | _, _, _, _ => Raise IndexError
  end.

Fixpoint lookup_tables (x : list float) (ys : list (list float))
  : result (list (list float)) :=
  match ys with
  | [] => Ok []
  | y :: r =>
      match create_lookup_table x y with
      | Raise e => Raise e
      | Ok lut =>
          match lookup_tables x r with
          | Raise e => Raise e
          | Ok l => Ok (lut :: l)
          end
      end
  end.

(** The level that a point of [0, 1] falls on: the point times the number
    of levels, the end point falling on the last level. *)
Definition level_of (x : float) : nat :=
  let n := float_of_int (Z.of_nat levels) in
  let xa := PrimFloat.mul x n in
  let xa := if PrimFloat.eqb xa n then float_of_int (Z.of_nat levels - 1) else xa in
  Z.to_nat (Z.max 0 (Z.min (Z.of_nat levels - 1) (trunc xa))).

(** [(value * 255).astype('uint8')]. *)
Definition uint8 (x : float) : Z := trunc (PrimFloat.mul x f255) mod 256.

(** The channel [c] of every stop. *)
Definition column (c : nat) (sts : list (float * list float)) : list float :=
  map (fun st => nth c (snd st) PrimFloat.zero) sts.

(** The branch of [ColorMapParams] for a linear colormap: the stops, in the
    order of the dictionary, make one lookup table for each of the four
    channels; the tables are read at the 256 points of [linspace] and
    their values scaled to bytes. *)
Definition linear (cm : pyval) : result pyval :=
  match cm with
  | PMap kv =>
      match stops kv with
      | Raise e => Raise e
      | Ok [] => Raise IndexError
      | Ok sts =>
          match lookup_tables (map fst sts) (map (fun c => column c sts) (seq 0 4)) with
          | Raise e => Raise e
          | Ok luts =>
              Ok (PMap
                    (map (fun idx =>
                            (Z.of_nat idx,
                             PList
                               (map (fun lut =>
                                       PInt (uint8 (nth (level_of (linspace idx)) lut
                                                      PrimFloat.zero)))
                                    luts)))
                         (seq 0 levels)))
          end
      end
  | _ => Raise AttributeError
  end.

(** ** The dependency *)

Inductive ColorMapType := explicit | linear_type.

(** The registered colormaps, by name. *)
Definition ColorMaps : Type := list (string * pyval).

(** [ColorMapName]: the enumeration of the names registered. *)
Definition ColorMapName (cmap : ColorMaps) : Type :=
  { name : string | In name (map fst cmap) }.

Definition value {cmap : ColorMaps} (name : ColorMapName cmap) : string :=
  proj1_sig name.

(** [cmap.get(name)]. *)
Definition get (cmap : ColorMaps) (name : string) : result pyval :=
  match Py.assoc name cmap with
  | Some cm => Ok cm
  | None => Raise InvalidColorMapName
  end.

(** The body of the [try]: the text is decoded, the hook being applied to
    every object, and a sequence is read as a list of intervals. *)
Definition decode (colormap : string) : result pyval :=
  match loads object_hook colormap with
  | Raise e => Raise e
  | Ok cm =>
      match sequence_items cm with
      | Some items =>
          match intervals items with
          | Raise e => Raise e
          | Ok l => Ok (PList l)
          end
      | None => Ok cm
      end
  end.

Definition unparsable : exn :=
  HTTPException 400 "Could not parse the colormap value.".

(** [ColorMapParams(colormap_name, colormap, colormap_type)]: an argument
    that is not given is [None]. *)
Definition ColorMapParams {cmap : ColorMaps}
  (colormap_name : option (ColorMapName cmap)) (colormap : option string)
  (colormap_type : ColorMapType) : result pyval :=
  match colormap_name with
  | Some name => get cmap (value name)
  | None =>
      match colormap with
      | None | Some EmptyString => Ok PNone
      | Some text =>
          match decode text with
          | Raise JSONDecodeError => Raise unparsable
          | Raise e => Raise e
          | Ok cm =>
              match colormap_type with
              | linear_type => linear cm
              | explicit => Ok cm
              end
          end
      end
  end.

(** ** What the dependency is expected to do *)

(** The components of a colour, as integers. *)
Definition ints (v : pyval) : list Z :=
  match v with
  | PList l | PTuple l => map (fun x => match x with PInt z => z | _ => 0 end) l
  | _ => []
  end.

(** The colours of a colormap, in the order of its keys. *)
Definition rows_of (cm : list (Z * pyval)) : list (list Z) :=
  map (fun m => ints (snd m)) cm.

Fixpoint nondecreasing (l : list Z) : bool :=
  match l with
  | a :: ((b :: _) as r) => (a <=? b) && nondecreasing r
  | _ => true
  end.

(** The errors of the conversions made by the hook: [int] on a key,
    [parse_color] on a value. *)
Definition conversion_error (e : exn) : Prop :=
  e = ValueError \/ e = TypeError \/ e = AttributeError \/ e = InvalidColorFormat.

(** A text that is not a JSON document. *)
Definition malformed (s : string) : Prop := loads plain s = Raise JSONDecodeError.

End Colormap.

(* ===================================================================== *)
(** * A catalogue to run the operations on *)
(* ===================================================================== *)

Module Fixture.
Import Py Items.

Definition collection : string := "noaa-emergency-response".

(** An item of the collection of the tests, as the catalogue holds it: an
    image of one square of the survey, taken on the day the identifiers of
    the tests name. *)
Definition feature (i : string) : value :=
  VDict
    [ ("type", VStr "Feature");
      ("stac_version", VStr "1.0.0");
      ("id", VStr i);
      ("collection", VStr collection);
      ("geometry",
       VDict [ ("type", VStr "Polygon");
               ("coordinates",
                VList [ VList [ VList [dec (-85535) 3; dec 36137 3];
                                VList [dec (-85465) 3; dec 36137 3];
                                VList [dec (-85465) 3; dec 36179 3];
                                VList [dec (-85535) 3; dec 36179 3];
                                VList [dec (-85535) 3; dec 36137 3] ] ]) ]);
      ("bbox", VList [dec (-85535) 3; dec 36137 3; dec (-85465) 3; dec 36179 3]);
      ("properties", VDict [ ("datetime", VStr "2020-03-07T00:00:00Z") ]);
      ("links", VList []);
      ("assets",
       VDict [ ("cog",
                VDict [ ("href", VStr ("https://noaa-eri-pds.s3.amazonaws.com/" ++ i ++ ".tif"));
                        ("type", VStr "image/tiff; application=geotiff") ]) ]) ].

(** A catalogue that holds every item asked for in the collection of the
    tests, and nothing else. *)
Definition catalogue (doc : value) : response :=
  match doc with
  | VDict kv =>
      match assoc "ids" kv, assoc "collections" kv with
      | Some (VList [VStr i]), Some (VList [VStr c]) =>
          Some {| features :=
                    Some (if String.eqb c collection then [feature i] else []);
                  members := [("type", VStr "FeatureCollection")] |}
      | _, _ => None
      end
  | _ => None
  end.



(** The reading of features that the samples are run with, in the manner
    of [pystac]: a value that is not a dictionary has no member to look
    at; a dictionary is an item when its [type] is [Feature] and it
    carries a [stac_version]; an item has the members [id], [geometry],
    [properties], [links] and [assets]. *)
Definition reads (feature : value) : option refusal :=
  match feature with
  | VDict kv =>
      match assoc "type" kv, assoc "stac_version" kv with
      | Some (VStr t), Some _ =>
          if String.eqb t "Feature" then
            if forallb (fun k => match assoc k kv with Some _ => true | None => false end)
                 ["id"; "geometry"; "properties"; "links"; "assets"]
            then None
            else Some (Refusal KeyError eq_refl)
          else Some (Refusal STACTypeError eq_refl)
      | _, _ => Some (Refusal STACTypeError eq_refl)
      end
  | _ => Some (Refusal AttributeError eq_refl)
  end.

Definition pystac : Pystac := {| refused := reads |}.

Definition dbpool : ConnectionPool :=
  {| conninfo := "postgresql://catalogue"; pgstac_search := catalogue |}.

(** A pool on a database that holds nothing. *)
Definition empty_pool : ConnectionPool :=
  {| conninfo := "postgresql://empty"; pgstac_search := fun _ => None |}.


Definition item_a : string := "20200307aC0853900w361030".
Definition item_b : string := "20200307aC0853300w361030".

(** The two searches registered by the tests. *)
Definition query_no_bbox : list (string * value) :=
  [ ("collections", VList [VStr "noaa-emergency-response"]);
    ("filter-lang", VStr "cql-json") ].

Definition query_bbox : list (string * value) :=
  [ ("collections", VList [VStr "noaa-emergency-response"]);
    ("bbox", VList [dec (-85535) 3; dec 36137 3; dec (-85465) 3; dec 36179 3]);
    ("filter-lang", VStr "cql-json") ].


(** A registration that names its mosaic. *)
Definition query_with_metadata : list (string * value) :=
  [ ("collections", VList [VStr "noaa-emergency-response"]);
    ("datetime", VNone);
    ("metadata",
     VModel (Model.construct Model.Metadata_fields
               [ ("type", VStr "mosaic"); ("name", VStr "mymosaic");
                 ("minzoom", int 1); ("maxzoom", int 2) ])) ].

(** The registry once the tests have registered their two searches. *)
Definition registry : gmap string Registry.RegisteredSearch :=
  let register store posted :=
    match Registry.register store (Model.RegisterMosaic posted) 0 with
    | Some (store', _) => store'
    | None => store
    end in
  register (register ∅ query_no_bbox) query_bbox.

Definition unknown_searchid : string := "aaaaaaaaaaaaaaaaaaaaaaaaaaaaaaaa".

(** A colormap with one closing brace too many. *)
Definition stray_brace : string :=
  JSON.dq "{'red': [255, 0, 0]}}".

(** The two stops of a grey ramp. *)
Definition two_stops : string :=
  JSON.dq "{'0': [0,0,0,255], '255': [255,255,255,255]}".

(** A registry with one colormap, and its name. *)
Definition registered : Colormap.ColorMaps :=
  [ ("greys",
     JSON.PMap [ (0, JSON.PTuple [JSON.PInt 0; JSON.PInt 0; JSON.PInt 0; JSON.PInt 255]);
                 (1, JSON.PTuple [JSON.PInt 255; JSON.PInt 255; JSON.PInt 255; JSON.PInt 255]) ]) ].

Definition greys : Colormap.ColorMapName registered :=
  exist _ "greys" (or_introl eq_refl).

End Fixture.

(* ===================================================================== *)
(** * Sequences of calls of [get_stac_item] *)
(* ===================================================================== *)

Module Clock.
Import Items.

(** The clock never runs back: from the reading [t] on, every call looks
    the cache up and stores its item at readings that follow one
    another. *)
Fixpoint in_order (t : Z) (calls : list call) : Prop :=
  match calls with
  | [] => True
  | cl :: r => t <= c_now cl /\ c_now cl <= c_later cl /\ in_order (c_later cl) r
  end.

(** The searches that a sequence of calls sends when none of them is
    answered by the cache. *)
Definition all_sent (calls : list call) : list (string * (string * string)) :=
  map (fun cl => (conninfo (c_pool cl), (c_collection cl, c_item cl))) calls.

Section Fetched.
Context {library : Pystac}.

(** Every link of the cache holds what one of the calls fetched for the
    key of the link. *)
Definition fetched_by (calls : list call) (c : TTL.TTLCache (string * string) Item)
  : Prop :=
  forall k v e, TTL.find k (TTL.links c) = Some (v, e) ->
    exists cl, In cl calls /\ call_key cl = k
               /\ fetch_stac_item (c_pool cl) (c_collection cl) (c_item cl) = Ok v.

End Fetched.

End Clock.

(* ===================================================================== *)
(** * The answers of [ColorMapParams] *)
(* ===================================================================== *)

Module Shape.
Import JSON Colormap.

Local Open Scope Z_scope.

(** A colour as the hook leaves it: a tuple of four components. *)
Definition colour (v : pyval) : Prop :=
  exists l, v = PTuple l /\ length l = 4%nat.

(** An interval with its colour. *)
Definition interval (v : pyval) : Prop :=
  exists bounds c, v = PTuple [PTuple bounds; c] /\ colour c.

(** A JSON value that is neither a string, an array nor an object. *)
Definition literal (v : pyval) : Prop :=
  match v with
  | PNone | PBool _ | PInt _ | PFloat _ => True
  | _ => False
  end.

(** What the dependency may answer for an explicit colormap: a dictionary
    with a colour under each of its keys, a list of intervals, or a
    literal. *)
Definition explicit_colormap (cm : pyval) : Prop :=
  match cm with
  | PMap kv => NoDup (map fst kv) /\ Forall (fun m => colour (snd m)) kv
  | PList l => Forall interval l
  | _ => literal cm
  end.

Definition byte (z : Z) : Prop := 0 <= z <= 255.

(** A component written as two hexadecimal digits and read back. *)
Definition requantize (x : float) : float :=
  true_divide (round_half_even (PrimFloat.mul x f255)) 255.

(** What a byte of a stop becomes at an end of its lookup table. *)
Definition end_level (z : Z) : Z :=
  uint8 (clip01 (requantize (true_divide z 255))).

(** The errors of the expansion of a linear colormap. *)
Definition expansion_error (e : exn) : Prop :=
  e = TypeError \/ e = ValueError \/ e = IndexError \/ e = AttributeError.

End Shape.

(* ===================================================================== *)
(** * Writing a cloud optimized GeoTIFF: [cog_utils.py] *)
(* ===================================================================== *)

Module Cog.

Local Open Scope Z_scope.
Local Open Scope list_scope.

(** A value of a raster profile. *)
Inductive setting :=
| SNone
| SBool (b : bool)
| SInt (z : Z)
| SFloat (x : float)
| SStr (s : string)
| SDtype (name : string).

(** A profile is a dictionary, in insertion order. *)
Definition Profile : Type := list (string * setting).

(** [rasterio.enums.Resampling]. *)
Module Resampling.
Inductive t :=
| nearest | bilinear | cubic | cubic_spline | lanczos | average | mode
| gauss | max | min | med | q1 | q3 | sum | rms.
End Resampling.

(** [profile.update(k1=v1, ...)]: the keys are set one after the other. *)
Definition update (profile : Profile) (kwargs : list (string * setting)) : Profile :=
  fold_left (fun d kv => JSON.dict_set String.eqb (fst kv) (snd kv) d) kwargs profile.

(** The keys that [render_cog] sets. *)
Definition updated : list string :=
  [ "driver"; "nodata"; "dtype"; "count"; "tiled"; "compress"; "BIGTIFF";
    "COPY_SRC_OVERVIEWS" ].

(** [bool(nodata)]: [None] and zero are false. *)
Definition truthy (nodata : option float) : bool :=
  match nodata with
  | None => false
  | Some x => negb (PrimFloat.eqb x PrimFloat.zero)
  end.

Definition nodata_setting (nodata : option float) : setting :=
  match nodata with
  | None => SNone
  | Some x => SFloat x
  end.

Section Raster.

(** The cells of an array are of any one type.  Two collaborators are
    taken as they are: the conversion of a fill value to a cell of a given
    type of data, refused with an error when the value does not fit, and
    the reading of the raster stored at a path. *)
Context {Cell : Type}.

(** The cells of an array, row after row; in a masked array each cell
    comes with its mask bit, set when the cell is masked. *)
Inductive contents :=
| Plain (cells : list Cell)
| Masked (cells : list (Cell * bool)).

Record ndarray := {
  shape : list Z;
  dtype : string;
  itemsize : Z;
  data : contents
}.

Variable fill_value : string -> float -> result Cell.
Variable read : string -> result ndarray.

(** [data.size]: the product of the dimensions. *)
Definition size (a : ndarray) : Z := fold_right Z.mul 1 (shape a).

(** What [is_bigtiff] is given: an array, or the path of a raster. *)
Inductive raster :=
| Array (a : ndarray)
| Path (path : string).

(** [is_bigtiff(data)]: whether the array takes more than four billion
    bytes uncompressed. *)
Definition is_bigtiff (d : raster) : result bool :=
  match match d return result ndarray with Array a => Ok a | Path p => read p end with
  | Raise e => Raise e
  | Ok a =>
      let data_size := size a * itemsize a in
      if 4000000000 <? data_size then Ok true else Ok false
  end.

(** [np.ma.is_masked(data)]: a masked array with a cell that is masked. *)
Definition is_masked (a : ndarray) : bool :=
  match data a with
  | Plain _ => false
  | Masked cells => existsb snd cells
  end.

(** [data.filled(x)]: a plain array in which every masked cell holds the
    fill value. *)
Definition filled (x : float) (a : ndarray) : result ndarray :=
  match data a with
  | Plain _ => Ok a
  | Masked cells =>
      match fill_value (dtype a) x with
      | Raise e => Raise e
      | Ok c =>
          Ok {| shape := shape a; dtype := dtype a; itemsize := itemsize a;
                data := Plain (map (fun cell : Cell * bool => if snd cell then c else fst cell)
                               cells) |}
      end
  end.

(** [np.expand_dims(data, 0)]. *)
Definition expand_dims (a : ndarray) : ndarray :=
  {| shape := 1 :: shape a; dtype := dtype a; itemsize := itemsize a; data := data a |}.

(** What is done to the file in memory, call after call. *)
Inductive action :=
| open_dataset (profile : Profile)
| write (a : ndarray)
| write_colormap (band : Z) (colormap : list (Z * list Z))
| build_overviews (levels : list Z) (resampling : Resampling.t).

(** [render_cog(data, profile, compression, overview_resampling,
    overview_levels, nodata, colormap, colormap_band)]: the calls made on
    the file in memory, whose bytes are what is returned, and the profile
    of the caller as the call leaves it.  The colormap, annotated as a
    string and documented as the dictionary that the raster library
    writes, is such a dictionary here; what the function looks at is
    whether it is empty.  The errors of the raster library are not
    modelled. *)
Definition render_cog (a : ndarray) (profile : Profile) (compression : string)
  (overview_resampling : Resampling.t) (overview_levels : list Z)
  (nodata : option float) (colormap : option (list (Z * list Z)))
  (colormap_band : Z) : result (list action) * Profile :=
  let fill :=
    match nodata with
    | Some x => if is_masked a && truthy nodata then filled x a else Ok a
    | None => Ok a
    end in
  match fill with
  | Raise e => (Raise e, profile)
  | Ok a =>
      let a := if (length (shape a) =? 2)%nat then expand_dims a else a in
      match is_bigtiff (Array a) with
      | Raise e => (Raise e, profile)
      | Ok big =>
          let bigtiff := if big then "YES" else "NO" in
          match shape a with
          | [] => (Raise IndexError, profile)
          | count :: _ =>
              let profile :=
                update profile
                  [ ("driver", SStr "COG");
                    ("nodata", nodata_setting nodata);
                    ("dtype", SDtype (dtype a));
                    ("count", SInt count);
                    ("tiled", SBool true);
                    ("compress", SStr compression);
                    ("BIGTIFF", SStr bigtiff);
                    ("COPY_SRC_OVERVIEWS", SStr "YES") ] in
              (Ok ([open_dataset profile; write a]
                   ++ match colormap with
                      | Some ((_ :: _) as cm) => [write_colormap colormap_band cm]
                      | _ => []
                      end
                   ++ [build_overviews overview_levels overview_resampling]),
               profile)
          end
      end
  end.

End Raster.

Arguments ndarray Cell : clear implicits.
Arguments contents Cell : clear implicits.
Arguments raster Cell : clear implicits.
Arguments action Cell : clear implicits.

(** The defaults of [render_cog]. *)
Definition default_compression : string := "lzw".
Definition default_overview_resampling : Resampling.t := Resampling.nearest.
Definition default_overview_levels : list Z := [2; 4; 8; 16; 32].
Definition default_colormap_band : Z := 1.

End Cog.


(* ===================================================================== *)
(** * Calls, colormaps and a raster to run the functions on *)
(* ===================================================================== *)

Module Sample.
Import Items.

(** Two calls for one item of the catalogue, one after the other. *)
Definition first_call : call :=
  {| c_now := 0; c_later := 1; c_pool := Fixture.dbpool;
     c_collection := Fixture.collection; c_item := Fixture.item_a |}.

Definition second_call : call :=
  {| c_now := 2; c_later := 3; c_pool := Fixture.dbpool;
     c_collection := Fixture.collection; c_item := Fixture.item_a |}.

(** A registration request, and the same request without the fields
    that are [None]. *)
Definition body : list Model.field :=
  Model.RegisterMosaic Fixture.query_with_metadata.

Definition body_without_none : list Model.field :=
  List.filter (fun f => negb (Py.is_none (Model.fvalue f))) body.

(** Three stops, the colours of which are written in three ways. *)
Definition three_stops : string :=
  JSON.dq "{'0': '#0a141e', '128': [1, 2, 3], '255': [250, 251, 252, 253]}".

Definition three_stops_decoded : list (Z * JSON.pyval) :=
  [ (0, JSON.PTuple [JSON.PInt 10; JSON.PInt 20; JSON.PInt 30; JSON.PInt 255]);
    (128, JSON.PTuple [JSON.PInt 1; JSON.PInt 2; JSON.PInt 3; JSON.PInt 255]);
    (255, JSON.PTuple [JSON.PInt 250; JSON.PInt 251; JSON.PInt 252; JSON.PInt 253]) ].

(** Cells of one byte: a fill value fits when its integer part is a
    byte. *)
Definition fill_value (dtype : string) (x : float) : result Z :=
  let z := JSON.trunc x in
  if (0 <=? z) && (z <=? 255) then Ok z else Raise TypeError.

(** A band of two rows and two columns, two cells of which are masked. *)
Definition band : Cog.ndarray Z :=
  {| Cog.shape := [2; 2]; Cog.dtype := "uint8"; Cog.itemsize := 1;
     Cog.data := Cog.Masked [(1, false); (2, true); (3, false); (4, true)] |}.

(** Every path holds that band. *)
Definition read (path : string) : result (Cog.ndarray Z) := Ok band.

Definition profile : Cog.Profile :=
  [ ("nodata", Cog.SFloat (JSON.float_of_int 9)); ("crs", Cog.SStr "EPSG:4326");
    ("width", Cog.SInt 2); ("height", Cog.SInt 2) ].

(** The band rendered with the defaults and the [nodata] given, and the
    calls that the rendering makes. *)
Definition rendered (nodata : option float)
  : result (list (Cog.action Z)) * Cog.Profile :=
  Cog.render_cog fill_value read band profile Cog.default_compression
    Cog.default_overview_resampling Cog.default_overview_levels
    nodata None Cog.default_colormap_band.

Definition calls (nodata : option float) : list (Cog.action Z) :=
  match fst (rendered nodata) with
  | Ok c => c
  | Raise _ => []
  end.

End Sample.

(* THEOREMS *)

Local Open Scope list_scope.

Example md5_empty : MD5.md5 EmptyString = "d41d8cd98f00b204e9800998ecf8427e".
Proof. vm_compute. reflexivity. Qed.

Example md5_abc : MD5.md5 "abc" = "900150983cd24fb0d6963f7d28e17f72".
Proof. vm_compute. reflexivity. Qed.

Example md5_long :
  MD5.md5 "12345678901234567890123456789012345678901234567890123456789012345678901234567890"
  = "57edf4a22be3c955ac49da2e2107b67a".
Proof. vm_compute. reflexivity. Qed.

Example number_text_ex :
  map Jsonb.number_text [Py.Num (-85535) 3; Py.Num 5 2; Py.Num 0 0; Py.Num 36137 3; Py.Num 100 0; Py.Num (-7) 0]
  = ["-85.535"; "0.05"; "0"; "36.137"; "100"; "-7"].
Proof. vm_compute. reflexivity. Qed.

(* ===================================================================== *)
(** * Facts about the cache *)
(* ===================================================================== *)

Section CacheFacts.
Context {K : Type} `{EqDecision K} {V : Type}.
Implicit Types (c : TTL.TTLCache K V) (k : K) (l : list (K * (V * Z))).

Lemma find_remove_eq k l : TTL.find k (TTL.remove k l) = None.
Proof.
  induction l as [|[k' x] r IH]; simpl; [reflexivity|].
  case_bool_decide; simpl; [exact IH|].
  destruct (decide (k' = k)); [contradiction | exact IH].
Qed.

Lemma find_remove_ne k k' l :
  k <> k' -> TTL.find k (TTL.remove k' l) = TTL.find k l.
Proof.
  intros Hne. induction l as [|[k2 x] r IH]; simpl; [reflexivity|].
  case_bool_decide; simpl.
  - subst k2. destruct (decide (k' = k)); [congruence | exact IH].
  - destruct (decide (k2 = k)); [reflexivity | exact IH].
Qed.

Lemma find_app k l1 l2 :
  TTL.find k (l1 ++ l2) =
  match TTL.find k l1 with Some x => Some x | None => TTL.find k l2 end.
Proof.
  induction l1 as [|[k' x] r IH]; simpl; [reflexivity|].
  destruct (decide (k' = k)); [reflexivity | exact IH].
Qed.

Lemma find_Some_elem k x l : TTL.find k l = Some x -> k ∈ map fst l.
Proof.
  induction l as [|[k' y] r IH]; simpl; [discriminate|].
  destruct (decide (k' = k)) as [->|]; intros Hf.
  - apply list_elem_of_here.
  - apply list_elem_of_further, IH, Hf.
Qed.

Lemma find_None_not_elem k l : TTL.find k l = None -> k ∉ map fst l.
Proof.
  induction l as [|[k' y] r IH]; simpl; intros Hf Hin.
  - inversion Hin.
  - destruct (decide (k' = k)); [discriminate|].
    inversion Hin; subst; [congruence | exact (IH Hf ltac:(assumption))].
Qed.

Lemma remove_keys k l :
  map fst (TTL.remove k l) = List.filter (fun k' => negb (bool_decide (k' = k))) (map fst l).
Proof.
  induction l as [|[k' x] r IH]; simpl; [reflexivity|].
  case_bool_decide; simpl; rewrite IH; reflexivity.
Qed.

Lemma elem_remove k k' l : k ∈ map fst (TTL.remove k' l) -> k ∈ map fst l /\ k <> k'.
Proof.
  rewrite remove_keys. rewrite !list_elem_of_In, filter_In.
  intros [Hin Hb]. split; [exact Hin|].
  apply negb_true_iff in Hb. apply bool_decide_eq_false in Hb. exact Hb.
Qed.

Lemma NoDup_remove k l : NoDup (map fst l) -> NoDup (map fst (TTL.remove k l)).
Proof.
  intros Hnd. rewrite remove_keys. apply NoDup_ListNoDup.
  apply List.NoDup_filter. apply NoDup_ListNoDup. exact Hnd.
Qed.

Lemma length_remove k l : (length (TTL.remove k l) <= length l)%nat.
Proof. apply List.filter_length_le. Qed.

Lemma remove_absent k l : TTL.find k l = None -> TTL.remove k l = l.
Proof.
  induction l as [|[k' x] r IH]; simpl; [reflexivity|].
  destruct (decide (k' = k)); [discriminate|]. intros Hf.
  rewrite bool_decide_eq_false_2 by assumption. simpl. rewrite IH; auto.
Qed.

Lemma length_remove_present k x l :
  NoDup (map fst l) -> TTL.find k l = Some x ->
  S (length (TTL.remove k l)) = length l.
Proof.
  induction l as [|[k' y] r IH]; simpl; [discriminate|].
  intros Hnd Hf. apply NoDup_cons in Hnd as [Hni Hnd].
  destruct (decide (k' = k)) as [->|Hne].
  - rewrite bool_decide_eq_true_2 by reflexivity. simpl.
    rewrite remove_absent; [reflexivity|].
    destruct (TTL.find k r) eqn:E; [|reflexivity].
    exfalso. apply Hni. eapply find_Some_elem, E.
  - rewrite bool_decide_eq_false_2 by assumption. simpl.
    f_equal. apply IH; assumption.
Qed.


Lemma find_move_to_end k k' l :
  NoDup (map fst l) -> TTL.find k (TTL.move_to_end k' l) = TTL.find k l.
Proof.
  intros Hnd. unfold TTL.move_to_end.
  destruct (TTL.find k' l) as [x|] eqn:E; [|reflexivity].
  rewrite find_app. destruct (decide (k = k')) as [->|Hne].
  - rewrite find_remove_eq. simpl. rewrite decide_True by reflexivity. congruence.
  - rewrite find_remove_ne by assumption.
    destruct (TTL.find k l); [reflexivity|].
    simpl. rewrite decide_False by congruence. reflexivity.
Qed.

Lemma NoDup_snoc k x l :
  NoDup (map fst l) -> TTL.find k l = None -> NoDup (map fst (l ++ [(k, x)])).
Proof.
  intros Hnd Hf. rewrite map_app. simpl. apply NoDup_app. split; [exact Hnd|].
  split.
  - intros y Hy Hy'. apply list_elem_of_singleton in Hy'. subst y.
    eapply find_None_not_elem; eassumption.
  - apply NoDup_singleton.
Qed.

Lemma NoDup_move_to_end k l :
  NoDup (map fst l) -> NoDup (map fst (TTL.move_to_end k l)).
Proof.
  intros Hnd. unfold TTL.move_to_end.
  destruct (TTL.find k l) as [x|] eqn:E; [|exact Hnd].
  apply NoDup_snoc; [apply NoDup_remove, Hnd | apply find_remove_eq].
Qed.

Lemma length_move_to_end k l :
  NoDup (map fst l) -> length (TTL.move_to_end k l) = length l.
Proof.
  intros Hnd. unfold TTL.move_to_end.
  destruct (TTL.find k l) as [x|] eqn:E; [|reflexivity].
  rewrite length_app. simpl. rewrite Nat.add_1_r.
  eapply length_remove_present; eassumption.
Qed.

(** ** [newer] under the operations on the links *)

Lemma newer_remove_ne k k' l :
  k <> k' -> TTL.newer k (TTL.remove k' l) ⊆ TTL.newer k l.
Proof.
  intros Hne. induction l as [|[k2 x] r IH]; simpl; [reflexivity|].
  case_bool_decide as Hb; simpl.
  - subst k2. rewrite decide_False by congruence. exact IH.
  - destruct (decide (k2 = k)); [|exact IH].
    intros y Hy. apply elem_remove in Hy. tauto.
Qed.

Lemma newer_absent k l : TTL.find k l = None -> TTL.newer k l = [].
Proof.
  induction l as [|[k2 x] r IH]; simpl; [reflexivity|].
  destruct (decide (k2 = k)); [discriminate | exact IH].
Qed.

Lemma newer_app_present k x l l2 :
  TTL.find k l = Some x -> TTL.newer k (l ++ l2) = TTL.newer k l ++ map fst l2.
Proof.
  induction l as [|[k2 y] r IH]; simpl; [discriminate|].
  destruct (decide (k2 = k)); [intros _; apply map_app | exact IH].
Qed.

Lemma newer_app_absent k l l2 :
  TTL.find k l = None -> TTL.newer k (l ++ l2) = TTL.newer k l2.
Proof.
  induction l as [|[k2 y] r IH]; simpl; [reflexivity|].
  destruct (decide (k2 = k)); [discriminate | exact IH].
Qed.

Lemma newer_move_same k l : TTL.newer k (TTL.move_to_end k l) = [] \/ TTL.find k l = None.
Proof.
  unfold TTL.move_to_end. destruct (TTL.find k l) as [x|] eqn:E; [left | right; reflexivity].
  rewrite newer_app_absent by apply find_remove_eq.
  simpl. rewrite decide_True by reflexivity. reflexivity.
Qed.

Lemma newer_move_other k k' x l :
  k <> k' -> TTL.find k l = Some x ->
  TTL.newer k (TTL.move_to_end k' l) ⊆ k' :: TTL.newer k l.
Proof.
  intros Hne Hk. unfold TTL.move_to_end.
  destruct (TTL.find k' l) as [y|] eqn:E.
  - rewrite (newer_app_present k x) by (rewrite find_remove_ne; assumption).
    simpl. intros z Hz. apply elem_of_app in Hz as [Hz|Hz].
    + apply list_elem_of_further. eapply newer_remove_ne; eassumption.
    + apply list_elem_of_singleton in Hz. subst z. apply list_elem_of_here.
  - intros z Hz. apply list_elem_of_further, Hz.
Qed.

Lemma newer_subseteq_keys k l : TTL.newer k l ⊆ map fst l.
Proof.
  induction l as [|[k2 x] r IH]; simpl; [reflexivity|].
  destruct (decide (k2 = k)); intros y Hy; apply list_elem_of_further; auto.
Qed.

(** When [k] heads the links, every other link is newer. *)
Lemma newer_head k (x : V * Z) (r : list (K * (V * Z))) :
  TTL.newer k ((k, x) :: r) = map fst r.
Proof. simpl. rewrite decide_True by reflexivity. reflexivity. Qed.

Lemma newer_remove k k' l : TTL.newer k (TTL.remove k' l) ⊆ TTL.newer k l.
Proof.
  destruct (decide (k = k')) as [->|Hne].
  - rewrite newer_absent by apply find_remove_eq. apply list_subseteq_nil.
  - apply newer_remove_ne, Hne.
Qed.

Lemma find_remove_Some k k' (x : V * Z) l :
  TTL.find k (TTL.remove k' l) = Some x -> TTL.find k l = Some x.
Proof.
  destruct (decide (k = k')) as [->|Hne].
  - rewrite find_remove_eq. discriminate.
  - rewrite find_remove_ne by assumption. auto.
Qed.

(** ** [expire] *)

(** What [expire] leaves is what it found, less some links that had all
    expired. *)
Lemma expire_ring_spec time r : forall l l' r',
  TTL.expire_ring time l r = (l', r') ->
  (NoDup (map fst l) -> NoDup (map fst l'))
  /\ (length l' <= length l)%nat
  /\ (forall k v e, TTL.find k l = Some (v, e) -> time < e -> TTL.find k l' = Some (v, e))
  /\ (forall k x, TTL.find k l' = Some x -> TTL.find k l = Some x)
  /\ (forall k, TTL.newer k l' ⊆ TTL.newer k l).
Proof.
  induction r as [|k0 r IH]; simpl; intros l l' r' Heq.
  - inversion Heq; subst. repeat split; auto. 
  - destruct (TTL.find k0 l) as [[v0 e0]|] eqn:E0.
    + destruct (time <? e0) eqn:Hlt.
      * inversion Heq; subst. repeat split; auto.
      * apply IH in Heq as (Hnd & Hlen & Hkeep & Hsub & Hnew).
        apply Z.ltb_ge in Hlt.
        split; [intros; apply Hnd, NoDup_remove; assumption|].
        split; [pose proof (length_remove k0 l); lia|].
        split; [|split].
        -- intros k v e Hk Hlive. apply Hkeep; [|assumption].
           rewrite find_remove_ne; [assumption|].
           intros ->. rewrite E0 in Hk. inversion Hk; subst. lia.
        -- intros k x Hk. eapply find_remove_Some, Hsub, Hk.
        -- intros k. etransitivity; [apply Hnew | apply newer_remove].
    + apply IH in Heq. exact Heq.
Qed.

Lemma expire_ring_idem time r : forall l l' r',
  TTL.expire_ring time l r = (l', r') -> TTL.expire_ring time l' r' = (l', r').
Proof.
  induction r as [|k0 r IH]; simpl; intros l l' r' Heq.
  - inversion Heq; subst. reflexivity.
  - destruct (TTL.find k0 l) as [[v0 e0]|] eqn:E0.
    + destruct (time <? e0) eqn:Hlt.
      * inversion Heq; subst. simpl. rewrite E0, Hlt. reflexivity.
      * eapply IH, Heq.
    + eapply IH, Heq.
Qed.

Lemma expire_idem time c : TTL.expire time (TTL.expire time c) = TTL.expire time c.
Proof.
  unfold TTL.expire.
  destruct (TTL.expire_ring time (TTL.links c) (TTL.ring c)) as [l' r'] eqn:E.
  simpl. rewrite (expire_ring_idem _ _ _ _ _ E). reflexivity.
Qed.

Lemma expire_maxsize time c : TTL.maxsize (TTL.expire time c) = TTL.maxsize c.
Proof.
  unfold TTL.expire.
  destruct (TTL.expire_ring time (TTL.links c) (TTL.ring c)); reflexivity.
Qed.

Lemma expire_ttl time c : TTL.ttl (TTL.expire time c) = TTL.ttl c.
Proof.
  unfold TTL.expire.
  destruct (TTL.expire_ring time (TTL.links c) (TTL.ring c)); reflexivity.
Qed.

Lemma expire_links time c :
  (NoDup (map fst (TTL.links c)) -> NoDup (map fst (TTL.links (TTL.expire time c))))
  /\ (length (TTL.links (TTL.expire time c)) <= length (TTL.links c))%nat
  /\ (forall k v e, TTL.find k (TTL.links c) = Some (v, e) -> time < e ->
        TTL.find k (TTL.links (TTL.expire time c)) = Some (v, e))
  /\ (forall k x, TTL.find k (TTL.links (TTL.expire time c)) = Some x ->
        TTL.find k (TTL.links c) = Some x)
  /\ (forall k, TTL.newer k (TTL.links (TTL.expire time c)) ⊆ TTL.newer k (TTL.links c)).
Proof.
  unfold TTL.expire.
  destruct (TTL.expire_ring time (TTL.links c) (TTL.ring c)) as [l' r'] eqn:E.
  simpl. eapply expire_ring_spec, E.
Qed.

Lemma wf_expire time c : TTL.wf c -> TTL.wf (TTL.expire time c).
Proof.
  intros [Hnd Hlen]. destruct (expire_links time c) as (Hnd' & Hlen' & _).
  split; [auto|]. rewrite expire_maxsize. lia.
Qed.

(** ** Making room *)

Lemma evict_eq fuel time c :
  TTL.evict fuel time c =
  if TTL.maxsize c <? Z.of_nat (length (TTL.links c)) + 1 then
    match fuel with
    | O => None
    | S fuel' =>
        match TTL.popitem time c with
        | None => None
        | Some c' => TTL.evict fuel' time c'
        end
    end
  else Some c.
Proof. destruct fuel; reflexivity. Qed.

(** In a cache that has just been purged of its expired links, room for
    one more link is made by removing at most one link, the least recently
    used one, and only when the cache is full. *)
Lemma evict_spec time c :
  TTL.wf c -> 1 <= TTL.maxsize c -> TTL.expire time c = c ->
  exists c2,
    TTL.evict (length (TTL.links c)) time c = Some c2
    /\ TTL.maxsize c2 = TTL.maxsize c /\ TTL.ttl c2 = TTL.ttl c
    /\ Z.of_nat (length (TTL.links c2)) + 1 <= TTL.maxsize c
    /\ NoDup (map fst (TTL.links c2))
    /\ (TTL.links c2 = TTL.links c
        \/ exists k0 x r,
             TTL.links c = (k0, x) :: r
             /\ Z.of_nat (length (TTL.links c)) = TTL.maxsize c
             /\ TTL.links c2 = TTL.remove k0 (TTL.links c)).
Proof.
  intros [Hnd Hlen] Hmax Hidem. rewrite evict_eq.
  destruct (TTL.maxsize c <? Z.of_nat (length (TTL.links c)) + 1) eqn:Hfull.
  - apply Z.ltb_lt in Hfull.
    destruct (TTL.links c) as [|[k0 x] r] eqn:El; simpl in *; [lia|].
    unfold TTL.popitem. rewrite Hidem, El.
    rewrite evict_eq. simpl.
    assert (Hr : length (TTL.remove k0 ((k0, x) :: r)) = length r).
    { apply Nat.succ_inj.
      apply (length_remove_present k0 x ((k0, x) :: r)).
      - rewrite <- El in *. simpl. rewrite El. exact Hnd.
      - simpl. rewrite decide_True by reflexivity. reflexivity. }
    rewrite El, Hr.
    destruct (TTL.maxsize c <? Z.of_nat (length r) + 1) eqn:Hfull2.
    { apply Z.ltb_lt in Hfull2. lia. }
    apply Z.ltb_ge in Hfull2.
    eexists. split; [reflexivity|]. simpl. rewrite El, Hr.
    repeat split; try lia.
    + apply (NoDup_remove k0 ((k0, x) :: r)). exact Hnd.
    + right. exists k0, x, r. repeat split. lia.
  - apply Z.ltb_ge in Hfull. exists c. repeat split; auto; lia.
Qed.

(** ** [setitem] *)

(** With room for at least one value, [setitem] stores: the cache is
    purged, at most the least recently used link is evicted, and the new
    link is the last one. *)
Lemma setitem_spec time k (v : V) c :
  TTL.wf c -> 1 <= TTL.maxsize c ->
  exists c2,
    TTL.setitem time k v c
    = TTL.Stored (TTL.with_links c2
                    (TTL.remove k (TTL.links c2) ++ [(k, (v, time + TTL.ttl c))])
                    (TTL.unlink k (TTL.ring c2) ++ [k]))
    /\ TTL.maxsize c2 = TTL.maxsize c /\ TTL.ttl c2 = TTL.ttl c
    /\ NoDup (map fst (TTL.links c2))
    /\ (match TTL.find k (TTL.links c2) with
        | Some _ => Z.of_nat (length (TTL.links c2)) <= TTL.maxsize c
        | None => Z.of_nat (length (TTL.links c2)) + 1 <= TTL.maxsize c
        end)
    /\ (TTL.links c2 = TTL.links (TTL.expire time c)
        \/ TTL.find k (TTL.links (TTL.expire time c)) = None
           /\ exists k0 x r,
                TTL.links (TTL.expire time c) = (k0, x) :: r
                /\ Z.of_nat (length (TTL.links (TTL.expire time c))) = TTL.maxsize c
                /\ TTL.links c2 = TTL.remove k0 (TTL.links (TTL.expire time c))).
Proof.
  intros Hwf Hmax. unfold TTL.setitem.
  pose proof (wf_expire time c Hwf) as Hwf1.
  pose proof (expire_maxsize time c) as Hm1.
  pose proof (expire_ttl time c) as Ht1.
  set (c1 := TTL.expire time c) in *.
  destruct (TTL.maxsize c1 <? 1) eqn:Hsmall; [apply Z.ltb_lt in Hsmall; lia|].
  destruct (TTL.find k (TTL.links c1)) as [x|] eqn:Ek.
  - exists c1. rewrite Ht1. split; [reflexivity|].
    destruct Hwf1 as [Hnd Hlen]. rewrite Ek.
    repeat split; auto; lia.
  - destruct (evict_spec time c1 Hwf1 ltac:(lia) (expire_idem time c))
      as (c2 & Hev & Hm2 & Ht2 & Hlen2 & Hnd2 & Hshape).
    rewrite Hev. exists c2. rewrite Ht2, Ht1. split; [reflexivity|].
    split; [congruence|]. split; [congruence|]. split; [exact Hnd2|]. split.
    + destruct (TTL.find k (TTL.links c2)); lia.
    + destruct Hshape as [Heq | (k0 & x & r & H1 & H2 & H3)]; [left; exact Heq|].
      right. split; [reflexivity|]. exists k0, x, r. repeat split; auto. lia.
Qed.

Lemma setitem_small time k (v : V) c :
  TTL.maxsize c < 1 -> TTL.setitem time k v c = TTL.TooLarge (TTL.expire time c).
Proof.
  intros Hsmall. unfold TTL.setitem. rewrite expire_maxsize.
  apply Z.ltb_lt in Hsmall. rewrite Hsmall. reflexivity.
Qed.

Lemma wf_snoc k (x : V * Z) c2 r m :
  NoDup (map fst (TTL.links c2)) ->
  match TTL.find k (TTL.links c2) with
  | Some _ => Z.of_nat (length (TTL.links c2)) <= m
  | None => Z.of_nat (length (TTL.links c2)) + 1 <= m
  end ->
  TTL.maxsize c2 = m ->
  TTL.wf (TTL.with_links c2 (TTL.remove k (TTL.links c2) ++ [(k, x)]) r).
Proof.
  intros Hnd Hlen Hm. split; simpl.
  - apply NoDup_snoc; [apply NoDup_remove, Hnd | apply find_remove_eq].
  - rewrite length_app. simpl. rewrite Hm.
    destruct (TTL.find k (TTL.links c2)) as [y|] eqn:E.
    + pose proof (length_remove_present k y _ Hnd E). lia.
    + rewrite remove_absent by assumption. lia.
Qed.

Lemma wf_setitem time k (v : V) c :
  TTL.wf c ->
  match TTL.setitem time k v c with
  | TTL.Stored c' => TTL.wf c' /\ TTL.maxsize c' = TTL.maxsize c /\ TTL.ttl c' = TTL.ttl c
  | TTL.TooLarge c' => TTL.wf c' /\ TTL.maxsize c' = TTL.maxsize c /\ TTL.ttl c' = TTL.ttl c
  | TTL.Emptied => False
  end.
Proof.
  intros Hwf. destruct (Z_lt_le_dec (TTL.maxsize c) 1) as [Hs|Hs].
  - rewrite setitem_small by assumption.
    split; [apply wf_expire, Hwf|]. split; [apply expire_maxsize | apply expire_ttl].
  - destruct (setitem_spec time k v c Hwf Hs) as (c2 & -> & Hm & Ht & Hnd & Hlen & _).
    split; [eapply wf_snoc; eassumption|]. simpl. split; assumption.
Qed.

(** ** [getitem] *)

Lemma getitem_absent now k c :
  TTL.find k (TTL.links c) = None -> TTL.getitem now k c = (None, c).
Proof. intros E. unfold TTL.getitem. rewrite E. reflexivity. Qed.

Lemma getitem_live now k v e c :
  TTL.find k (TTL.links c) = Some (v, e) -> now < e ->
  TTL.getitem now k c
  = (Some v, TTL.with_links c (TTL.move_to_end k (TTL.links c)) (TTL.ring c)).
Proof.
  intros E Hlt. unfold TTL.getitem. rewrite E.
  apply Z.ltb_lt in Hlt. rewrite Hlt. reflexivity.
Qed.

Lemma getitem_expired now k v e c :
  TTL.find k (TTL.links c) = Some (v, e) -> e <= now ->
  TTL.getitem now k c
  = (None, TTL.with_links c (TTL.move_to_end k (TTL.links c)) (TTL.ring c)).
Proof.
  intros E Hlt. unfold TTL.getitem. rewrite E.
  apply Z.ltb_ge in Hlt. rewrite Hlt. reflexivity.
Qed.

(** Looking a key up moves its link, and changes nothing else. *)
Lemma getitem_cache now k c :
  snd (TTL.getitem now k c) = c
  \/ snd (TTL.getitem now k c)
     = TTL.with_links c (TTL.move_to_end k (TTL.links c)) (TTL.ring c).
Proof.
  unfold TTL.getitem. destruct (TTL.find k (TTL.links c)) as [[v e]|]; [|left; reflexivity].
  right. destruct (now <? e); reflexivity.
Qed.

Lemma wf_move k c :
  TTL.wf c -> TTL.wf (TTL.with_links c (TTL.move_to_end k (TTL.links c)) (TTL.ring c)).
Proof.
  intros [Hnd Hlen]. split; simpl.
  - apply NoDup_move_to_end, Hnd.
  - rewrite length_move_to_end by assumption. exact Hlen.
Qed.

Lemma wf_getitem now k c :
  TTL.wf c ->
  TTL.wf (snd (TTL.getitem now k c))
  /\ TTL.maxsize (snd (TTL.getitem now k c)) = TTL.maxsize c
  /\ TTL.ttl (snd (TTL.getitem now k c)) = TTL.ttl c.
Proof.
  intros Hwf. destruct (getitem_cache now k c) as [-> | ->]; [auto|].
  split; [apply wf_move, Hwf | split; reflexivity].
Qed.

(** ** The link of one key while other keys are used *)

Lemma keeps_move_same k v e seen c :
  TTL.keeps k v e seen c ->
  TTL.keeps k v e seen (TTL.with_links c (TTL.move_to_end k (TTL.links c)) (TTL.ring c)).
Proof.
  intros (Hwf & Hk & Hnew). split; [apply wf_move, Hwf|]. simpl. split.
  - rewrite find_move_to_end; [exact Hk | apply Hwf].
  - destruct (newer_move_same k (TTL.links c)) as [-> | E]; [apply list_subseteq_nil|].
    congruence.
Qed.

Lemma keeps_move_other k k' v e seen c :
  k <> k' -> k' ∈ seen -> TTL.keeps k v e seen c ->
  TTL.keeps k v e seen (TTL.with_links c (TTL.move_to_end k' (TTL.links c)) (TTL.ring c)).
Proof.
  intros Hne Hseen (Hwf & Hk & Hnew). split; [apply wf_move, Hwf|]. simpl. split.
  - rewrite find_move_to_end; [exact Hk | apply Hwf].
  - intros y Hy. eapply newer_move_other in Hy; [|eassumption..].
    inversion Hy; subst; [exact Hseen | apply Hnew; assumption].
Qed.

Lemma keeps_getitem_other now k k' v e seen c :
  k <> k' -> k' ∈ seen -> TTL.keeps k v e seen c ->
  TTL.keeps k v e seen (snd (TTL.getitem now k' c)).
Proof.
  intros Hne Hseen Hk. destruct (getitem_cache now k' c) as [-> | ->]; [exact Hk|].
  apply keeps_move_other; assumption.
Qed.

Lemma keeps_expire time k v e seen c :
  time < e -> TTL.keeps k v e seen c -> TTL.keeps k v e seen (TTL.expire time c).
Proof.
  intros Hlt (Hwf & Hk & Hnew).
  destruct (expire_links time c) as (_ & _ & Hkeep & _ & Hsub).
  split; [apply wf_expire, Hwf|]. split; [apply Hkeep; assumption|].
  etransitivity; [apply Hsub | exact Hnew].
Qed.

(** The least recently used link is not the one of [k] when the cache is
    full and fewer keys than it can hold were used since [k] was. *)
Lemma full_head_not_kept k k' v e seen c (x : V * Z) k0 r :
  TTL.keeps k v e seen c ->
  TTL.links c = (k0, x) :: r ->
  Z.of_nat (length (TTL.links c)) = TTL.maxsize c ->
  TTL.find k' (TTL.links c) = None -> k' ∈ seen ->
  Z.of_nat (length (remove_dups seen)) < TTL.maxsize c ->
  k0 <> k.
Proof.
  intros (Hwf & Hk & Hnew) El Hfull Hk' Hseen Hbound ->.
  destruct Hwf as [Hnd _]. rewrite El in *. simpl in *.
  rewrite decide_True in Hnew by reflexivity.
  apply NoDup_cons in Hnd as [_ Hnd].
  assert (Hnd' : NoDup (k' :: map fst r)).
  { apply NoDup_cons. split; [|exact Hnd].
    intros Hin. apply (find_None_not_elem k' ((k, x) :: r)).
    - exact Hk'.
    - simpl. apply list_elem_of_further, Hin. }
  assert (Hle : (length (k' :: map fst r) <= length (remove_dups seen))%nat).
  { apply submseteq_length, NoDup_submseteq; [exact Hnd'|].
    intros y Hy. apply elem_of_remove_dups.
    inversion Hy; subst; [exact Hseen | apply Hnew; assumption]. }
  simpl in Hle. rewrite length_map in Hle. lia.
Qed.

Lemma keeps_setitem_other time k k' v v' e seen c :
  k <> k' -> k' ∈ seen -> time < e ->
  Z.of_nat (length (remove_dups seen)) < TTL.maxsize c ->
  TTL.keeps k v e seen c ->
  exists c', TTL.setitem time k' v' c = TTL.Stored c'
             /\ TTL.maxsize c' = TTL.maxsize c /\ TTL.keeps k v e seen c'.
Proof.
  intros Hne Hseen Hlt Hbound Hkeeps.
  assert (Hmax : 1 <= TTL.maxsize c) by lia.
  destruct (setitem_spec time k' v' c (proj1 Hkeeps) Hmax)
    as (c2 & -> & Hm & Ht & Hnd & Hlen & Hshape).
  eexists. split; [reflexivity|]. split; [exact Hm|].
  pose proof (keeps_expire time k v e seen c Hlt Hkeeps) as Hk1.
  assert (Hk2 : TTL.find k (TTL.links c2) = Some (v, e)
                /\ TTL.newer k (TTL.links c2) ⊆ seen).
  { destruct Hshape as [-> | (Habs & k0 & x & r & El & Hfull & ->)].
    - split; apply Hk1.
    - assert (k0 <> k).
      { eapply full_head_not_kept; try eassumption.
        all: rewrite expire_maxsize; assumption. }
      split.
      + rewrite find_remove_ne by congruence. apply Hk1.
      + etransitivity; [apply newer_remove | apply Hk1]. }
  destruct Hk2 as [Hk2 Hnew2].
  split; [eapply wf_snoc; eassumption|]. simpl. split.
  - rewrite find_app, find_remove_ne by assumption. rewrite Hk2. reflexivity.
  - rewrite (newer_app_present k (v, e)) by (rewrite find_remove_ne; assumption).
    simpl. intros y Hy. apply elem_of_app in Hy as [Hy|Hy].
    + apply Hnew2. eapply newer_remove, Hy.
    + apply list_elem_of_singleton in Hy. subst y. exact Hseen.
Qed.

(** A key that has just been looked up or stored is the most recently
    used. *)
Lemma keeps_moved k v e c :
  TTL.wf c -> TTL.find k (TTL.links c) = Some (v, e) ->
  TTL.keeps k v e [] (TTL.with_links c (TTL.move_to_end k (TTL.links c)) (TTL.ring c)).
Proof.
  intros Hwf Hk. split; [apply wf_move, Hwf|]. simpl. split.
  - rewrite find_move_to_end; [exact Hk | apply Hwf].
  - destruct (newer_move_same k (TTL.links c)) as [-> | E]; [reflexivity | congruence].
Qed.

Lemma keeps_stored time k v c :
  TTL.wf c -> 1 <= TTL.maxsize c ->
  exists c', TTL.setitem time k v c = TTL.Stored c'
             /\ TTL.keeps k v (time + TTL.ttl c) [] c'.
Proof.
  intros Hwf Hmax.
  destruct (setitem_spec time k v c Hwf Hmax) as (c2 & -> & Hm & Ht & Hnd & Hlen & _).
  eexists. split; [reflexivity|].
  split; [eapply wf_snoc; eassumption|]. simpl. split.
  - rewrite find_app, find_remove_eq. simpl.
    rewrite decide_True by reflexivity. reflexivity.
  - rewrite newer_app_absent by apply find_remove_eq. simpl.
    rewrite decide_True by reflexivity. reflexivity.
Qed.

End CacheFacts.

(* ===================================================================== *)
(** * Facts about [get_stac_item] *)
(* ===================================================================== *)

Section ItemFacts.
Import Items.
Context {library : Pystac}.
Implicit Types (p : process) (pool : ConnectionPool).

Lemma get_stac_item_hit now later pool collection item p v e :
  TTL.find (hashkey collection item) (TTL.links (cache p)) = Some (v, e) ->
  now < e ->
  get_stac_item now later pool collection item p
  = (Ok v,
     {| cache := TTL.with_links (cache p)
                   (TTL.move_to_end (hashkey collection item) (TTL.links (cache p)))
                   (TTL.ring (cache p));
        sent := sent p |}).
Proof.
  intros E Hlt. unfold get_stac_item.
  rewrite (getitem_live now _ v e) by assumption. reflexivity.
Qed.

(** A call that finds no live link sends one search through its pool. *)
Lemma get_stac_item_miss now later pool collection item p :
  fst (TTL.getitem now (hashkey collection item) (cache p)) = None ->
  sent (snd (get_stac_item now later pool collection item p))
  = sent p ++ [(conninfo pool, (collection, item))].
Proof.
  intros Hmiss. unfold get_stac_item.
  destruct (TTL.getitem now (hashkey collection item) (cache p)) as [[w|] c];
    simpl in Hmiss; [discriminate|].
  destruct (fetch_stac_item pool collection item); [|reflexivity].
  destruct (TTL.setitem later (hashkey collection item) a c); reflexivity.
Qed.

Lemma fetches_snoc collection item p c conn k :
  fetches collection item {| cache := c; sent := sent p ++ [(conn, k)] |}
  = (fetches collection item p + (if decide (k = (collection, item)) then 1 else 0))%nat.
Proof.
  unfold fetches. simpl. rewrite List.filter_app, length_app. simpl.
  destruct (decide (k = (collection, item))) as [->|Hne].
  - rewrite bool_decide_eq_true_2 by reflexivity. reflexivity.
  - rewrite bool_decide_eq_false_2 by assumption. reflexivity.
Qed.

(** The cache stays well formed, whatever is called. *)
Lemma wf_get_stac_item now later pool collection item p :
  TTL.wf (cache p) ->
  TTL.wf (cache (snd (get_stac_item now later pool collection item p)))
  /\ TTL.maxsize (cache (snd (get_stac_item now later pool collection item p)))
     = TTL.maxsize (cache p)
  /\ TTL.ttl (cache (snd (get_stac_item now later pool collection item p)))
     = TTL.ttl (cache p).
Proof.
  intros Hwf. unfold get_stac_item.
  pose proof (wf_getitem now (hashkey collection item) (cache p) Hwf) as Hg.
  destruct (TTL.getitem now (hashkey collection item) (cache p)) as [[w|] c];
    simpl in Hg; [exact Hg|].
  destruct (fetch_stac_item pool collection item) as [v|err]; [|exact Hg].
  destruct Hg as (Hwfc & Hm & Ht).
  pose proof (wf_setitem later (hashkey collection item) v c Hwfc) as Hs.
  destruct (TTL.setitem later (hashkey collection item) v c); simpl.
  - destruct Hs as (? & ? & ?). repeat split; try congruence; apply H.
  - destruct Hs as (? & ? & ?). repeat split; try congruence; apply H.
  - contradiction.
Qed.

Lemma wf_run calls : forall p,
  TTL.wf (cache p) ->
  TTL.wf (cache (run p calls))
  /\ TTL.maxsize (cache (run p calls)) = TTL.maxsize (cache p)
  /\ TTL.ttl (cache (run p calls)) = TTL.ttl (cache p).
Proof.
  induction calls as [|cl calls IH]; intros p Hwf; simpl; [auto|].
  destruct (wf_get_stac_item (c_now cl) (c_later cl) (c_pool cl)
              (c_collection cl) (c_item cl) p Hwf) as (Hwf' & Hm & Ht).
  destruct (IH (do_call p cl) Hwf') as (? & ? & ?).
  unfold do_call in *. split; [assumption | split; congruence].
Qed.

Lemma wf_start maxsize ttl : TTL.wf (cache (start maxsize ttl)).
Proof. split; simpl; [apply NoDup_nil_2 | lia]. Qed.

(** A successful call leaves the item linked, as the most recently used,
    when the cache can hold anything at all. *)
Lemma get_stac_item_links now later pool collection item p v p' :
  TTL.wf (cache p) -> 1 <= TTL.maxsize (cache p) ->
  get_stac_item now later pool collection item p = (Ok v, p') ->
  exists e,
    TTL.keeps (hashkey collection item) v e [] (cache p')
    /\ (fst (TTL.getitem now (hashkey collection item) (cache p)) = None ->
        e = later + TTL.ttl (cache p))
    /\ (fst (TTL.getitem now (hashkey collection item) (cache p)) <> None ->
        now < e /\ sent p' = sent p).
Proof.
  intros Hwf Hmax. unfold get_stac_item.
  set (k := hashkey collection item).
  pose proof (wf_getitem now k (cache p) Hwf) as (Hwfg & Hmg & Htg).
  destruct (TTL.getitem now k (cache p)) as [[w|] c] eqn:Eg; simpl in *.
  - intros Heq. inversion Heq; subst; clear Heq.
    unfold TTL.getitem in Eg.
    destruct (TTL.find k (TTL.links (cache p))) as [[w e]|] eqn:Ek; [|discriminate].
    destruct (now <? e) eqn:Hlt; [|discriminate].
    inversion Eg; subst; clear Eg. exists e. simpl.
    split; [apply keeps_moved; assumption|].
    split; [discriminate|]. intros _. split; [apply Z.ltb_lt, Hlt | reflexivity].
  - destruct (fetch_stac_item pool collection item) as [w|err]; [|discriminate].
    destruct (keeps_stored later k w c Hwfg ltac:(lia)) as (c' & -> & Hkeeps).
    intros Heq. inversion Heq; subst; clear Heq. simpl.
    exists (later + TTL.ttl c). split; [exact Hkeeps|].
    split; [intros _; congruence | congruence].
Qed.

(** One call made while the link of [(collection, item)] is live, for
    that key or for a key of [seen]: the link stays, and no search is sent
    for that key. *)
Lemma do_call_keeps collection item v e seen p cl :
  TTL.keeps (hashkey collection item) v e seen (cache p) ->
  Z.of_nat (length (remove_dups seen)) < TTL.maxsize (cache p) ->
  c_now cl < e -> c_later cl < e ->
  call_key cl = hashkey collection item \/ call_key cl ∈ seen ->
  TTL.keeps (hashkey collection item) v e seen (cache (do_call p cl))
  /\ TTL.maxsize (cache (do_call p cl)) = TTL.maxsize (cache p)
  /\ fetches collection item (do_call p cl) = fetches collection item p.
Proof.
  intros Hkeeps Hbound Hnow Hlater Hkey.
  unfold do_call, call_key in *.
  destruct (decide (hashkey (c_collection cl) (c_item cl) = hashkey collection item))
    as [Heq|Hne].
  - unfold hashkey in Heq. inversion Heq as [[Hc Hi]]. rewrite Hc, Hi.
    destruct Hkeeps as (Hwf & Hk & Hnew).
    rewrite (get_stac_item_hit _ _ _ _ _ _ v e) by assumption. simpl.
    split; [|split; reflexivity].
    apply keeps_move_same. split; [exact Hwf | split; assumption].
  - destruct Hkey as [Hkey|Hseen]; [contradiction|].
    unfold get_stac_item.
    set (k' := hashkey (c_collection cl) (c_item cl)) in *.
    assert (Hne' : hashkey collection item <> k') by (intros E; apply Hne; symmetry; exact E).
    pose proof (keeps_getitem_other (c_now cl) _ k' v e seen (cache p)
                  Hne' Hseen Hkeeps) as Hg.
    pose proof (wf_getitem (c_now cl) k' (cache p) (proj1 Hkeeps)) as (_ & Hmg & _).
    destruct (TTL.getitem (c_now cl) k' (cache p)) as [[w|] c]; simpl in *.
    + split; [exact Hg | split; [exact Hmg | reflexivity]].
    + assert (Hlog : forall c0,
                 fetches collection item
                   {| cache := c0;
                      sent := sent p ++ [(conninfo (c_pool cl), (c_collection cl, c_item cl))] |}
                 = fetches collection item p).
      { intros c0. rewrite fetches_snoc. rewrite decide_False by exact Hne.
        apply Nat.add_0_r. }
      destruct (fetch_stac_item (c_pool cl) (c_collection cl) (c_item cl)) as [w|err].
      * assert (Hbound' : Z.of_nat (length (remove_dups seen)) < TTL.maxsize c)
          by (rewrite Hmg; exact Hbound).
        destruct (keeps_setitem_other (c_later cl) (hashkey collection item) k'
                    v w e seen c Hne' Hseen Hlater Hbound' Hg)
          as (c' & -> & Hm' & Hk').
        simpl. split; [exact Hk' | split; [congruence | apply Hlog]].
      * simpl. split; [exact Hg | split; [exact Hmg | apply Hlog]].
Qed.

Lemma run_keeps collection item v e seen calls : forall p,
  TTL.keeps (hashkey collection item) v e seen (cache p) ->
  Z.of_nat (length (remove_dups seen)) < TTL.maxsize (cache p) ->
  Forall (fun cl => c_now cl < e /\ c_later cl < e) calls ->
  other_keys (hashkey collection item) calls ⊆ seen ->
  TTL.keeps (hashkey collection item) v e seen (cache (run p calls))
  /\ fetches collection item (run p calls) = fetches collection item p.
Proof.
  induction calls as [|cl calls IH]; intros p Hkeeps Hbound Htimes Hsub; simpl.
  - split; [exact Hkeeps | reflexivity].
  - apply Forall_cons in Htimes as [[Hnow Hlater] Htimes].
    assert (Hkey : call_key cl = hashkey collection item \/ call_key cl ∈ seen).
    { destruct (decide (call_key cl = hashkey collection item)) as [|Hne]; [left; assumption|].
      right. apply Hsub. unfold other_keys. simpl.
      rewrite bool_decide_eq_false_2 by assumption. simpl. apply list_elem_of_here. }
    destruct (do_call_keeps collection item v e seen p cl Hkeeps Hbound Hnow Hlater Hkey)
      as (Hk1 & Hm1 & Hf1).
    assert (Hbound1 : Z.of_nat (length (remove_dups seen)) < TTL.maxsize (cache (do_call p cl)))
      by (rewrite Hm1; exact Hbound).
    destruct (IH (do_call p cl) Hk1 Hbound1 Htimes) as (Hk2 & Hf2).
    + intros y Hy. apply Hsub. unfold other_keys in *. simpl.
      destruct (negb (bool_decide (call_key cl = hashkey collection item)));
        [apply list_elem_of_further|]; exact Hy.
    + split; [exact Hk2 | congruence].
Qed.

Lemma keeps_weaken {K V} `{EqDecision K} (k : K) (v : V) e seen seen' c :
  TTL.keeps k v e seen c -> seen ⊆ seen' -> TTL.keeps k v e seen' c.
Proof.
  intros (Hwf & Hk & Hnew) Hsub. split; [exact Hwf | split; [exact Hk|]].
  etransitivity; eassumption.
Qed.

End ItemFacts.

(* ===================================================================== *)
(** * The item cache: C3, C4 and C10 *)
(* ===================================================================== *)

Section ItemClaims.
Import Items.
Context {library : Pystac}.



(** A call that does not find the item in the cache answers what the
    lookup in the catalogue answers. *)
Lemma get_stac_item_uncached now later pool collection item p :
  TTL.wf (cache p) ->
  fst (TTL.getitem now (hashkey collection item) (cache p)) = None ->
  fst (get_stac_item now later pool collection item p)
  = fetch_stac_item pool collection item.
Proof.
  intros Hwf Hmiss. unfold get_stac_item.
  pose proof (wf_getitem now (hashkey collection item) (cache p) Hwf) as (Hwfg & _).
  destruct (TTL.getitem now (hashkey collection item) (cache p)) as [[w|] c];
    simpl in *; [discriminate|].
  destruct (fetch_stac_item pool collection item) as [v|err]; [|reflexivity].
  pose proof (wf_setitem later (hashkey collection item) v c Hwfg) as Hs.
  destruct (TTL.setitem later (hashkey collection item) v c);
    [reflexivity | reflexivity | contradiction].
Qed.


(** C3, as amended: once a lookup has succeeded in a cache that can hold
    at least one item, every later call for the same collection and item
    made before the entry expires answers the cached item and sends no
    search, as long as fewer other keys than the cache can hold are asked
    for in between; in that window no further search is sent for the key,
    and the first call made once the entry has expired sends a new one. *)
Theorem item_cached_within_ttl (p : process) (pool : ConnectionPool)
  (collection item : string) (now later : Z) (v : Item) (p' : process) :
  TTL.wf (cache p) -> 1 <= TTL.maxsize (cache p) ->
  get_stac_item now later pool collection item p = (Ok v, p') ->
  exists e,
    (fst (TTL.getitem now (hashkey collection item) (cache p)) = None ->
     e = later + TTL.ttl (cache p))
    /\ forall calls,
         Forall (fun cl => c_now cl < e /\ c_later cl < e) calls ->
         Z.of_nat (length (remove_dups (other_keys (hashkey collection item) calls)))
         < TTL.maxsize (cache p) ->
         fetches collection item (run p' calls) = fetches collection item p'
         /\ (forall pool' now' later', now' < e ->
               exists q,
                 get_stac_item now' later' pool' collection item (run p' calls) = (Ok v, q)
                 /\ sent q = sent (run p' calls))
         /\ (forall pool' now' later', e <= now' ->
               sent (snd (get_stac_item now' later' pool' collection item (run p' calls)))
               = sent (run p' calls) ++ [(conninfo pool', (collection, item))]).
Proof.
  intros Hwf Hmax Hcall.
  destruct (get_stac_item_links _ _ _ _ _ _ _ _ Hwf Hmax Hcall) as (e & Hkeeps & Hfresh & _).
  exists e. split; [exact Hfresh|]. intros calls Htimes Hbound.
  pose proof (wf_get_stac_item now later pool collection item p Hwf) as (_ & Hm & _).
  rewrite Hcall in Hm. simpl in Hm.
  destruct (run_keeps collection item v e
              (other_keys (hashkey collection item) calls) calls p')
    as ((Hwf' & Hk & _) & Hf); try assumption.
  - eapply keeps_weaken; [exact Hkeeps | apply list_subseteq_nil].
  - rewrite Hm. exact Hbound.
  - reflexivity.
  - split; [exact Hf|]. split.
    + intros pool' now' later' Hlt. eexists. split.
      * apply (get_stac_item_hit _ _ _ _ _ _ v e); assumption.
      * reflexivity.
    + intros pool' now' later' Hge. apply get_stac_item_miss.
      rewrite (getitem_expired _ _ v e) by assumption. reflexivity.
Qed.

(** C10: the key of the cache is made of the collection and the item
    only.  Once a call through one pool has stored the item, a call for
    the same collection and item through any other pool, made before the
    entry expires, answers that same item, sends nothing to its own pool,
    and is the very call that the first pool would have seen. *)
Theorem cached_item_ignores_pool (p : process) (pool1 pool2 : ConnectionPool)
  (collection item : string) (now later now' later' : Z) (v : Item) (p' : process) :
  TTL.wf (cache p) -> 1 <= TTL.maxsize (cache p) ->
  fst (TTL.getitem now (hashkey collection item) (cache p)) = None ->
  get_stac_item now later pool1 collection item p = (Ok v, p') ->
  now' < later + TTL.ttl (cache p) ->
  fst (get_stac_item now' later' pool2 collection item p') = Ok v
  /\ sent (snd (get_stac_item now' later' pool2 collection item p')) = sent p'
  /\ get_stac_item now' later' pool2 collection item p'
     = get_stac_item now' later' pool1 collection item p'.
Proof.
  intros Hwf Hmax Hmiss Hcall Hlt.
  destruct (get_stac_item_links _ _ _ _ _ _ _ _ Hwf Hmax Hcall)
    as (e & (_ & Hk & _) & Hfresh & _).
  specialize (Hfresh Hmiss). subst e.
  rewrite !(get_stac_item_hit _ _ _ _ _ _ v (later + TTL.ttl (cache p))) by assumption.
  simpl. repeat split.
Qed.

End ItemClaims.

Section ItemClaimSamples.
Import Items.
#[local] Existing Instance Fixture.pystac.


Lemma item_cached_within_ttl_witness :
  exists e,
    (fst (TTL.getitem 0 (hashkey Fixture.collection Fixture.item_a)
            (cache (start 2 300))) = None -> e = 1 + 300)
    /\ forall calls,
         Forall (fun cl => c_now cl < e /\ c_later cl < e) calls ->
         Z.of_nat (length (remove_dups
                             (other_keys (hashkey Fixture.collection Fixture.item_a) calls)))
         < 2 ->
         let p' := snd (get_stac_item 0 1 Fixture.dbpool Fixture.collection
                          Fixture.item_a (start 2 300)) in
         fetches Fixture.collection Fixture.item_a (run p' calls)
         = fetches Fixture.collection Fixture.item_a p'
         /\ (forall pool' now' later', now' < e ->
               exists q,
                 get_stac_item now' later' pool' Fixture.collection Fixture.item_a
                   (run p' calls)
                 = (Ok (Item_from_dict (Fixture.feature Fixture.item_a)), q)
                 /\ sent q = sent (run p' calls))
         /\ (forall pool' now' later', e <= now' ->
               sent (snd (get_stac_item now' later' pool' Fixture.collection
                            Fixture.item_a (run p' calls)))
               = sent (run p' calls)
                 ++ [(conninfo pool', (Fixture.collection, Fixture.item_a))]).
Proof.
  apply (item_cached_within_ttl (start 2 300) Fixture.dbpool Fixture.collection
           Fixture.item_a 0 1 (Item_from_dict (Fixture.feature Fixture.item_a))
           (snd (get_stac_item 0 1 Fixture.dbpool Fixture.collection
                   Fixture.item_a (start 2 300)))).
  - split; simpl; [apply NoDup_nil_2 | lia].
  - simpl. lia.
  - vm_compute. reflexivity.
Defined.

(** With room for one item only, a second item takes the place of the
    first, which is searched again well before its time-to-live has run
    out: the property without the size bound fails. *)
Lemma item_refetched_within_ttl : ~ one_fetch_within_ttl 1 300.
Proof.
  intros Hclaim.
  destruct (Hclaim Fixture.dbpool Fixture.collection Fixture.item_a 0 0
              (Item_from_dict (Fixture.feature Fixture.item_a))
              (snd (get_stac_item 0 0 Fixture.dbpool Fixture.collection
                      Fixture.item_a (start 1 300)))
              [ {| c_now := 1; c_later := 1; c_pool := Fixture.dbpool;
                   c_collection := Fixture.collection; c_item := Fixture.item_b |} ]
              Fixture.dbpool 2 2) as [_ Hsent].
  - vm_compute. reflexivity.
  - repeat constructor.
  - lia.
  - vm_compute in Hsent. discriminate Hsent.
Qed.

Lemma cached_item_ignores_pool_witness :
  let p' := snd (get_stac_item 0 1 Fixture.dbpool Fixture.collection
                   Fixture.item_a (start 512 300)) in
  fst (get_stac_item 100 101 Fixture.empty_pool Fixture.collection Fixture.item_a p')
  = Ok (Item_from_dict (Fixture.feature Fixture.item_a))
  /\ sent (snd (get_stac_item 100 101 Fixture.empty_pool Fixture.collection
                  Fixture.item_a p'))
     = sent p'
  /\ get_stac_item 100 101 Fixture.empty_pool Fixture.collection Fixture.item_a p'
     = get_stac_item 100 101 Fixture.dbpool Fixture.collection Fixture.item_a p'.
Proof.
  apply (cached_item_ignores_pool (start 512 300) Fixture.dbpool Fixture.empty_pool
           Fixture.collection Fixture.item_a 0 1 100 101
           (Item_from_dict (Fixture.feature Fixture.item_a))).
  - split; simpl; [apply NoDup_nil_2 | lia].
  - simpl. lia.
  - reflexivity.
  - vm_compute. reflexivity.
  - simpl. lia.
Defined.

End ItemClaimSamples.

(* ===================================================================== *)
(** * Search parameters: C2 *)
(* ===================================================================== *)

Section SearchClaims.
Import Py Model.

Lemma get_value_not_none en ba v : v <> VNone -> get_value en ba v <> VNone.
Proof. destruct v; simpl; intros H; try discriminate; exact H. Qed.

Lemma is_none_true v : is_none v = true <-> v = VNone.
Proof. destruct v; simpl; split; intros H; try discriminate; reflexivity. Qed.


Lemma assoc_None {A} k (l : list (string * A)) :
  assoc k l = None <-> ~ In k (map fst l).
Proof.
  induction l as [|[k' x] r IH]; simpl; [tauto|].
  destruct (String.eqb k k') eqn:E.
  - apply String.eqb_eq in E. subst. split; [discriminate | intros H; exfalso; auto].
  - apply String.eqb_neq in E. rewrite IH. split; [intros H [H'|H']; auto | tauto].
Qed.

(** Where an entry of the dictionary of a model comes from. *)
Lemma in_dict en ex ba fs k v :
  In (k, v) (dict en ex ba fs) ->
  exists f, In f fs /\ mem (fname f) ex = false
            /\ (en = true -> fvalue f <> VNone)
            /\ k = (if ba then falias f else fname f)
            /\ v = get_value en ba (fvalue f).
Proof.
  induction fs as [|f r IH]; simpl; [contradiction|].
  destruct (mem (fname f) ex) eqn:Em; simpl.
  - intros H. destruct (IH H) as (g & ? & ?). exists g. auto.
  - destruct (en && is_none (fvalue f)) eqn:En.
    + intros H. destruct (IH H) as (g & ? & ?). exists g. auto.
    + intros [H|H].
      * inversion H; subst. exists f. repeat split; auto.
        intros -> Hv. rewrite Hv in En. discriminate.
      * destruct (IH H) as (g & ? & ?). exists g. auto.
Qed.

(** A field that is neither excluded nor [None] is kept. *)
Lemma dict_keeps (en : bool) ex (ba : bool) (fs : list field) (f : field) :
  In f fs -> mem (fname f) ex = false -> fvalue f <> VNone ->
  In ((if ba then falias f else fname f), get_value en ba (fvalue f))
     (dict en ex ba fs).
Proof.
  intros Hin Hex Hv. induction fs as [|g r IH]; simpl; [contradiction|].
  destruct Hin as [->|Hin].
  - rewrite Hex. simpl.
    destruct (is_none (fvalue f)) eqn:En; [apply is_none_true in En; contradiction|].
    rewrite andb_false_r. left. reflexivity.
  - destruct (mem (fname g) ex || (en && is_none (fvalue g))); [|right]; auto.
Qed.

(** In a registration request, only the field [metadata] is known as
    [metadata]. *)
Lemma metadata_alias body f :
  is_instance RegisterMosaic_fields body = true -> In f body ->
  falias f = "metadata" -> fname f = "metadata".
Proof.
  unfold is_instance. rewrite forallb_forall. intros Hall Hin Halias.
  specialize (Hall f Hin). apply orb_true_iff in Hall as [Hd|He].
  - unfold declared in Hd. apply existsb_exists in Hd as (d & Hd & Heq).
    apply andb_true_iff in Heq as [Hn Ha].
    apply String.eqb_eq in Hn, Ha. rewrite Hn. rewrite Halias in Ha.
    simpl in Hd. repeat (destruct Hd as [<-|Hd]; [simpl in *; try discriminate; reflexivity|]).
    contradiction.
  - apply andb_true_iff in He as [_ He]. apply String.eqb_eq in He. congruence.
Qed.

Lemma in_keys {A} k (l : list (string * A)) :
  In k (map fst l) -> exists v, In (k, v) l.
Proof.
  rewrite in_map_iff. intros ([k' v] & Heq & Hin). simpl in Heq. subst. eauto.
Qed.

Lemma in_construct schema kwargs f :
  In f (construct schema kwargs) ->
  (In (fname f, falias f) schema
   /\ fvalue f = default VNone (assoc (falias f) kwargs))
  \/ (In (falias f, fvalue f) kwargs /\ mem (falias f) (map snd schema) = false).
Proof.
  unfold construct. rewrite in_app_iff, !in_map_iff.
  intros [(d & <- & Hd) | (m & <- & Hm)].
  - left. destruct d; simpl. auto.
  - right. apply filter_In in Hm as [Hm Hf]. destruct m; simpl in *.
    apply negb_true_iff in Hf. auto.
Qed.

(** C2: for every registration request, the dictionary that
    [SearchParams] builds has no [metadata] key and no field whose value is
    [None], and keeps every other field under its alias; the same holds of
    the document the search is then encoded as. *)
Theorem SearchParams_excludes_metadata_and_none (body : list field) :
  is_instance RegisterMosaic_fields body = true ->
  assoc "metadata" (search_dict body) = None
  /\ (forall k v, In (k, v) (search_dict body) -> v <> VNone)
  /\ (forall f, In f body -> fname f <> "metadata" -> fvalue f <> VNone ->
        In (falias f, get_value true true (fvalue f)) (search_dict body))
  /\ (forall search metadata,
        SearchParams body = Some (search, metadata) ->
        getattr "metadata" body = Some metadata
        /\ exists doc,
             json true true search = VDict doc
             /\ assoc "metadata" doc = None
             /\ (forall k v, In (k, v) doc -> v <> VNone)).
Proof.
  intros Hinst.
  assert (Hmeta : assoc "metadata" (search_dict body) = None).
  { apply assoc_None. intros Hin. apply in_keys in Hin as (v & Hin).
    apply in_dict in Hin as (f & Hf & Hex & _ & Hk & _).
    symmetry in Hk. apply (metadata_alias body f Hinst Hf) in Hk.
    rewrite Hk in Hex. discriminate. }
  split; [exact Hmeta|]. split; [|split].
  - intros k v Hin. apply in_dict in Hin as (f & _ & _ & Hv & _ & ->).
    apply get_value_not_none, Hv. reflexivity.
  - intros f Hf Hname Hv. apply (dict_keeps true ["metadata"] true body f Hf); [|exact Hv].
    unfold mem. simpl. apply String.eqb_neq in Hname. rewrite Hname. reflexivity.
  - intros search metadata. unfold SearchParams.
    destruct (getattr "metadata" body) as [m|]; [|discriminate].
    intros Heq. inversion Heq; subst; clear Heq. split; [reflexivity|].
    eexists. split; [reflexivity|]. split.
    + apply assoc_None. intros Hin. apply in_keys in Hin as (v & Hin).
      apply in_dict in Hin as (f & Hf & _ & Hv & Hk & _).
      apply in_construct in Hf as [[Hd Hval] | [Hkw Hextra]].
      * rewrite <- Hk in Hd. simpl in Hd.
        repeat (destruct Hd as [Hd|Hd]; [discriminate Hd|]). contradiction.
      * rewrite <- Hk in Hkw. apply assoc_None in Hmeta. apply Hmeta.
        apply in_map_iff. exists ("metadata", fvalue f). auto.
    + intros k v Hin. apply in_dict in Hin as (f & _ & _ & Hv & _ & ->).
      apply get_value_not_none, Hv. reflexivity.
Qed.

Lemma SearchParams_excludes_metadata_and_none_witness :
  assoc "metadata" (search_dict (RegisterMosaic Fixture.query_with_metadata)) = None
  /\ search_dict (RegisterMosaic Fixture.query_with_metadata)
     = [("collections", VList [VStr "noaa-emergency-response"])].
Proof.
  assert (Hinst : is_instance RegisterMosaic_fields
                    (RegisterMosaic Fixture.query_with_metadata) = true)
    by (vm_compute; reflexivity).
  destruct (SearchParams_excludes_metadata_and_none
              (RegisterMosaic Fixture.query_with_metadata) Hinst) as (Hmeta & _).
  split; [exact Hmeta | vm_compute; reflexivity].
Defined.




(** What is hashed for the first search of the tests. *)
Example hashed_text_no_bbox :
  match Registry.query_of Fixture.query_no_bbox with
  | Some search => (Registry.encode search ++ Registry.mosaic_marker)%string
  | None => EmptyString
  end
  = JSON.dq ("{'collections': ['noaa-emergency-response'], 'filter-lang': 'cql-json'}"
             ++ "{'type': 'mosaic'}").
Proof. vm_compute. reflexivity. Qed.

End SearchClaims.

(* ===================================================================== *)
(** * The canonical text of a query *)
(* ===================================================================== *)

Section KeyOrder.
Import Jsonb.














End KeyOrder.

Section Encoding.
Import Py Jsonb.









End Encoding.

Section Documents.
Import Py Model.








End Documents.

(* ===================================================================== *)
(** * Search identity: C1 *)
(* ===================================================================== *)

Section Queries.
Import Py Model.










End Queries.

Section SearchIdentity.
Import Py Model.




End SearchIdentity.


(* ===================================================================== *)
(** * Unknown search identifiers: C9 *)
(* ===================================================================== *)

Section MosaicClaims.
Import Mosaic.
Context {Image Stats : Type}.
Variable spatial_search : Py.value -> region -> PgSTACParams -> list Py.value.
Variable render : list AssetRecord -> selector -> Image.
Variable summarize : list AssetRecord -> selector -> Stats.

(** C9: on an identifier that is not registered, every operation that
    takes a search identifier (the information of the search, the assets
    for a point, the assets for a tile, the rendering of a tile, the
    statistics) answers [NotFound], with the message
    [SearchId `<id>` not found] that names that identifier. *)
Theorem unregistered_searchid_not_found
  (store : gmap string Registry.RegisteredSearch) (searchid : string)
  (op : operation) :
  store !! searchid = None ->
  perform spatial_search render summarize store searchid op
  = inl (NotFound ("SearchId `" ++ searchid ++ "` not found")%string).
Proof.
  intros Hnone. destruct op; simpl; unfold resolve, lookup, PathParams;
    rewrite Hnone; reflexivity.
Qed.

(** A registered search resolves to a list of assets, empty or not, and
    never to an error. *)
Lemma resolve_registered (store : gmap string Registry.RegisteredSearch)
  searchid r where_ tuning :
  store !! searchid = Some r ->
  resolve spatial_search store searchid where_ tuning
  = inr (map asset_record (spatial_search (Registry.rs_search r) where_ tuning)).
Proof. intros Hr. unfold resolve, lookup. rewrite Hr. reflexivity. Qed.

End MosaicClaims.

Lemma unregistered_searchid_not_found_witness :
  Fixture.registry !! Fixture.unknown_searchid = None
  /\ Forall (fun op =>
               Mosaic.perform (fun _ _ _ => []) (fun _ _ => tt) (fun _ _ => tt)
                 Fixture.registry Fixture.unknown_searchid op
               = inl (Mosaic.NotFound
                        "SearchId `aaaaaaaaaaaaaaaaaaaaaaaaaaaaaaaa` not found"))
       (let tuning := {| Mosaic.scan_limit := None; Mosaic.items_limit := None;
                         Mosaic.time_limit := None; Mosaic.exitwhenfull := None;
                         Mosaic.skipcovered := None |} in
        [ Mosaic.Info;
          Mosaic.AssetsForPoint (Py.Num (-855) 1) (Py.Num 361624 4) tuning;
          Mosaic.AssetsForTile 15 8589 12849 "WebMercatorQuad" tuning;
          Mosaic.RenderTile 0 0 0 "WebMercatorQuad" (Mosaic.Assets ["cog"]) tuning;
          Mosaic.Statistics Py.VNone (Mosaic.Assets ["cog"]) tuning ]).
Proof.
  assert (H : Fixture.registry !! Fixture.unknown_searchid = None)
    by (vm_compute; reflexivity).
  split; [exact H|].
  cbv zeta.
  repeat (apply List.Forall_cons;
          [exact (unregistered_searchid_not_found (fun _ _ _ => []) (fun _ _ => tt)
                    (fun _ _ => tt) Fixture.registry Fixture.unknown_searchid _ H)|]).
  apply List.Forall_nil.
Defined.

(* ===================================================================== *)
(** * Facts about the decoder *)
(* ===================================================================== *)

Section ScannerFacts.
Import JSON.

Lemma skip_ws_length s : (length (skip_ws s) <= length s)%nat.
Proof.
  induction s as [|c r IH]; simpl; [lia|].
  destruct (ws c); simpl; lia.
Qed.

Lemma span_digits_length s d r :
  span_digits s = (d, r) -> (length d + length r = length s)%nat.
Proof.
  revert d r. induction s as [|c s IH]; simpl; intros d r H.
  - inversion H; subst. reflexivity.
  - destruct (is_digit c).
    + destruct (span_digits s) as [d' r'] eqn:E. inversion H; subst.
      specialize (IH _ _ eq_refl). simpl. lia.
    + inversion H; subst. reflexivity.
Qed.

Lemma starts_with_length lit : forall s r,
  starts_with lit s = Some r -> (length r + length lit = length s)%nat.
Proof.
  induction lit as [|a lit IH]; simpl; intros s r H.
  - inversion H; subst. lia.
  - destruct s as [|b s]; [discriminate|].
    destruct (a =? b); [|discriminate]. apply IH in H. simpl. lia.
Qed.

Lemma hex4_length s u r : hex4 s = Some (u, r) -> (length r + 4 = length s)%nat.
Proof.
  unfold hex4. destruct s as [|a [|b [|c [|d s]]]]; try discriminate.
  destruct (hexval a), (hexval b), (hexval c), (hexval d); try discriminate.
  intros H. inversion H; subst. simpl. lia.
Qed.

Lemma scan_unicode_length s u r :
  scan_unicode s = Some (u, r) -> (length r < length s)%nat.
Proof.
  unfold scan_unicode. destruct (hex4 s) as [[u1 r1]|] eqn:E1; [|discriminate].
  apply hex4_length in E1.
  assert (Halone : Some (u1, r1) = Some (u, r) -> (length r < length s)%nat)
    by (intros H; inversion H; subst; lia).
  destruct ((55296 <=? u1) && (u1 <=? 56319)); [|exact Halone].
  destruct r1 as [|a [|b r2]]; try exact Halone.
  destruct ((a =? 92) && (b =? 117)); [|exact Halone].
  destruct (hex4 r2) as [[u2 r3]|] eqn:E2; [|exact Halone].
  apply hex4_length in E2.
  destruct ((56320 <=? u2) && (u2 <=? 57343)); [|exact Halone].
  intros H. inversion H; subst. simpl in *. lia.
Qed.

(** A string ends before its text does, or is refused by the decoder. *)
Lemma scanstring_outcome fuel : forall s acc,
  match scanstring fuel s acc with
  | Ok (_, r) => (length r < length s)%nat
  | Raise e => e = JSONDecodeError
  end.
Proof.
  induction fuel as [|fuel IH]; intros s acc; simpl; [reflexivity|].
  destruct s as [|c r]; [reflexivity|].
  destruct (c =? 34); [simpl; lia|].
  destruct (c =? 92).
  - destruct r as [|e r']; [reflexivity|].
    destruct (escape e).
    + specialize (IH r' (z :: acc)).
      destruct (scanstring fuel r' (z :: acc)) as [[str r2]|]; simpl in *; [lia | exact IH].
    + destruct (e =? 117); [|reflexivity].
      destruct (scan_unicode r') as [[u r2]|] eqn:Eu; [|reflexivity].
      apply scan_unicode_length in Eu.
      specialize (IH r2 (rev (utf8 u) ++ acc)).
      destruct (scanstring fuel r2 _) as [[str r3]|]; simpl in *; [lia | exact IH].
  - destruct (c <? 32); [reflexivity|].
    specialize (IH r (c :: acc)).
    destruct (scanstring fuel r (c :: acc)) as [[str r2]|]; simpl in *; [lia | exact IH].
Qed.

Lemma scan_number_outcome s res :
  scan_number s = Some res ->
  match res with
  | Ok (_, r) => (length r < length s)%nat
  | Raise e => e = ValueError
  end.
Proof.
  unfold scan_number.
  destruct (scan_sign s) as [negative s1] eqn:E1.
  assert (H1 : (length s1 <= length s)%nat).
  { unfold scan_sign in E1. destruct s as [|c s']; [inversion E1; subst; lia|].
    destruct (c =? 45); inversion E1; subst; simpl; lia. }
  destruct (scan_int s1) as [int_digits s2] eqn:E2.
  assert (H2 : (length int_digits + length s2 = length s1)%nat).
  { unfold scan_int in E2. destruct s1 as [|c s']; [inversion E2; subst; reflexivity|].
    destruct (c =? 48); [inversion E2; subst; simpl; lia|].
    apply span_digits_length in E2. exact E2. }
  destruct int_digits as [|d0 ds]; [discriminate|].
  destruct (scan_frac s2) as [frac s3] eqn:E3.
  assert (H3 : (length s3 <= length s2)%nat).
  { unfold scan_frac in E3. destruct s2 as [|c s']; [inversion E3; subst; lia|].
    destruct (c =? 46); [|inversion E3; subst; lia].
    destruct (span_digits s') as [[|d ds'] r'] eqn:Es;
      inversion E3; subst; [lia|].
    apply span_digits_length in Es. simpl in *. lia. }
  destruct (scan_exp s3) as [expo s4] eqn:E4.
  assert (H4 : (length s4 <= length s3)%nat).
  { unfold scan_exp in E4. destruct s3 as [|c s']; [inversion E4; subst; lia|].
    destruct ((c =? 101) || (c =? 69)); [|inversion E4; subst; lia].
    destruct (match s' with
              | [] => (false, s')
              | c' :: r' =>
                  if c' =? 43 then (false, r')
                  else if c' =? 45 then (true, r') else (false, s')
              end) as [neg r1] eqn:Er.
    assert (Hr : (length r1 <= length s')%nat).
    { destruct s' as [|c' r']; [inversion Er; subst; lia|].
      destruct (c' =? 43); [inversion Er; subst; simpl; lia|].
      destruct (c' =? 45); inversion Er; subst; simpl; lia. }
    destruct (span_digits r1) as [[|d ds'] r2] eqn:Es;
      inversion E4; subst; [lia|].
    apply span_digits_length in Es. simpl in *. lia. }
  simpl in H2.
  destruct frac, expo; try (intros Heq; inversion Heq; subst; lia).
  destruct (int_max_str_digits <? length (d0 :: ds))%nat;
    intros Heq; inversion Heq; subst; [reflexivity | lia].
Qed.

Lemma scan_literal_outcome s :
  match scan_literal s with
  | Ok (_, r) => (length r < length s)%nat
  | Raise e => e = JSONDecodeError \/ e = ValueError
  end.
Proof.
  unfold scan_literal.
  destruct (starts_with (codes "null") s) eqn:E1;
    [apply starts_with_length in E1; simpl in *; lia|].
  destruct (starts_with (codes "true") s) eqn:E2;
    [apply starts_with_length in E2; simpl in *; lia|].
  destruct (starts_with (codes "false") s) eqn:E3;
    [apply starts_with_length in E3; simpl in *; lia|].
  destruct (scan_number s) as [res|] eqn:En.
  { apply scan_number_outcome in En. destruct res as [[v r]|e]; [exact En | auto]. }
  destruct (starts_with (codes "NaN") s) eqn:E4;
    [apply starts_with_length in E4; simpl in *; lia|].
  destruct (starts_with (codes "Infinity") s) eqn:E5;
    [apply starts_with_length in E5; simpl in *; lia|].
  destruct (starts_with (codes "-Infinity") s) eqn:E6;
    [apply starts_with_length in E6; simpl in *; lia|].
  left. reflexivity.
Qed.

End ScannerFacts.

Section DecoderOutcome.
Import JSON.
Variable h : list (string * pyval) -> result pyval.

(** With twice the length of the text for fuel, the decoder never runs
    out of it: it ends with a value and a shorter rest, with a decoding
    error, with the refusal of an integer or of a depth, or with what the
    hook raised. *)
Lemma decoder_outcome fuel :
  (forall depth s, (2 * length s + 1 <= fuel)%nat ->
                   step_outcome h s (scan_once h fuel depth s))
  /\ (forall depth s acc, (2 * length s + 2 <= fuel)%nat ->
                          step_outcome h s (array_items h fuel depth s acc))
  /\ (forall depth s acc, (2 * length s + 2 <= fuel)%nat ->
                          step_outcome h s (object_items h fuel depth s acc)).
Proof.
  induction fuel as [|fuel (IH1 & IH2 & IH3)].
  - repeat split; intros; lia.
  - split; [|split].
    + intros depth s Hfuel. simpl. destruct s as [|c s]; [left; reflexivity|].
      simpl in Hfuel.
      destruct (c =? 34).
      { pose proof (scanstring_outcome (length s) s []) as Hs.
        destruct (scanstring (length s) s []) as [[str r']|e]; simpl in *; [lia | auto]. }
      destruct (c =? 123).
      { destruct depth as [|depth]; [simpl; auto|].
        pose proof (skip_ws_length s) as Hw.
        destruct (skip_ws s) as [|c' r']; [left; reflexivity|]. simpl in Hw.
        destruct (c' =? 125).
        - destruct (h []) as [o|e] eqn:Eh; simpl; [lia | right; right; right; eauto].
        - destruct (c' =? 34); [|left; reflexivity].
          specialize (IH3 depth r' [] ltac:(lia)).
          destruct (object_items h fuel depth r' []) as [[v r]|e]; simpl in *;
            [lia | exact IH3]. }
      destruct (c =? 91).
      { destruct depth as [|depth]; [simpl; auto|].
        pose proof (skip_ws_length s) as Hw.
        destruct (skip_ws s) as [|c' r'].
        - specialize (IH2 depth [] [] ltac:(simpl; lia)).
          destruct (array_items h fuel depth [] []) as [[v r]|e]; simpl in *;
            [lia | exact IH2].
        - simpl in Hw. destruct (c' =? 93); [simpl; lia|].
          specialize (IH2 depth (c' :: r') [] ltac:(simpl; lia)).
          destruct (array_items h fuel depth (c' :: r') []) as [[v r]|e]; simpl in *;
            [lia | exact IH2]. }
      pose proof (scan_literal_outcome (c :: s)) as Hl.
      destruct (scan_literal (c :: s)) as [[v r]|e]; simpl in *; [lia | tauto].
    + intros depth s acc Hfuel. simpl.
      specialize (IH1 depth s ltac:(lia)).
      destruct (scan_once h fuel depth s) as [[v0 r0]|e]; simpl in *; [|exact IH1].
      pose proof (skip_ws_length r0) as Hw.
      destruct (skip_ws r0) as [|c r']; [left; reflexivity|]. simpl in Hw.
      destruct (c =? 93); [simpl; lia|].
      destruct (c =? 44); [|left; reflexivity].
      pose proof (skip_ws_length r') as Hw'.
      specialize (IH2 depth (skip_ws r') (v0 :: acc) ltac:(lia)).
      destruct (array_items h fuel depth (skip_ws r') (v0 :: acc)) as [[v r]|e];
        simpl in *; [lia | exact IH2].
    + intros depth s acc Hfuel. simpl.
      pose proof (scanstring_outcome (length s) s []) as Hs.
      destruct (scanstring (length s) s []) as [[key r0]|e]; simpl in *; [|auto].
      pose proof (skip_ws_length r0) as Hw.
      destruct (skip_ws r0) as [|c r1]; [left; reflexivity|]. simpl in Hw.
      destruct (c =? 58); [|left; reflexivity].
      pose proof (skip_ws_length r1) as Hw1.
      specialize (IH1 depth (skip_ws r1) ltac:(lia)).
      destruct (scan_once h fuel depth (skip_ws r1)) as [[v0 r2]|e]; simpl in *;
        [|exact IH1].
      pose proof (skip_ws_length r2) as Hw2.
      destruct (skip_ws r2) as [|c2 r3]; [left; reflexivity|]. simpl in Hw2.
      destruct (c2 =? 125).
      { destruct (h _) as [o|e] eqn:Eh; simpl; [lia | right; right; right; eauto]. }
      destruct (c2 =? 44); [|left; reflexivity].
      pose proof (skip_ws_length r3) as Hw3.
      destruct (skip_ws r3) as [|c4 r4]; [left; reflexivity|]. simpl in Hw3.
      destruct (c4 =? 34); [|left; reflexivity].
      specialize (IH3 depth r4 ((key, v0) :: acc) ltac:(lia)).
      destruct (object_items h fuel depth r4 ((key, v0) :: acc)) as [[v r]|e];
        simpl in *; [lia | exact IH3].
Qed.

(** [loads] raises a decoding error, the refusal of an integer of too
    many digits or of a nesting too deep, or what its hook raised, and
    nothing else. *)
Lemma loads_raises s e :
  loads h s = Raise e ->
  e = JSONDecodeError \/ e = ValueError \/ e = RecursionError
  \/ exists x, h x = Raise e.
Proof.
  unfold loads.
  pose proof (skip_ws_length (codes s)) as Hw.
  pose proof (proj1 (decoder_outcome (2 * length (codes s) + 2)) recursion_limit
                (skip_ws (codes s)) ltac:(lia)) as Ho.
  destruct (scan_once h _ _ _) as [[v r]|e0]; simpl in Ho.
  - destruct (skip_ws r); [discriminate|]. intros Heq. inversion Heq. auto.
  - intros Heq. inversion Heq; subst. exact Ho.
Qed.

End DecoderOutcome.

Section DecoderFacts.
Import JSON.

(** Two hooks, the second of which never fails: what the decoder accepts
    with the first, it accepts with the second, and stops at the same
    place. *)
Variables h1 h2 : list (string * pyval) -> result pyval.
Hypothesis h2_total : forall x, exists v, h2 x = Ok v.

Lemma decoder_accepts fuel :
  (forall depth s v r, scan_once h1 fuel depth s = Ok (v, r) ->
                       exists v', scan_once h2 fuel depth s = Ok (v', r))
  /\ (forall depth s acc acc' v r, array_items h1 fuel depth s acc = Ok (v, r) ->
                                   exists v', array_items h2 fuel depth s acc' = Ok (v', r))
  /\ (forall depth s acc acc' v r, object_items h1 fuel depth s acc = Ok (v, r) ->
                                   exists v', object_items h2 fuel depth s acc' = Ok (v', r)).
Proof.
  induction fuel as [|fuel (IH1 & IH2 & IH3)].
  - repeat split; intros; discriminate.
  - split; [|split].
    + intros depth s v r. simpl. destruct s as [|c s]; [discriminate|].
      destruct (c =? 34).
      { destruct (scanstring (length s) s []) as [[str r']|e]; [|discriminate].
        intros Heq. inversion Heq; subst. eauto. }
      destruct (c =? 123).
      { destruct depth as [|depth]; [discriminate|].
        destruct (skip_ws s) as [|c' r']; [discriminate|].
        destruct (c' =? 125).
        - destruct (h1 []) as [o|e]; [|discriminate].
          intros Heq. inversion Heq; subst.
          destruct (h2_total []) as [o' ->]. eauto.
        - destruct (c' =? 34); [|discriminate]. apply IH3. }
      destruct (c =? 91).
      { destruct depth as [|depth]; [discriminate|].
        destruct (skip_ws s) as [|c' r']; [apply IH2|].
        destruct (c' =? 93); [|apply IH2].
        intros Heq. inversion Heq; subst. eauto. }
      eauto.
    + intros depth s acc acc' v r. simpl.
      destruct (scan_once h1 fuel depth s) as [[v0 r0]|e] eqn:E; [|discriminate].
      destruct (IH1 _ _ _ _ E) as [v0' ->].
      destruct (skip_ws r0) as [|c r']; [discriminate|].
      destruct (c =? 93).
      { intros Heq. inversion Heq; subst. eauto. }
      destruct (c =? 44); [|discriminate]. apply IH2.
    + intros depth s acc acc' v r. simpl.
      destruct (scanstring (length s) s []) as [[key r0]|e]; [|discriminate].
      destruct (skip_ws r0) as [|c r1]; [discriminate|].
      destruct (c =? 58); [|discriminate].
      destruct (scan_once h1 fuel depth (skip_ws r1)) as [[v0 r2]|e] eqn:E; [|discriminate].
      destruct (IH1 _ _ _ _ E) as [v0' ->].
      destruct (skip_ws r2) as [|c2 r3]; [discriminate|].
      destruct (c2 =? 125).
      { destruct (h1 _) as [o|e]; [|discriminate].
        intros Heq. inversion Heq; subst.
        match goal with
        | |- context [h2 ?x] => destruct (h2_total x) as [o' ->]
        end.
        eauto. }
      destruct (c2 =? 44); [|discriminate].
      destruct (skip_ws r3) as [|c4 r4]; [discriminate|].
      destruct (c4 =? 34); [|discriminate]. apply IH3.
Qed.

Lemma loads_accepts s v :
  loads h1 s = Ok v -> exists v', loads h2 s = Ok v'.
Proof.
  unfold loads.
  destruct (scan_once h1 _ _ _) as [[v0 r]|e] eqn:E; [|discriminate].
  destruct (proj1 (decoder_accepts _) _ _ _ _ E) as [v0' ->].
  destruct (skip_ws r); [|discriminate]. eauto.
Qed.

End DecoderFacts.

(* ===================================================================== *)
(** * The colormap dependency: C5, C6 and C7 *)
(* ===================================================================== *)

Section ColormapClaims.
Import JSON Colormap.

Lemma nondecreasing_head a l :
  nondecreasing (a :: l) = true -> forall j, (j < length l)%nat -> a <= nth j l 0.
Proof.
  revert a. induction l as [|b r IH]; intros a H j Hj; simpl in *; [lia|].
  apply andb_true_iff in H as [Hab Hr]. apply Z.leb_le in Hab.
  destruct j as [|j]; [exact Hab|].
  specialize (IH b Hr j ltac:(lia)). lia.
Qed.

Lemma nondecreasing_nth l :
  nondecreasing l = true ->
  forall i j, (i <= j < length l)%nat -> nth i l 0 <= nth j l 0.
Proof.
  induction l as [|a r IH]; intros H i j Hij; simpl in Hij; [lia|].
  destruct i as [|i], j as [|j]; simpl; try lia.
  - apply (nondecreasing_head a r H). lia.
  - apply IH; [|lia]. destruct r; [reflexivity|].
    simpl in H. apply andb_true_iff in H. apply H.
Qed.

Lemma nth_channel c i (rows : list (list Z)) :
  nth c (nth i rows []) 0 = nth i (map (fun row => nth c row 0) rows) 0.
Proof.
  rewrite <- (map_nth (fun row => nth c row 0) rows [] i).
  destruct c; reflexivity.
Qed.

(** C5: the two stops [{0: [0,0,0,255], 255: [255,255,255,255]}], taken as
    a linear colormap, are expanded to 256 entries with the keys 0 to 255
    in order, each a colour of four components; entry 0 is [0,0,0,255],
    entry 255 is [255,255,255,255], and no channel ever decreases from one
    entry to a later one. *)
Theorem linear_two_stops (cmap : ColorMaps) :
  exists cm,
    @ColorMapParams cmap None (Some Fixture.two_stops) linear_type = Ok (PMap cm)
    /\ map fst cm = map Z.of_nat (seq 0 256)
    /\ map snd cm = map (fun row => PList (map PInt row)) (rows_of cm)
    /\ Forall (fun row => length row = 4%nat) (rows_of cm)
    /\ nth 0 (rows_of cm) [] = [0; 0; 0; 255]
    /\ nth 255 (rows_of cm) [] = [255; 255; 255; 255]
    /\ forall c i j, (c < 4)%nat -> (i <= j < 256)%nat ->
         nth c (nth i (rows_of cm) []) 0 <= nth c (nth j (rows_of cm) []) 0.
Proof.
  eexists. split; [vm_compute; reflexivity|].
  split; [vm_compute; reflexivity|].
  split; [vm_compute; reflexivity|].
  split; [match goal with |- ?G => apply (bool_decide_eq_true_1 G) end;
          vm_compute; reflexivity|].
  split; [vm_compute; reflexivity|].
  split; [vm_compute; reflexivity|].
  intros c i j Hc Hij. rewrite !nth_channel.
  apply nondecreasing_nth.
  - destruct c as [|[|[|[|c]]]]; try lia; vm_compute; reflexivity.
  - rewrite length_map. unfold rows_of. rewrite length_map. simpl. exact Hij.
Qed.

(** Every name of the enumeration is registered. *)
Lemma get_registered (cmap : ColorMaps) (name : ColorMapName cmap) :
  exists cm, Py.assoc (value name) cmap = Some cm /\ get cmap (value name) = Ok cm.
Proof.
  destruct name as [n Hin]. unfold get, value. simpl.
  destruct (Py.assoc n cmap) as [cm|] eqn:E; [eauto|].
  exfalso. apply assoc_None in E. contradiction.
Qed.

(** C6: when a name is given, the answer is the colormap registered under
    that name, whatever explicit colormap and type come with it; when
    neither a name nor an explicit colormap is given, the answer is
    [None]. *)
Theorem named_colormap_takes_precedence :
  (forall (cmap : ColorMaps) (name : ColorMapName cmap)
          (colormap : option string) (ty : ColorMapType),
      (exists cm, Py.assoc (value name) cmap = Some cm
                  /\ ColorMapParams (Some name) colormap ty = Ok cm)
      /\ forall colormap' ty',
           ColorMapParams (Some name) colormap' ty'
           = ColorMapParams (Some name) colormap ty)
  /\ (forall (cmap : ColorMaps) (ty : ColorMapType),
        @ColorMapParams cmap None None ty = Ok PNone).
Proof.
  split.
  - intros cmap name colormap ty. split; [|reflexivity].
    destruct (get_registered cmap name) as (cm & Hcm & Hget).
    exists cm. split; [exact Hcm | exact Hget].
  - reflexivity.
Qed.

(** Only the decoder raises a decoding error. *)
Lemma parse_color_error v : parse_color v <> Raise JSONDecodeError.
Proof.
  unfold parse_color. destruct v; try discriminate.
  - destruct (parse_hex s); [|discriminate].
    destruct (_ || _)%bool; discriminate.
  - destruct (_ || _)%bool; discriminate.
  - destruct (_ || _)%bool; discriminate.
  - destruct (_ || _)%bool; discriminate.
  - destruct (_ || _)%bool; discriminate.
Qed.

Lemma intervals_error l : intervals l <> Raise JSONDecodeError.
Proof.
  induction l as [|x l IH]; simpl; [discriminate|].
  destruct (iterate x) as [[|a [|b [|c r]]]|]; try discriminate.
  destruct (iterate a); [|discriminate].
  destruct (parse_color b) as [col|e] eqn:Ec.
  - destruct (intervals l) as [rest|e] eqn:El; [discriminate|].
    intros H. inversion H; subst. apply IH. reflexivity.
  - intros H. inversion H; subst. eapply parse_color_error, Ec.
Qed.

Lemma decode_error s :
  decode s = Raise JSONDecodeError <-> loads object_hook s = Raise JSONDecodeError.
Proof.
  unfold decode. destruct (loads object_hook s) as [cm|e]; [|tauto].
  split; [|discriminate].
  destruct (sequence_items cm) as [items|]; [|discriminate].
  destruct (intervals items) eqn:E; [discriminate|].
  intros Heq. inversion Heq; subst. exfalso. eapply intervals_error, E.
Qed.

(** A text that [decode] accepts is a JSON document. *)
Lemma decode_accepts s cm : decode s = Ok cm -> ~ malformed s.
Proof.
  unfold decode, malformed. intros Hd Hm.
  destruct (loads object_hook s) as [v|e] eqn:E; [|discriminate].
  destruct (loads_accepts object_hook plain ltac:(unfold plain; eauto) s v E) as [v' Hv'].
  congruence.
Qed.

Lemma parse_color_raises v e : parse_color v = Raise e -> conversion_error e.
Proof.
  unfold parse_color, conversion_error. destruct v; try (intros H; inversion H; tauto).
  - destruct (parse_hex s); [|intros H; inversion H; tauto].
    destruct (_ || _)%bool; intros H; inversion H; tauto.
  - destruct (_ || _)%bool; intros H; inversion H; tauto.
  - destruct (_ || _)%bool; intros H; inversion H; tauto.
  - destruct (_ || _)%bool; intros H; inversion H; tauto.
  - destruct (_ || _)%bool; intros H; inversion H; tauto.
Qed.

Lemma object_hook_raises x e : object_hook x = Raise e -> conversion_error e.
Proof.
  unfold object_hook. generalize (@nil (Z * pyval)).
  induction x as [|[k v] r IH]; simpl; intros acc; [discriminate|].
  destruct (py_int k) as [n|e'] eqn:Ek.
  - destruct (parse_color v) as [c|e'] eqn:Ec; [apply IH|].
    intros H. inversion H; subst. eapply parse_color_raises, Ec.
  - intros H. inversion H; subst. unfold py_int in Ek.
    destruct (match strip (codes k) with
              | [] => (false, strip (codes k))
              | c :: r0 => _
              end) as [negative digits].
    destruct (int_digits digits 0 false); [|inversion Ek; left; reflexivity].
    destruct (int_max_str_digits <? _)%nat; inversion Ek. left. reflexivity.
Qed.

(** C7: the dependency does not answer every malformed colormap with the
    error 400.  The text [{"red": [255, 0, 0]}}], which has one closing
    brace too many, is not a JSON document.  The decoder calls the hook on
    the object as soon as it is complete, before it meets the second
    brace; [int] refuses the key [red] with a [ValueError], which the
    handler of the decoding errors does not catch: the dependency raises
    that [ValueError], whatever the type of colormap asked for, where the
    error 400 with the detail [Could not parse the colormap value.] is
    due. *)
Theorem malformed_colormap_not_rejected (cmap : ColorMaps) (ty : ColorMapType) :
  malformed Fixture.stray_brace
  /\ loads object_hook Fixture.stray_brace = Raise ValueError
  /\ @ColorMapParams cmap None (Some Fixture.stray_brace) ty = Raise ValueError
  /\ @ColorMapParams cmap None (Some Fixture.stray_brace) ty <> Raise unparsable.
Proof.
  assert (Hl : loads object_hook Fixture.stray_brace = Raise ValueError)
    by (vm_compute; reflexivity).
  assert (Hc : @ColorMapParams cmap None (Some Fixture.stray_brace) ty = Raise ValueError).
  { unfold ColorMapParams, decode. rewrite Hl. reflexivity. }
  split; [vm_compute; reflexivity|]. split; [exact Hl|]. split; [exact Hc|].
  rewrite Hc. discriminate.
Qed.

End ColormapClaims.

(* ===================================================================== *)
(** * Further properties of the item cache *)
(* ===================================================================== *)

Section CacheStores.
Context {K : Type} `{EqDecision K} {V : Type}.
Implicit Types (c : TTL.TTLCache K V) (k : K).

(** What [setitem] leaves linked: the new link, and links that were
    there. *)
Lemma setitem_find time k (v : V) c c' k' v' e' :
  TTL.wf c -> TTL.setitem time k v c = TTL.Stored c' ->
  TTL.find k' (TTL.links c') = Some (v', e') ->
  (k' = k /\ v' = v /\ e' = time + TTL.ttl c)
  \/ (k' <> k /\ TTL.find k' (TTL.links c) = Some (v', e')).
Proof.
  intros Hwf Hset Hfind.
  destruct (Z_lt_le_dec (TTL.maxsize c) 1) as [Hs|Hs].
  { rewrite setitem_small in Hset by assumption. discriminate. }
  destruct (setitem_spec time k v c Hwf Hs) as (c2 & Heq & _ & _ & _ & _ & Hshape).
  rewrite Heq in Hset. inversion Hset; subst c'; clear Hset. simpl in Hfind.
  rewrite find_app in Hfind.
  destruct (decide (k' = k)) as [->|Hne].
  - rewrite find_remove_eq in Hfind. simpl in Hfind.
    rewrite decide_True in Hfind by reflexivity. inversion Hfind; subst. auto.
  - right. split; [exact Hne|].
    rewrite find_remove_ne in Hfind by assumption.
    destruct (TTL.find k' (TTL.links c2)) as [x|] eqn:E.
    + inversion Hfind; subst x; clear Hfind.
      destruct (expire_links time c) as (_ & _ & _ & Hsub & _).
      apply Hsub.
      destruct Hshape as [<- | (_ & k0 & x & r & _ & _ & Hl)]; [exact E|].
      rewrite Hl in E. eapply find_remove_Some, E.
    + simpl in Hfind. rewrite decide_False in Hfind by congruence. discriminate.
Qed.

Lemma getitem_find now k c k' x :
  TTL.wf c ->
  TTL.find k' (TTL.links (snd (TTL.getitem now k c))) = Some x ->
  TTL.find k' (TTL.links c) = Some x.
Proof.
  intros [Hnd _]. destruct (getitem_cache now k c) as [-> | ->]; [auto|].
  simpl. rewrite find_move_to_end by assumption. auto.
Qed.

Lemma getitem_Some now k c v :
  fst (TTL.getitem now k c) = Some v ->
  exists e, TTL.find k (TTL.links c) = Some (v, e) /\ now < e.
Proof.
  unfold TTL.getitem. destruct (TTL.find k (TTL.links c)) as [[w e]|]; [|discriminate].
  destruct (now <? e) eqn:Hlt; [|discriminate]. simpl.
  intros Heq. inversion Heq; subst. exists e. split; [reflexivity | apply Z.ltb_lt, Hlt].
Qed.

Lemma getitem_None now k c :
  fst (TTL.getitem now k c) = None ->
  forall v e, TTL.find k (TTL.links c) = Some (v, e) -> e <= now.
Proof.
  unfold TTL.getitem. intros Hg v e E. rewrite E in Hg.
  destruct (now <? e) eqn:Hlt; [discriminate|]. apply Z.ltb_ge, Hlt.
Qed.

End CacheStores.

Section ItemExtras.
Import Items Clock.
Context {library : Pystac}.
Implicit Types (p : process) (pool : ConnectionPool).

Lemma run_snoc p calls cl : run p (calls ++ [cl]) = do_call (run p calls) cl.
Proof. unfold run. rewrite fold_left_app. reflexivity. Qed.

Lemma wf_started maxsize ttl calls :
  TTL.wf (cache (run (start maxsize ttl) calls))
  /\ TTL.maxsize (cache (run (start maxsize ttl) calls)) = maxsize
  /\ TTL.ttl (cache (run (start maxsize ttl) calls)) = ttl.
Proof. apply (wf_run calls (start maxsize ttl)), wf_start. Qed.

(** What a call answers, and what it leaves. *)
Lemma get_stac_item_cases now later pool collection item p :
  TTL.wf (cache p) ->
  let k := hashkey collection item in
  let out := get_stac_item now later pool collection item p in
  (exists v e, TTL.find k (TTL.links (cache p)) = Some (v, e) /\ now < e
               /\ fst out = Ok v /\ sent (snd out) = sent p
               /\ cache (snd out) = snd (TTL.getitem now k (cache p)))
  \/ (fst (TTL.getitem now k (cache p)) = None
      /\ fst out = fetch_stac_item pool collection item
      /\ sent (snd out) = sent p ++ [(conninfo pool, (collection, item))]
      /\ match fetch_stac_item pool collection item with
         | Raise _ => cache (snd out) = snd (TTL.getitem now k (cache p))
         | Ok v =>
             TTL.setitem later k v (snd (TTL.getitem now k (cache p)))
             = TTL.Stored (cache (snd out))
             \/ (TTL.maxsize (cache p) < 1
                 /\ cache (snd out) = TTL.expire later (snd (TTL.getitem now k (cache p))))
         end).
Proof.
  intros Hwf k out. subst out. unfold get_stac_item. fold k.
  pose proof (wf_getitem now k (cache p) Hwf) as (Hwfg & Hmg & _).
  destruct (TTL.getitem now k (cache p)) as [[w|] c] eqn:Eg; simpl in *.
  - left. destruct (getitem_Some now k (cache p) w) as (e & Hf & Hlt);
      [rewrite Eg; reflexivity|].
    exists w, e. repeat split; assumption.
  - right. split; [reflexivity|].
    destruct (fetch_stac_item pool collection item) as [v|err]; simpl;
      [|repeat split].
    destruct (Z_lt_le_dec (TTL.maxsize c) 1) as [Hsmall|Hbig].
    + rewrite setitem_small in * by assumption. simpl.
      repeat split. right. split; [lia | reflexivity].
    + destruct (setitem_spec later k v c Hwfg Hbig) as (c2 & -> & _). simpl.
      repeat split. left. reflexivity.
Qed.

(** X1: whatever the settings of the cache and whatever is called,
    [get_stac_item] never holds more items than its cache has room for, and
    never two under one key; the settings themselves do not change. *)
Theorem item_cache_stays_bounded (maxsize ttl : Z) (calls : list call) :
  NoDup (map fst (TTL.links (cache (run (start maxsize ttl) calls))))
  /\ Z.of_nat (length (TTL.links (cache (run (start maxsize ttl) calls))))
     <= Z.max maxsize 0
  /\ TTL.maxsize (cache (run (start maxsize ttl) calls)) = maxsize
  /\ TTL.ttl (cache (run (start maxsize ttl) calls)) = ttl.
Proof.
  destruct (wf_started maxsize ttl calls) as ([Hnd Hlen] & Hm & Ht).
  rewrite Hm in Hlen. auto.
Qed.



(** A lookup that misses is followed by misses: in the cache that it
    leaves, the key has no live link at that time or later. *)
Lemma getitem_miss_again now now' (k : string * string) (c : TTL.TTLCache (string * string) Item) :
  TTL.wf c -> fst (TTL.getitem now k c) = None -> now <= now' ->
  fst (TTL.getitem now' k (snd (TTL.getitem now k c))) = None.
Proof.
  intros Hwf Hmiss Hle.
  destruct (TTL.find k (TTL.links c)) as [[v e]|] eqn:E.
  - pose proof (getitem_None now k c Hmiss v e E) as He.
    rewrite (getitem_expired now k v e c E He). simpl.
    erewrite getitem_expired; [reflexivity| |].
    + simpl. rewrite find_move_to_end by apply Hwf. exact E.
    + lia.
  - rewrite (getitem_absent now k c E). simpl.
    rewrite (getitem_absent now' k c E). reflexivity.
Qed.

(** X3: a failure is not remembered.  After a call that has failed, the
    next call for the same collection and item, at that time or later, asks
    the catalogue again and answers what it says now. *)
Theorem not_found_is_not_remembered (maxsize ttl : Z) (calls : list call)
  (now later now' later' : Z) (pool pool' : ConnectionPool)
  (collection item : string) (e : exn) :
  let p := run (start maxsize ttl) calls in
  let p' := snd (get_stac_item now later pool collection item p) in
  fst (get_stac_item now later pool collection item p) = Raise e ->
  now <= now' ->
  fst (get_stac_item now' later' pool' collection item p')
  = fetch_stac_item pool' collection item
  /\ sent (snd (get_stac_item now' later' pool' collection item p'))
     = sent p' ++ [(conninfo pool', (collection, item))].
Proof.
  intros p p' Hfail Hle.
  destruct (wf_started maxsize ttl calls) as (Hwf & _). fold p in Hwf.
  pose proof (wf_get_stac_item now later pool collection item p Hwf) as (Hwf' & _).
  fold p' in Hwf'.
  assert (Hmiss : fst (TTL.getitem now' (hashkey collection item) (cache p')) = None).
  { destruct (get_stac_item_cases now later pool collection item p Hwf)
      as [(v & e' & _ & _ & Hok & _) | (Hnone & Hout & _ & Hcache)].
    - rewrite Hfail in Hok. discriminate.
    - rewrite Hfail in Hout. rewrite <- Hout in Hcache. fold p' in Hcache.
      rewrite Hcache. apply getitem_miss_again; assumption. }
  split.
  - apply get_stac_item_uncached; assumption.
  - apply get_stac_item_miss, Hmiss.
Qed.

Lemma fetched_by_do_call seen p cl :
  TTL.wf (cache p) -> fetched_by seen (cache p) ->
  fetched_by (seen ++ [cl]) (cache (do_call p cl)).
Proof.
  intros Hwf Hinv. unfold do_call.
  pose proof (wf_getitem (c_now cl) (call_key cl) (cache p) Hwf) as (Hwfg & _).
  assert (Hold : forall k v e,
             TTL.find k (TTL.links (snd (TTL.getitem (c_now cl) (call_key cl) (cache p))))
             = Some (v, e) ->
             exists cl0, In cl0 (seen ++ [cl]) /\ call_key cl0 = k
                         /\ fetch_stac_item (c_pool cl0) (c_collection cl0) (c_item cl0) = Ok v).
  { intros k v e Hf. apply getitem_find in Hf; [|exact Hwf].
    destruct (Hinv k v e Hf) as (cl0 & Hin & Hk & Hv).
    exists cl0. split; [apply in_or_app; left; exact Hin | auto]. }
  destruct (get_stac_item_cases (c_now cl) (c_later cl) (c_pool cl)
              (c_collection cl) (c_item cl) p Hwf)
    as [(v & e' & _ & _ & _ & _ & Hcache) | (_ & _ & _ & Hcache)].
  - rewrite Hcache. exact Hold.
  - destruct (fetch_stac_item (c_pool cl) (c_collection cl) (c_item cl)) as [v|err] eqn:Ef.
    + destruct Hcache as [Hstored | [_ Hcache]].
      * intros k w e Hf.
        destruct (setitem_find _ _ _ _ _ _ _ _ Hwfg Hstored Hf) as [(-> & -> & _) | [_ Hf']].
        -- exists cl. split; [apply in_or_app; right; left; reflexivity | auto].
        -- eapply Hold, Hf'.
      * rewrite Hcache. intros k w e Hf.
        destruct (expire_links (c_later cl)
                    (snd (TTL.getitem (c_now cl) (call_key cl) (cache p))))
          as (_ & _ & _ & Hsub & _).
        eapply Hold, Hsub, Hf.
    + rewrite Hcache. exact Hold.
Qed.

Lemma fetched_by_started maxsize ttl calls :
  fetched_by calls (cache (run (start maxsize ttl) calls)).
Proof.
  induction calls as [|cl calls IH] using rev_ind.
  - intros k v e Hf. discriminate Hf.
  - rewrite run_snoc. apply fetched_by_do_call; [apply wf_started | exact IH].
Qed.

(** X4: an item that [get_stac_item] answers is what the catalogue gave
    for that very collection and item, to this call or to an earlier one:
    the cache never answers under one key what was fetched under
    another. *)
Theorem served_item_was_fetched_for_its_key (maxsize ttl : Z) (calls : list call)
  (now later : Z) (pool : ConnectionPool) (collection item : string) (v : Item) :
  fst (get_stac_item now later pool collection item (run (start maxsize ttl) calls)) = Ok v ->
  fetch_stac_item pool collection item = Ok v
  \/ exists cl, In cl calls
                /\ c_collection cl = collection /\ c_item cl = item
                /\ fetch_stac_item (c_pool cl) collection item = Ok v.
Proof.
  intros Hok.
  destruct (wf_started maxsize ttl calls) as (Hwf & _).
  destruct (get_stac_item_cases now later pool collection item _ Hwf)
    as [(w & e & Hf & _ & Hout & _) | (_ & Hout & _)].
  - right. rewrite Hok in Hout. inversion Hout; subst w.
    destruct (fetched_by_started maxsize ttl calls _ _ _ Hf) as (cl & Hin & Hk & Hv).
    unfold call_key, hashkey in Hk. injection Hk as Hc Hi.
    exists cl. rewrite Hc, Hi in Hv. auto.
  - left. congruence.
Qed.

(** X5: a cache set up without room (a size of zero or less) stores
    nothing: every call sends its search, and answers what the catalogue
    says. *)
Theorem cache_without_room_stores_nothing (maxsize ttl : Z) (calls : list call) :
  maxsize <= 0 ->
  run (start maxsize ttl) calls
  = {| cache := TTL.empty maxsize ttl;
       sent := all_sent calls |}
  /\ forall now later pool collection item,
       fst (get_stac_item now later pool collection item (run (start maxsize ttl) calls))
       = fetch_stac_item pool collection item.
Proof.
  intros Hmax.
  assert (Hstep : forall p now later pool collection item,
             cache p = TTL.empty maxsize ttl ->
             get_stac_item now later pool collection item p
             = (fetch_stac_item pool collection item,
                {| cache := TTL.empty maxsize ttl;
                   sent := sent p ++ [(conninfo pool, (collection, item))] |})).
  { intros p now later pool collection item Hc. unfold get_stac_item. rewrite Hc.
    simpl. destruct (fetch_stac_item pool collection item) as [v|err]; [|reflexivity].
    unfold TTL.setitem. simpl.
    destruct (maxsize <? 1) eqn:Hs; [reflexivity|]. apply Z.ltb_ge in Hs. lia. }
  assert (Hrun : run (start maxsize ttl) calls
                 = {| cache := TTL.empty maxsize ttl; sent := all_sent calls |}).
  { induction calls as [|cl calls IH] using rev_ind; [reflexivity|].
    rewrite run_snoc, IH. unfold do_call. rewrite Hstep by reflexivity. simpl.
    unfold all_sent. rewrite map_app. reflexivity. }
  split; [exact Hrun|].
  intros now later pool collection item. rewrite Hrun, Hstep by reflexivity. reflexivity.
Qed.


(** Every link has expired by [t]. *)
Lemma do_call_all_expired p cl t :
  TTL.wf (cache p) -> TTL.ttl (cache p) <= 0 ->
  (forall k v e, TTL.find k (TTL.links (cache p)) = Some (v, e) -> e <= t) ->
  t <= c_now cl -> c_now cl <= c_later cl ->
  sent (do_call p cl) = sent p ++ [(conninfo (c_pool cl), (c_collection cl, c_item cl))]
  /\ (forall k v e, TTL.find k (TTL.links (cache (do_call p cl))) = Some (v, e) ->
        e <= c_later cl).
Proof.
  intros Hwf Httl Hexp Hnow Hlater. unfold do_call.
  pose proof (wf_getitem (c_now cl) (call_key cl) (cache p) Hwf) as (Hwfg & _ & Htg).
  assert (Hold : forall k v e,
             TTL.find k (TTL.links (snd (TTL.getitem (c_now cl) (call_key cl) (cache p))))
             = Some (v, e) -> e <= c_later cl).
  { intros k v e Hf. apply getitem_find in Hf; [|exact Hwf].
    specialize (Hexp k v e Hf). lia. }
  destruct (get_stac_item_cases (c_now cl) (c_later cl) (c_pool cl)
              (c_collection cl) (c_item cl) p Hwf)
    as [(v & e' & Hf & Hlt & _) | (_ & _ & Hsent & Hcache)].
  { specialize (Hexp _ _ _ Hf). lia. }
  split; [exact Hsent|].
  destruct (fetch_stac_item (c_pool cl) (c_collection cl) (c_item cl)) as [v|err].
  - destruct Hcache as [Hstored | [_ Hcache]].
    + intros k w e Hf.
      destruct (setitem_find _ _ _ _ _ _ _ _ Hwfg Hstored Hf) as [(_ & _ & ->) | [_ Hf']].
      * rewrite Htg. lia.
      * eapply Hold, Hf'.
    + rewrite Hcache. intros k w e Hf.
      destruct (expire_links (c_later cl)
                  (snd (TTL.getitem (c_now cl) (call_key cl) (cache p))))
        as (_ & _ & _ & Hsub & _).
      eapply Hold, Hsub, Hf.
  - rewrite Hcache. exact Hold.
Qed.

Lemma run_all_expired calls : forall p t,
  TTL.wf (cache p) -> TTL.ttl (cache p) <= 0 ->
  (forall k v e, TTL.find k (TTL.links (cache p)) = Some (v, e) -> e <= t) ->
  in_order t calls ->
  sent (run p calls) = sent p ++ all_sent calls.
Proof.
  induction calls as [|cl calls IH]; intros p t Hwf Httl Hexp Hord; simpl.
  - rewrite app_nil_r. reflexivity.
  - destruct Hord as (Hnow & Hlater & Hord).
    destruct (do_call_all_expired p cl t Hwf Httl Hexp Hnow Hlater) as [Hsent Hexp'].
    pose proof (wf_get_stac_item (c_now cl) (c_later cl) (c_pool cl)
                  (c_collection cl) (c_item cl) p Hwf) as (Hwf' & _ & Ht').
    fold (do_call p cl) in Hwf', Ht'.
    rewrite (IH (do_call p cl) (c_later cl)); try assumption; [|lia].
    rewrite Hsent, <- app_assoc. reflexivity.
Qed.

(** X6: with a time-to-live of zero or less, and a clock that does not
    run back, an item has expired as soon as it is stored: every call
    sends its search. *)
Theorem cache_without_ttl_answers_nothing (maxsize ttl t : Z) (calls : list call) :
  ttl <= 0 -> in_order t calls ->
  sent (run (start maxsize ttl) calls) = all_sent calls.
Proof.
  intros Httl Hord.
  apply (run_all_expired calls (start maxsize ttl) t); try assumption.
  - apply wf_start.
  - intros k v e Hf. discriminate Hf.
Qed.

End ItemExtras.

(* ===================================================================== *)
(** * What the decoder answers, and what it refuses *)
(* ===================================================================== *)

Section DecoderValues.
Import JSON Shape.
Variable h : list (string * pyval) -> result pyval.

Lemma scan_number_literal s v r : scan_number s = Some (Ok (v, r)) -> literal v.
Proof.
  unfold scan_number.
  destruct (scan_sign s) as [negative s1].
  destruct (scan_int s1) as [[|d ds] s2]; [discriminate|].
  destruct (scan_frac s2) as [frac s3].
  destruct (scan_exp s3) as [expo s4].
  destruct frac, expo; try (intros Heq; inversion Heq; exact I).
  destruct (int_max_str_digits <? _)%nat; intros Heq; inversion Heq; exact I.
Qed.

Lemma scan_literal_literal s v r : scan_literal s = Ok (v, r) -> literal v.
Proof.
  unfold scan_literal.
  destruct (starts_with (codes "null") s); [intros Heq; inversion Heq; exact I|].
  destruct (starts_with (codes "true") s); [intros Heq; inversion Heq; exact I|].
  destruct (starts_with (codes "false") s); [intros Heq; inversion Heq; exact I|].
  destruct (scan_number s) as [res|] eqn:En.
  { intros Heq. subst res. eapply scan_number_literal, En. }
  destruct (starts_with (codes "NaN") s); [intros Heq; inversion Heq; exact I|].
  destruct (starts_with (codes "Infinity") s); [intros Heq; inversion Heq; exact I|].
  destruct (starts_with (codes "-Infinity") s); [intros Heq; inversion Heq; exact I|].
  discriminate.
Qed.

(** An array is decoded as a list, an object as what the hook makes of
    it. *)
Lemma items_value fuel :
  (forall depth s acc v r,
      array_items h fuel depth s acc = Ok (v, r) -> exists l, v = PList l)
  /\ (forall depth s acc v r,
        object_items h fuel depth s acc = Ok (v, r) -> exists x, h x = Ok v).
Proof.
  induction fuel as [|fuel (IH2 & IH3)].
  - split; intros; discriminate.
  - split.
    + intros depth s acc v r. simpl.
      destruct (scan_once h fuel depth s) as [[v0 r0]|e]; [|discriminate].
      destruct (skip_ws r0) as [|c r']; [discriminate|].
      destruct (c =? 93); [intros Heq; inversion Heq; eauto|].
      destruct (c =? 44); [|discriminate]. apply IH2.
    + intros depth s acc v r. simpl.
      destruct (scanstring (length s) s []) as [[key r0]|e]; [|discriminate].
      destruct (skip_ws r0) as [|c r1]; [discriminate|].
      destruct (c =? 58); [|discriminate].
      destruct (scan_once h fuel depth (skip_ws r1)) as [[v0 r2]|e]; [|discriminate].
      destruct (skip_ws r2) as [|c2 r3]; [discriminate|].
      destruct (c2 =? 125).
      { destruct (h _) as [o|e] eqn:Eh; [|discriminate].
        intros Heq. inversion Heq; subst. eauto. }
      destruct (c2 =? 44); [|discriminate].
      destruct (skip_ws r3) as [|c4 r4]; [discriminate|].
      destruct (c4 =? 34); [|discriminate]. apply IH3.
Qed.

(** What one value of the text is decoded as. *)
Lemma scan_once_value fuel depth s v r :
  scan_once h fuel depth s = Ok (v, r) ->
  (exists x, h x = Ok v)
  \/ (exists str, v = PStr str /\ forall h', scan_once h' fuel depth s = Ok (v, r))
  \/ (exists l, v = PList l)
  \/ (literal v /\ forall h', scan_once h' fuel depth s = Ok (v, r)).
Proof.
  destruct fuel as [|fuel]; simpl; [discriminate|].
  destruct s as [|c s]; [discriminate|].
  destruct (c =? 34).
  { destruct (scanstring (length s) s []) as [[str r']|e]; [|discriminate].
    intros Heq. inversion Heq; subst. right. left. exists str. split; reflexivity. }
  destruct (c =? 123).
  { destruct depth as [|depth]; [discriminate|].
    destruct (skip_ws s) as [|c' r']; [discriminate|].
    destruct (c' =? 125).
    - destruct (h []) as [o|e] eqn:Eh; [|discriminate].
      intros Heq. inversion Heq; subst. eauto.
    - destruct (c' =? 34); [|discriminate].
      intros Heq. left. eapply (proj2 (items_value fuel)), Heq. }
  destruct (c =? 91).
  { destruct depth as [|depth]; [discriminate|].
    intros Heq. right. right. left.
    destruct (skip_ws s) as [|c' r'].
    - eapply (proj1 (items_value fuel)), Heq.
    - destruct (c' =? 93); [inversion Heq; eauto|].
      eapply (proj1 (items_value fuel)), Heq. }
  intros Heq. right. right. right. split; [eapply scan_literal_literal, Heq|].
  intros h'. exact Heq.
Qed.

Lemma loads_value s v :
  loads h s = Ok v ->
  (exists x, h x = Ok v)
  \/ (exists str, v = PStr str /\ forall h', loads h' s = Ok v)
  \/ (exists l, v = PList l)
  \/ (literal v /\ forall h', loads h' s = Ok v).
Proof.
  unfold loads.
  destruct (scan_once h _ _ _) as [[v0 r]|e] eqn:E; [|discriminate].
  destruct (skip_ws r) eqn:Er; [|discriminate].
  intros Heq. inversion Heq; subst v0; clear Heq.
  destruct (scan_once_value _ _ _ _ _ E) as [Hx | [(str & Hs & Hx) | [Hx | [Hl Hx]]]]; auto.
  - right. left. exists str. split; [exact Hs|].
    intros h'. rewrite Hx, Er. reflexivity.
  - right. right. right. split; [exact Hl|].
    intros h'. rewrite Hx, Er. reflexivity.
Qed.

End DecoderValues.

Section DecoderRejects.
Import JSON.

(** Two hooks, the second of which never fails, and an error that the
    first never raises: a text that the decoder refuses with that error
    under the first, it refuses with the same error under the second. *)
Variables h1 h2 : list (string * pyval) -> result pyval.
Variable err : exn.
Hypothesis h1_error : forall x, h1 x <> Raise err.
Hypothesis h2_total : forall x, exists v, h2 x = Ok v.

Lemma decoder_rejects fuel :
  (forall depth s, scan_once h1 fuel depth s = Raise err ->
                   scan_once h2 fuel depth s = Raise err)
  /\ (forall depth s acc acc', array_items h1 fuel depth s acc = Raise err ->
                               array_items h2 fuel depth s acc' = Raise err)
  /\ (forall depth s acc acc', object_items h1 fuel depth s acc = Raise err ->
                               object_items h2 fuel depth s acc' = Raise err).
Proof.
  induction fuel as [|fuel (IH1 & IH2 & IH3)].
  - repeat split; intros; assumption.
  - pose proof (decoder_accepts h1 h2 h2_total fuel) as (A1 & A2 & A3).
    split; [|split].
    + intros depth s. simpl. destruct s as [|c s]; [auto|].
      destruct (c =? 34); [auto|].
      destruct (c =? 123).
      { destruct depth as [|depth]; [auto|].
        destruct (skip_ws s) as [|c' r']; [auto|].
        destruct (c' =? 125).
        - destruct (h1 []) as [o|e] eqn:Eh; [discriminate|].
          intros Heq. inversion Heq; subst. exfalso. eapply h1_error, Eh.
        - destruct (c' =? 34); [|auto]. apply IH3. }
      destruct (c =? 91).
      { destruct depth as [|depth]; [auto|].
        destruct (skip_ws s) as [|c' r']; [apply IH2|].
        destruct (c' =? 93); [discriminate | apply IH2]. }
      auto.
    + intros depth s acc acc'. simpl.
      destruct (scan_once h1 fuel depth s) as [[v0 r0]|e] eqn:E.
      * destruct (A1 _ _ _ _ E) as [v0' ->].
        destruct (skip_ws r0) as [|c r']; [auto|].
        destruct (c =? 93); [discriminate|].
        destruct (c =? 44); [|auto]. apply IH2.
      * intros Heq. inversion Heq; subst. rewrite (IH1 _ _ E). reflexivity.
    + intros depth s acc acc'. simpl.
      destruct (scanstring (length s) s []) as [[key r0]|e]; [|auto].
      destruct (skip_ws r0) as [|c r1]; [auto|].
      destruct (c =? 58); [|auto].
      destruct (scan_once h1 fuel depth (skip_ws r1)) as [[v0 r2]|e] eqn:E.
      * destruct (A1 _ _ _ _ E) as [v0' ->].
        destruct (skip_ws r2) as [|c2 r3]; [auto|].
        destruct (c2 =? 125).
        { destruct (h1 _) as [o|e] eqn:Eh; [discriminate|].
          intros Heq. inversion Heq; subst. exfalso. eapply h1_error, Eh. }
        destruct (c2 =? 44); [|auto].
        destruct (skip_ws r3) as [|c4 r4]; [auto|].
        destruct (c4 =? 34); [|auto]. apply IH3.
      * intros Heq. inversion Heq; subst. rewrite (IH1 _ _ E). reflexivity.
Qed.

Lemma loads_rejects s :
  loads h1 s = Raise err -> loads h2 s = Raise err.
Proof.
  unfold loads.
  destruct (scan_once h1 _ _ _) as [[v0 r]|e] eqn:E.
  - destruct (proj1 (decoder_accepts h1 h2 h2_total _) _ _ _ _ E) as [v0' ->].
    destruct (skip_ws r); [discriminate | auto].
  - intros Heq. inversion Heq; subst.
    rewrite (proj1 (decoder_rejects _) _ _ E). reflexivity.
Qed.

End DecoderRejects.

(* ===================================================================== *)
(** * Further properties of [ColorMapParams] *)
(* ===================================================================== *)

Section ColormapExtras.
Import JSON Colormap Shape.

Lemma parse_color_colour v c : parse_color v = Ok c -> colour c.
Proof.
  assert (Hseq : forall l : list pyval,
             (if (4 <? length l)%nat || (length l <? 3)%nat
              then Raise InvalidColorFormat
              else Ok (PTuple (if (length l =? 3)%nat then l ++ [PInt 255] else l)))
             = Ok c -> colour c).
  { intros l. destruct ((4 <? length l)%nat || (length l <? 3)%nat) eqn:Hn; [discriminate|].
    apply orb_false_iff in Hn as [H4 H3].
    apply Nat.ltb_ge in H4, H3.
    intros H. inversion H; subst c. eexists. split; [reflexivity|].
    destruct (length l =? 3)%nat eqn:E3.
    - apply Nat.eqb_eq in E3. rewrite length_app, E3. reflexivity.
    - apply Nat.eqb_neq in E3. lia. }
  unfold parse_color. destruct v; try discriminate; try apply Hseq.
  destruct (parse_hex s); [apply Hseq | discriminate].
Qed.

Lemma dict_set_keys {B} (k : Z) (v : B) d :
  NoDup (map fst d) -> NoDup (map fst (dict_set Z.eqb k v d))
  /\ forall k', k' ∈ map fst (dict_set Z.eqb k v d) -> k' = k \/ k' ∈ map fst d.
Proof.
  induction d as [|[k0 v0] r IH]; simpl; intros Hnd.
  - split; [apply NoDup_singleton|]. intros k' Hin.
    apply list_elem_of_singleton in Hin. auto.
  - apply NoDup_cons in Hnd as [Hni Hnd].
    destruct (Z.eqb k k0) eqn:E; simpl.
    + apply Z.eqb_eq in E. subst k0. split.
      * apply NoDup_cons. auto.
      * intros k' Hin. right. exact Hin.
    + destruct (IH Hnd) as [IHnd IHin]. split.
      * apply NoDup_cons. split; [|exact IHnd].
        intros Hin. apply IHin in Hin as [->|Hin]; [|contradiction].
        rewrite Z.eqb_refl in E. discriminate.
      * intros k' Hin. inversion Hin; subst.
        -- right. apply list_elem_of_here.
        -- apply IHin in H1 as [->|H1]; [auto|].
           right. apply list_elem_of_further, H1.
Qed.

Lemma dict_set_Forall {B} (P : Z * B -> Prop) (k : Z) (v : B) d :
  P (k, v) -> Forall P d -> Forall P (dict_set Z.eqb k v d).
Proof.
  intros Hk. induction d as [|[k0 v0] r IH]; simpl; intros Hall.
  - apply List.Forall_cons; [exact Hk | apply List.Forall_nil].
  - inversion Hall; subst.
    destruct (Z.eqb k k0); apply List.Forall_cons; auto.
Qed.

(** The hook answers a dictionary: no key twice, a colour under each. *)
Lemma hook_items_shape items : forall acc v,
  NoDup (map fst acc) -> Forall (fun m => colour (snd m)) acc ->
  hook_items items acc = Ok v ->
  exists kv, v = PMap kv /\ NoDup (map fst kv) /\ Forall (fun m => colour (snd m)) kv.
Proof.
  induction items as [|[k x] r IH]; simpl; intros acc v Hnd Hall.
  - intros H. inversion H; subst. eauto.
  - destruct (py_int k) as [n|e]; [|discriminate].
    destruct (parse_color x) as [c|e] eqn:Ec; [|discriminate].
    apply IH.
    + apply dict_set_keys, Hnd.
    + apply dict_set_Forall; [|exact Hall]. simpl. eapply parse_color_colour, Ec.
Qed.

Lemma object_hook_shape x v :
  object_hook x = Ok v ->
  exists kv, v = PMap kv /\ NoDup (map fst kv) /\ Forall (fun m => colour (snd m)) kv.
Proof.
  apply hook_items_shape; [apply NoDup_nil_2 | apply List.Forall_nil].
Qed.

Lemma intervals_shape items : forall l, intervals items = Ok l -> Forall interval l.
Proof.
  induction items as [|x r IH]; simpl; intros l.
  - intros H. inversion H. apply List.Forall_nil.
  - destruct (iterate x) as [[|a [|b [|c t]]]|]; try discriminate.
    destruct (iterate a) as [bounds|]; [|discriminate].
    destruct (parse_color b) as [col|e] eqn:Ec; [|discriminate].
    destruct (intervals r) as [rest|e]; [|discriminate].
    intros H. inversion H; subst. apply List.Forall_cons; [|apply IH; reflexivity].
    exists bounds, col. split; [reflexivity | eapply parse_color_colour, Ec].
Qed.

Lemma intervals_raises items e : intervals items = Raise e -> conversion_error e.
Proof.
  induction items as [|x r IH]; simpl; [discriminate|].
  destruct (iterate x) as [[|a [|b [|c t]]]|];
    try (intros H; inversion H; unfold conversion_error; tauto).
  destruct (iterate a) as [bounds|];
    [|intros H; inversion H; unfold conversion_error; tauto].
  destruct (parse_color b) as [col|e'] eqn:Ec.
  - destruct (intervals r) as [rest|e']; [discriminate|].
    intros H. inversion H; subst. apply IH. reflexivity.
  - intros H. inversion H; subst. eapply parse_color_raises, Ec.
Qed.

Lemma conversion_error_not_decoding e : conversion_error e -> e <> JSONDecodeError.
Proof. intros [-> | [-> | [-> | ->]]]; discriminate. Qed.

Lemma conversion_error_not_http e st d : conversion_error e -> e <> HTTPException st d.
Proof. intros [-> | [-> | [-> | ->]]]; discriminate. Qed.

Lemma object_hook_error x : object_hook x <> Raise JSONDecodeError.
Proof.
  intros H. apply object_hook_raises in H.
  eapply conversion_error_not_decoding; [exact H | reflexivity].
Qed.

(** What [decode] raises: the decoding error of a text that is not a JSON
    document, the error of a conversion (that of an integer of too many
    digits is one), or the refusal of a nesting too deep. *)
Lemma decode_raises s e :
  decode s = Raise e ->
  (e = JSONDecodeError /\ malformed s) \/ conversion_error e \/ e = RecursionError.
Proof.
  unfold decode. destruct (loads object_hook s) as [cm|e0] eqn:El.
  - destruct (sequence_items cm) as [items|]; [|discriminate].
    destruct (intervals items) as [l|e0] eqn:Ei; [discriminate|].
    intros Heq. inversion Heq; subst. right. left. eapply intervals_raises, Ei.
  - intros Heq. inversion Heq; subst e0.
    destruct (loads_raises object_hook _ _ El) as [-> | [-> | [-> | [x Hx]]]].
    + left. split; [reflexivity|]. unfold malformed.
      apply (loads_rejects object_hook plain JSONDecodeError object_hook_error);
        [|exact El].
      intros y. unfold plain. eauto.
    + right. left. left. reflexivity.
    + right. right. reflexivity.
    + right. left. eapply object_hook_raises, Hx.
Qed.

Lemma in_dict_set {B} (n k : Z) (c v : B) d :
  NoDup (map fst d) ->
  In (n, c) (dict_set Z.eqb k v d) <-> (n = k /\ c = v) \/ (n <> k /\ In (n, c) d).
Proof.
  induction d as [|[k0 v0] r IH]; simpl; intros Hnd.
  - split.
    + intros [H|[]]. inversion H. auto.
    + intros [[-> ->] | [_ []]]. auto.
  - apply NoDup_cons in Hnd as [Hni Hnd].
    destruct (Z.eqb k k0) eqn:E; simpl.
    + apply Z.eqb_eq in E. subst k0. split.
      * intros [H|H]; [inversion H; auto|]. right. split; [|auto].
        intros ->. apply Hni, list_elem_of_In, in_map_iff. exists (k, c). auto.
      * intros [[-> ->] | [Hne [H|H]]]; auto. inversion H. congruence.
    + apply Z.eqb_neq in E. rewrite (IH Hnd). split.
      * intros [H | [H | [Hne H]]]; auto. inversion H; subst. right. auto.
      * intros [H | [Hne [H|H]]]; auto.
Qed.

(** The dictionary that the hook builds, entry by entry: under each
    integer, the colour of the last key of the object that reads as that
    integer. *)
Lemma hook_items_spec items : forall acc kv,
  NoDup (map fst acc) -> hook_items items acc = Ok (PMap kv) ->
  forall n c,
    In (n, c) kv <->
    (exists x1 k v x2,
        items = x1 ++ (k, v) :: x2 /\ py_int k = Ok n /\ parse_color v = Ok c
        /\ forall m, In m x2 -> py_int (fst m) <> Ok n)
    \/ ((forall m, In m items -> py_int (fst m) <> Ok n) /\ In (n, c) acc).
Proof.
  induction items as [|[k0 v0] r IH]; simpl; intros acc kv Hnd.
  - intros H n c. inversion H; subst kv. split.
    + intros Hin. right. split; [intros m []|exact Hin].
    + intros [(x1 & k & v & x2 & Heq & _) | [_ Hin]]; [|exact Hin].
      destruct x1; discriminate.
  - destruct (py_int k0) as [n0|e] eqn:Ek; [|discriminate].
    destruct (parse_color v0) as [c0|e] eqn:Ec; [|discriminate].
    intros H n c. rewrite (IH _ _ (proj1 (dict_set_keys n0 c0 acc Hnd)) H n c).
    rewrite (in_dict_set n n0 c c0 acc Hnd). split.
    + intros [(x1 & k & v & x2 & -> & Hk & Hv & Hlast) | [Hnone [[-> ->] | [Hne Hin]]]].
      * left. exists ((k0, v0) :: x1), k, v, x2. auto.
      * left. exists [], k0, v0, r. auto.
      * right. split; [|exact Hin].
        intros m [<- | Hm]; [simpl; congruence | auto].
    + intros [(x1 & k & v & x2 & Heq & Hk & Hv & Hlast) | [Hnone Hin]].
      * destruct x1 as [|m x1]; simpl in Heq; inversion Heq; subst.
        -- right. split; [exact Hlast|]. left. split; congruence.
        -- left. exists x1, k, v, x2. auto.
      * right. split; [intros m Hm; apply Hnone; auto|].
        right. split; [|exact Hin].
        intros ->. apply (Hnone (k0, v0)); auto.
Qed.

(** X7: the hook of [ColorMapParams] reads the keys of an object with
    [int]; when it succeeds, its dictionary has each integer once, and under
    it the colour parsed from the last entry of the object whose key reads
    as that integer. *)
Theorem hook_keeps_last_colour_of_each_key (x : list (string * pyval))
  (kv : list (Z * pyval)) :
  object_hook x = Ok (PMap kv) ->
  NoDup (map fst kv)
  /\ forall n c,
       In (n, c) kv <->
       exists x1 k v x2,
         x = x1 ++ (k, v) :: x2 /\ py_int k = Ok n /\ parse_color v = Ok c
         /\ forall m, In m x2 -> py_int (fst m) <> Ok n.
Proof.
  intros H. split.
  - apply object_hook_shape in H as (kv' & Heq & Hnd & _). inversion Heq; subst. exact Hnd.
  - intros n c. unfold object_hook in H.
    rewrite (hook_items_spec x [] kv NoDup_nil_2 H n c). split.
    + intros [Hl | [_ []]]. exact Hl.
    + intros Hl. left. exact Hl.
Qed.

Lemma components_raises l e : components l = Raise e -> expansion_error e.
Proof.
  induction l as [|v r IH]; simpl; [discriminate|].
  destruct (over_255 v) as [x|e'] eqn:Ev.
  - destruct (components r) as [xs|e']; [discriminate|].
    intros H. inversion H; subst. apply IH. reflexivity.
  - intros H. inversion H; subst. unfold over_255 in Ev.
    destruct v; inversion Ev; left; reflexivity.
Qed.

Lemma channels_raises l e : channels l = Raise e -> expansion_error e.
Proof.
  induction l as [|v r IH]; simpl; [discriminate|].
  destruct (through_hex v) as [x|e'] eqn:Ev.
  - destruct (channels r) as [xs|e']; [discriminate|].
    intros H. inversion H; subst. apply IH. reflexivity.
  - intros H. inversion H; subst. unfold through_hex in Ev.
    destruct (_ || _)%bool; inversion Ev. right. left. reflexivity.
Qed.

Lemma stops_raises kv e : stops kv = Raise e -> expansion_error e.
Proof.
  induction kv as [|[k rgba] r IH]; simpl; [discriminate|].
  destruct (stop k rgba) as [st|e'] eqn:Es.
  - destruct (stops r) as [l|e']; [discriminate|].
    intros H. inversion H; subst. apply IH. reflexivity.
  - intros H. inversion H; subst. unfold stop in Es.
    destruct (iterate rgba) as [l|]; [|inversion Es; left; reflexivity].
    destruct (components l) as [xs|e'] eqn:Ec;
      [|inversion Es; subst; eapply components_raises, Ec].
    destruct (negb _); [inversion Es; right; left; reflexivity|].
    destruct (channels _) as [ys|e'] eqn:Eh; [discriminate|].
    inversion Es; subst. eapply channels_raises, Eh.
Qed.

Lemma interior_raises xs ys idxs e : interior xs ys idxs = Raise e -> expansion_error e.
Proof.
  induction idxs as [|i r IH]; simpl; [discriminate|].
  destruct (interpolate xs ys i) as [v|e'] eqn:Ei.
  - destruct (interior xs ys r) as [l|e']; [discriminate|].
    intros H. inversion H; subst. apply IH. reflexivity.
  - intros H. inversion H; subst. unfold interpolate in Ei.
    repeat match type of Ei with
           | context [match ?x with _ => _ end] => destruct x
           end;
      inversion Ei; right; right; left; reflexivity.
Qed.

Lemma create_lookup_table_raises x y e :
  create_lookup_table x y = Raise e -> expansion_error e.
Proof.
  unfold create_lookup_table.
  destruct (item x 0), (item x (-1)), (item y 0), (item y (-1));
    try (intros H; inversion H; right; right; left; reflexivity).
  destruct (_ || _)%bool; [intros H; inversion H; right; left; reflexivity|].
  destruct (negb (increasing x)); [intros H; inversion H; right; left; reflexivity|].
  destruct (interior _ _ _) as [mid|e'] eqn:Ei; [discriminate|].
  intros H. inversion H; subst. eapply interior_raises, Ei.
Qed.

Lemma lookup_tables_raises x ys e : lookup_tables x ys = Raise e -> expansion_error e.
Proof.
  induction ys as [|y r IH]; simpl; [discriminate|].
  destruct (create_lookup_table x y) as [lut|e'] eqn:Ec.
  - destruct (lookup_tables x r) as [l|e']; [discriminate|].
    intros H. inversion H; subst. apply IH. reflexivity.
  - intros H. inversion H; subst. eapply create_lookup_table_raises, Ec.
Qed.

Lemma linear_raises cm e : linear cm = Raise e -> expansion_error e.
Proof.
  unfold linear.
  destruct cm; try (intros H; inversion H; right; right; right; reflexivity).
  destruct (stops kv) as [[|st sts]|e'] eqn:Es.
  - intros H. inversion H. right. right. left. reflexivity.
  - destruct (lookup_tables _ _) as [luts|e'] eqn:El; [discriminate|].
    intros H. inversion H; subst. eapply lookup_tables_raises, El.
  - intros H. inversion H; subst. eapply stops_raises, Es.
Qed.

Lemma expansion_error_not_http e st d : expansion_error e -> e <> HTTPException st d.
Proof. intros [-> | [-> | [-> | ->]]]; discriminate. Qed.

(** The dependency case by case, for a text that is not empty. *)
Lemma ColorMapParams_decoded (cmap : ColorMaps) (s : string) (ty : ColorMapType) :
  s <> EmptyString ->
  @ColorMapParams cmap None (Some s) ty
  = match decode s with
    | Raise JSONDecodeError => Raise unparsable
    | Raise e => Raise e
    | Ok cm => match ty with linear_type => linear cm | explicit => Ok cm end
    end.
Proof. destruct s; [contradiction | reflexivity]. Qed.

(** X8: when [ColorMapParams] fails, no name was given and a text that is
    not empty was.  The error 400 is raised only for a text that is not a
    JSON document; any other failure is no HTTP error at all, and for an
    explicit colormap it is the error of a conversion of a key, of a colour
    or of an integer of too many digits, or the [RecursionError] of a text
    nested too deep, raised as it is. *)
Theorem bad_request_only_for_malformed (cmap : ColorMaps)
  (name : option (ColorMapName cmap)) (colormap : option string)
  (ty : ColorMapType) (e : exn) :
  ColorMapParams name colormap ty = Raise e ->
  name = None
  /\ exists s, colormap = Some s /\ s <> EmptyString
     /\ ((e = HTTPException 400 "Could not parse the colormap value." /\ malformed s)
         \/ ((forall status detail, e <> HTTPException status detail)
             /\ e <> JSONDecodeError
             /\ (ty = explicit -> conversion_error e \/ e = RecursionError))).
Proof.
  destruct name as [name|].
  { simpl. destruct (get_registered cmap name) as (cm & _ & ->). discriminate. }
  destruct colormap as [s|]; [|discriminate].
  destruct (string_dec s EmptyString) as [->|Hne]; [discriminate|].
  rewrite ColorMapParams_decoded by assumption.
  intros Hfail. split; [reflexivity|]. exists s. split; [reflexivity|]. split; [exact Hne|].
  destruct (decode s) as [cm|e0] eqn:Ed.
  - destruct ty; [discriminate|]. apply linear_raises in Hfail. right.
    split; [intros; apply expansion_error_not_http, Hfail|].
    split; [|discriminate].
    destruct Hfail as [-> | [-> | [-> | ->]]]; discriminate.
  - destruct (decode_raises s e0 Ed) as [[-> Hbad] | [Hconv | ->]].
    + inversion Hfail; subst. left. split; [reflexivity | exact Hbad].
    + assert (e = e0) as ->.
      { destruct Hconv as [-> | [-> | [-> | ->]]]; inversion Hfail; reflexivity. }
      right. split; [intros; apply conversion_error_not_http, Hconv|].
      split; [apply conversion_error_not_decoding, Hconv | intros _; left; exact Hconv].
    + inversion Hfail; subst. right.
      split; [discriminate|]. split; [discriminate | intros _; right; reflexivity].
Qed.

(** X9: what [ColorMapParams] answers for an explicit colormap is a
    dictionary with distinct integer keys and a colour of four components
    under each, or a list of intervals each with its bounds and a colour of
    four components, or a JSON literal decoded as it is. *)
Theorem explicit_colormap_shape (cmap : ColorMaps) (s : string) (cm : pyval) :
  @ColorMapParams cmap None (Some s) explicit = Ok cm -> explicit_colormap cm.
Proof.
  destruct (string_dec s EmptyString) as [->|Hne].
  { intros H. inversion H. exact I. }
  rewrite ColorMapParams_decoded by assumption.
  destruct (decode s) as [v|e] eqn:Ed; [|destruct e; discriminate].
  intros H. inversion H; subst v; clear H. unfold decode in Ed.
  destruct (loads object_hook s) as [v|e] eqn:El; [|discriminate].
  destruct (sequence_items v) as [items|] eqn:Es.
  - destruct (intervals items) as [l|e] eqn:Ei; [|discriminate].
    inversion Ed; subst. simpl. eapply intervals_shape, Ei.
  - inversion Ed; subst v; clear Ed.
    destruct (loads_value object_hook s cm El)
      as [[x Hx] | [(str & -> & _) | [[l ->] | [Hl _]]]].
    + apply object_hook_shape in Hx as (kv & -> & Hnd & Hall). split; assumption.
    + discriminate.
    + discriminate.
    + destruct cm; try contradiction; exact I.
Qed.

(** X10: the decoded text is not checked to be a colormap.  A text that
    is a JSON literal ([null], [true], a number) is answered as that
    literal when the colormap is explicit, and fails with an
    [AttributeError] when it is linear. *)
Theorem scalar_colormap_passes_through (cmap : ColorMaps) (s : string) (v : pyval) :
  loads plain s = Ok v -> literal v ->
  @ColorMapParams cmap None (Some s) explicit = Ok v
  /\ @ColorMapParams cmap None (Some s) linear_type = Raise AttributeError.
Proof.
  intros Hl Hv.
  assert (Hne : s <> EmptyString) by (intros ->; discriminate Hl).
  rewrite !ColorMapParams_decoded by assumption.
  assert (Hd : decode s = Ok v).
  { unfold decode.
    destruct (loads_value plain s v Hl)
      as [[x Hx] | [(str & -> & _) | [[l ->] | [_ Hall]]]];
      try contradiction.
    - unfold plain in Hx. inversion Hx; subst. contradiction.
    - rewrite (Hall object_hook). destruct v; try contradiction; reflexivity. }
  rewrite Hd. split; [reflexivity|]. destruct v; try contradiction; reflexivity.
Qed.

(** X16: a text that is a JSON string is taken for a sequence of
    intervals.  The empty string is answered as the empty list when the
    colormap is explicit, and fails with an [AttributeError] when it is
    linear; any other string fails on its first character with a
    [ValueError], whatever the type. *)
Theorem string_colormap_is_taken_for_intervals (cmap : ColorMaps) (s str : string)
  (ty : ColorMapType) :
  loads plain s = Ok (PStr str) ->
  @ColorMapParams cmap None (Some s) ty
  = match str with
    | EmptyString =>
        match ty with
        | explicit => Ok (PList [])
        | linear_type => Raise AttributeError
        end
    | String _ _ => Raise ValueError
    end.
Proof.
  intros Hl.
  assert (Hne : s <> EmptyString) by (intros ->; discriminate Hl).
  rewrite ColorMapParams_decoded by assumption.
  assert (Hh : loads object_hook s = Ok (PStr str)).
  { destruct (loads_value plain s _ Hl) as [[x Hx] | [(str' & _ & Hall) | [[l Hx] | [[] _]]]].
    - discriminate Hx.
    - apply Hall.
    - discriminate Hx. }
  unfold decode. rewrite Hh. simpl.
  destruct str as [|a str]; [destruct ty; reflexivity|]. reflexivity.
Qed.

End ColormapExtras.

(* ===================================================================== *)
(** * The expansion of a linear colormap *)
(* ===================================================================== *)

Section LinearExtras.
Import JSON Colormap Shape.

Lemma lookup_tables_Forall2 x ys : forall luts,
  lookup_tables x ys = Ok luts ->
  Forall2 (fun y lut => create_lookup_table x y = Ok lut) ys luts.
Proof.
  induction ys as [|y r IH]; simpl; intros luts.
  - intros H. inversion H. apply Forall2_nil_2.
  - destruct (create_lookup_table x y) as [lut|e] eqn:Ec; [|discriminate].
    destruct (lookup_tables x r) as [l|e]; [|discriminate].
    intros H. inversion H; subst. apply Forall2_cons_2; [exact Ec | apply IH; reflexivity].
Qed.

Lemma stops_Forall2 kv : forall sts,
  stops kv = Ok sts ->
  Forall2 (fun m st => stop (fst m) (snd m) = Ok st) kv sts.
Proof.
  induction kv as [|[k rgba] r IH]; simpl; intros sts.
  - intros H. inversion H. apply Forall2_nil_2.
  - destruct (stop k rgba) as [st|e] eqn:Es; [|discriminate].
    destruct (stops r) as [l|e]; [|discriminate].
    intros H. inversion H; subst. apply Forall2_cons_2; [exact Es | apply IH; reflexivity].
Qed.

(** The expansion, when it succeeds. *)
Lemma linear_Ok cm out :
  linear cm = Ok out ->
  exists kv sts luts,
    cm = PMap kv /\ kv <> [] /\ stops kv = Ok sts
    /\ lookup_tables (map fst sts) (map (fun c => column c sts) (seq 0 4)) = Ok luts
    /\ length luts = 4%nat
    /\ out = PMap (map (fun idx =>
                          (Z.of_nat idx,
                           PList (map (fun lut =>
                                         PInt (uint8 (nth (level_of (linspace idx)) lut
                                                        PrimFloat.zero)))
                                      luts)))
                       (seq 0 levels)).
Proof.
  unfold linear. destruct cm; try discriminate.
  destruct (stops kv) as [[|st sts]|e] eqn:Es; try discriminate.
  destruct (lookup_tables _ _) as [luts|e] eqn:El; [|discriminate].
  intros H. inversion H; subst out; clear H.
  exists kv, (st :: sts), luts. split; [reflexivity|].
  split; [intros ->; discriminate Es|]. split; [exact Es|]. split; [exact El|].
  split; [|reflexivity].
  apply lookup_tables_Forall2, Forall2_length in El. rewrite <- El. reflexivity.
Qed.

Lemma uint8_byte x : byte (uint8 x).
Proof.
  unfold byte, uint8.
  pose proof (Z.mod_pos_bound (trunc (PrimFloat.mul x f255)) 256 ltac:(lia)). lia.
Qed.

Lemma rows_of_expansion (f : nat -> list float -> Z) (luts : list (list float)) idxs :
  rows_of (map (fun idx => (Z.of_nat idx, PList (map (fun lut => PInt (f idx lut)) luts))) idxs)
  = map (fun idx => map (f idx) luts) idxs.
Proof.
  unfold rows_of. rewrite map_map. apply map_ext. intros idx. simpl.
  rewrite map_map. reflexivity.
Qed.

(** X11: a linear colormap that [ColorMapParams] answers comes from a
    JSON object with at least one stop, and has the 256 keys 0 to 255 in
    order, each with a list of four integers between 0 and 255. *)
Theorem linear_colormap_shape (cmap : ColorMaps) (s : string) (cm : pyval) :
  s <> EmptyString ->
  @ColorMapParams cmap None (Some s) linear_type = Ok cm ->
  (exists stops, decode s = Ok (PMap stops) /\ stops <> [])
  /\ exists rows,
       cm = PMap rows
       /\ map fst rows = map Z.of_nat (seq 0 256)
       /\ map snd rows = map (fun row => PList (map PInt row)) (rows_of rows)
       /\ Forall (fun row => length row = 4%nat /\ Forall byte row) (rows_of rows).
Proof.
  intros Hne. rewrite ColorMapParams_decoded by assumption.
  destruct (decode s) as [v|e] eqn:Ed; [|destruct e; discriminate].
  intros H. apply linear_Ok in H as (kv & sts & luts & -> & Hkv & _ & _ & Hlen & ->).
  split; [exists kv; split; [reflexivity | exact Hkv]|].
  eexists. split; [reflexivity|].
  rewrite rows_of_expansion. split; [|split].
  - rewrite map_map. reflexivity.
  - rewrite !map_map. apply map_ext. intros idx. simpl. rewrite map_map. reflexivity.
  - apply List.Forall_forall. intros row Hin. apply in_map_iff in Hin as (idx & <- & _).
    rewrite length_map. split; [exact Hlen|].
    apply List.Forall_forall. intros z Hz. apply in_map_iff in Hz as (lut & <- & _).
    apply uint8_byte.
Qed.

Lemma channels_Ok xs : forall ys, channels xs = Ok ys -> ys = map requantize xs.
Proof.
  induction xs as [|x r IH]; simpl; intros ys.
  - intros H. inversion H. reflexivity.
  - unfold through_hex at 1. destruct (_ || _)%bool; [discriminate|].
    destruct (channels r) as [l|e]; [|discriminate].
    intros H. inversion H; subst. rewrite (IH l eq_refl). reflexivity.
Qed.

Lemma components_ints l :
  components (map PInt l) = Ok (map (fun z => true_divide z 255) l).
Proof.
  induction l as [|z r IH]; simpl; [reflexivity|]. rewrite IH. reflexivity.
Qed.

Lemma stop_ints k l st :
  length l = 4%nat -> stop k (PTuple (map PInt l)) = Ok st ->
  snd st = map (fun z => requantize (true_divide z 255)) l.
Proof.
  intros Hlen. unfold stop. simpl. rewrite components_ints, length_map, Hlen. simpl.
  destruct (channels _) as [ys|e] eqn:Ec; [|discriminate].
  intros H. inversion H; subst. simpl.
  apply channels_Ok in Ec. rewrite Ec, map_map. reflexivity.
Qed.

Lemma end_level_byte z : byte z -> end_level z = z.
Proof.
  intros [Hlo Hhi].
  assert (Hall : forallb (fun n => end_level (Z.of_nat n) =? Z.of_nat n) (seq 0 256) = true)
    by (vm_compute; reflexivity).
  rewrite forallb_forall in Hall.
  specialize (Hall (Z.to_nat z)). rewrite Z2Nat.id in Hall by assumption.
  apply Z.eqb_eq, Hall, in_seq. lia.
Qed.

Lemma item_head a l : item (a :: l) 0 = Some a.
Proof.
  unfold item. simpl length.
  replace (0 <? 0) with false by reflexivity.
  replace ((0 <=? 0) && (0 <? Z.of_nat (S (length l)))) with true; [reflexivity|].
  symmetry. apply andb_true_iff. split; [reflexivity | apply Z.ltb_lt; lia].
Qed.

Lemma item_last l a : item (l ++ [a]) (-1) = Some a.
Proof.
  unfold item. rewrite length_app. simpl length.
  replace (-1 <? 0) with true by reflexivity.
  replace (-1 + Z.of_nat (length l + 1)) with (Z.of_nat (length l)) by lia.
  replace ((0 <=? Z.of_nat (length l)) && (Z.of_nat (length l) <? Z.of_nat (length l + 1)))
    with true.
  - rewrite Nat2Z.id. rewrite nth_error_app2 by lia. rewrite Nat.sub_diag. reflexivity.
  - symmetry. apply andb_true_iff. split; [apply Z.leb_le | apply Z.ltb_lt]; lia.
Qed.

Lemma interior_length xs ys idxs : forall l,
  interior xs ys idxs = Ok l -> length l = length idxs.
Proof.
  induction idxs as [|i r IH]; simpl; intros l.
  - intros H. inversion H. reflexivity.
  - destruct (interpolate xs ys i); [|discriminate].
    destruct (interior xs ys r) as [l'|]; [|discriminate].
    intros H. inversion H; subst. simpl. rewrite (IH l' eq_refl). reflexivity.
Qed.

(** The two ends of a lookup table are the values at the first and at the
    last stop. *)
Lemma create_lookup_table_ends x y lut :
  create_lookup_table x y = Ok lut ->
  exists y0 y1, item y 0 = Some y0 /\ item y (-1) = Some y1
                /\ nth 0 lut PrimFloat.zero = clip01 y0
                /\ nth 255 lut PrimFloat.zero = clip01 y1.
Proof.
  unfold create_lookup_table.
  destruct (item x 0), (item x (-1)), (item y 0) as [y0|], (item y (-1)) as [y1|];
    try discriminate.
  destruct (_ || _)%bool; [discriminate|].
  destruct (negb (increasing x)); [discriminate|].
  destruct (interior _ _ _) as [mid|e] eqn:Ei; [|discriminate].
  apply interior_length in Ei. rewrite length_seq in Ei.
  intros H. inversion H; subst lut; clear H.
  exists y0, y1. split; [reflexivity|]. split; [reflexivity|].
  split; [reflexivity|].
  simpl. rewrite map_app. rewrite app_nth2; rewrite length_map, Ei; [|unfold levels; lia].
  reflexivity.
Qed.

Lemma nth_expansion {A} (g : nat -> list A) (i n : nat) :
  (i < n)%nat -> nth i (map g (seq 0 n)) [] = g i.
Proof.
  intros Hi. rewrite (nth_indep _ [] (g 0%nat)) by (rewrite length_map, length_seq; exact Hi).
  rewrite map_nth, seq_nth by exact Hi. reflexivity.
Qed.

Lemma column_cons c st sts :
  column c (st :: sts) = nth c (snd st) PrimFloat.zero :: column c sts.
Proof. reflexivity. Qed.

Lemma column_snoc c st sts :
  column c (sts ++ [st]) = column c sts ++ [nth c (snd st) PrimFloat.zero].
Proof. unfold column. rewrite map_app. reflexivity. Qed.

(** The rows at both ends of an expansion, from the first and the last
    stop. *)
Lemma linear_ends kv rows st0 sts st1 sts' :
  linear (PMap kv) = Ok (PMap rows) ->
  stops kv = Ok (st0 :: sts) -> st0 :: sts = sts' ++ [st1] ->
  nth 0 (rows_of rows) []
  = map (fun c => uint8 (clip01 (nth c (snd st0) PrimFloat.zero))) (seq 0 4)
  /\ nth 255 (rows_of rows) []
     = map (fun c => uint8 (clip01 (nth c (snd st1) PrimFloat.zero))) (seq 0 4).
Proof.
  intros Hlin Hst Hsnoc.
  apply linear_Ok in Hlin as (kv' & sts0 & luts & Hkv & _ & Hst' & Hl & _ & Hrows).
  inversion Hkv; subst kv'; clear Hkv. rewrite Hst in Hst'. inversion Hst'; subst sts0.
  clear Hst'.
  match type of Hrows with _ = PMap ?t => assert (Hr : rows = t) by congruence end.
  rewrite Hr. clear Hr Hrows.
  rewrite rows_of_expansion.
  rewrite !nth_expansion by (unfold levels; lia).
  replace (level_of (linspace 0)) with 0%nat by (vm_compute; reflexivity).
  replace (level_of (linspace 255)) with 255%nat by (vm_compute; reflexivity).
  apply lookup_tables_Forall2 in Hl. cbn [map seq] in Hl.
  repeat match goal with
         | H : Forall2 _ (_ :: _) _ |- _ =>
             apply Forall2_cons_inv_l in H as (? & ? & ? & H & ->)
         | H : Forall2 _ [] _ |- _ => apply Forall2_nil_inv_l in H as ->
         end.
  repeat match goal with
         | H : create_lookup_table _ _ = Ok _ |- _ =>
             apply create_lookup_table_ends in H as (? & ? & ? & ? & ? & ?)
         end.
  cbn [map seq].
  repeat match goal with
         | H : item (column _ (st0 :: sts)) 0 = Some _ |- _ =>
             rewrite column_cons, item_head in H; inversion H; clear H
         | H : item (column _ (st0 :: sts)) (-1) = Some _ |- _ =>
             rewrite Hsnoc, column_snoc, item_last in H; inversion H; clear H
         end.
  split; congruence.
Qed.

(** A dictionary that [decode] answers was made by the hook. *)
Lemma decode_map s kv :
  decode s = Ok (PMap kv) ->
  NoDup (map fst kv) /\ Forall (fun m => colour (snd m)) kv.
Proof.
  unfold decode. destruct (loads object_hook s) as [v|e] eqn:El; [|discriminate].
  destruct (sequence_items v) as [items|] eqn:Es.
  { destruct (intervals items); discriminate. }
  intros H. inversion H; subst v; clear H.
  destruct (loads_value object_hook s _ El)
    as [[x Hx] | [(str & Hx & _) | [[l Hx] | [Hl _]]]];
    try discriminate; [|contradiction].
  apply object_hook_shape in Hx as (kv' & Hkv & Hnd & Hall).
  inversion Hkv; subst. split; assumption.
Qed.

Lemma end_colour (st : float * list float) (l : list Z) :
  length l = 4%nat -> Forall byte l ->
  snd st = map (fun z => requantize (true_divide z 255)) l ->
  map (fun c => uint8 (clip01 (nth c (snd st) PrimFloat.zero))) (seq 0 4) = l.
Proof.
  intros Hlen Hall ->.
  destruct l as [|a [|b [|c [|d [|? ?]]]]]; try discriminate.
  repeat match goal with
         | H : Forall _ (_ :: _) |- _ => apply List.Forall_cons_iff in H as [? H]
         end.
  cbn [map seq nth]. fold (end_level a) (end_level b) (end_level c) (end_level d).
  rewrite !end_level_byte by assumption. reflexivity.
Qed.

(** X12: the expansion of a linear colormap keeps the colours of its two
    ends.  When the first and the last stop of the object are colours of
    integers between 0 and 255, entry 0 of the answer is the first colour
    and entry 255 the last one, exactly. *)
Theorem linear_colormap_keeps_end_colours (cmap : ColorMaps) (s : string)
  (kv rows : list (Z * pyval)) (k0 k1 : Z) (first final : list Z) :
  s <> EmptyString ->
  decode s = Ok (PMap kv) ->
  head kv = Some (k0, PTuple (map PInt first)) ->
  last kv = Some (k1, PTuple (map PInt final)) ->
  Forall byte first -> Forall byte final ->
  @ColorMapParams cmap None (Some s) linear_type = Ok (PMap rows) ->
  nth 0 (rows_of rows) [] = first /\ nth 255 (rows_of rows) [] = final.
Proof.
  intros Hne Hd Hhead Hlast Hfirst Hfinal.
  rewrite ColorMapParams_decoded, Hd by assumption. intros Hlin.
  destruct (decode_map s kv Hd) as [_ Hcol].
  assert (Hlen : forall k l, In (k, PTuple (map PInt l)) kv -> length l = 4%nat).
  { intros k l Hin. rewrite List.Forall_forall in Hcol.
    destruct (Hcol _ Hin) as (l' & Heq & Hl'). simpl in Heq.
    inversion Heq; subst l'. rewrite length_map in Hl'. exact Hl'. }
  pose proof Hlin as Hlin'.
  apply linear_Ok in Hlin' as (kv' & sts & luts & Hkv & _ & Hst & _).
  inversion Hkv; subst kv'; clear Hkv.
  pose proof (stops_Forall2 kv sts Hst) as Hall.
  destruct kv as [|m0 kv0]; [discriminate|]. simpl in Hhead. inversion Hhead; subst m0.
  apply last_Some in Hlast as [kv1 Hkv1].
  pose proof Hall as Hall0.
  apply Forall2_cons_inv_l in Hall0 as (st0 & sts0 & Hst0 & _ & ->).
  rewrite Hkv1 in Hall.
  apply Forall2_app_inv_l in Hall as (sts1 & sts2 & _ & Hall1 & Hsnoc).
  apply Forall2_cons_inv_l in Hall1 as (st1 & nil_ & Hst1 & Hnil & ->).
  apply Forall2_nil_inv_l in Hnil as ->.
  destruct (linear_ends _ _ _ _ _ _ Hlin Hst Hsnoc) as [-> ->].
  simpl in Hst0, Hst1.
  split; apply end_colour; try assumption.
  - apply (Hlen k0). left. reflexivity.
  - apply stop_ints in Hst0; [exact Hst0|]. apply (Hlen k0). left. reflexivity.
  - apply (Hlen k1). rewrite Hkv1. apply in_or_app. right. left. reflexivity.
  - apply stop_ints in Hst1; [exact Hst1|].
    apply (Hlen k1). rewrite Hkv1. apply in_or_app. right. left. reflexivity.
Qed.

(** No float is both zero and one. *)
Lemma not_zero_and_one x :
  PrimFloat.eqb x PrimFloat.zero = true -> PrimFloat.eqb x PrimFloat.one = false.
Proof.
  rewrite !FloatAxioms.eqb_spec.
  replace (Prim2SF PrimFloat.zero) with (S754_zero false) by reflexivity.
  replace (Prim2SF PrimFloat.one) with (S754_finite false 4503599627370496 (-52))
    by reflexivity.
  destruct (Prim2SF x) as [s| s | |s m e]; try reflexivity;
    destruct s; discriminate.
Qed.

Lemma position_of_byte k :
  byte k ->
  (PrimFloat.eqb (true_divide k 255) PrimFloat.zero = true -> k = 0)
  /\ (PrimFloat.eqb (true_divide k 255) PrimFloat.one = true -> k = 255).
Proof.
  intros [Hlo Hhi].
  assert (Hall : forallb (fun n =>
                            (negb (PrimFloat.eqb (true_divide (Z.of_nat n) 255) PrimFloat.zero)
                             || (Z.of_nat n =? 0))
                            && (negb (PrimFloat.eqb (true_divide (Z.of_nat n) 255) PrimFloat.one)
                                || (Z.of_nat n =? 255)))
                         (seq 0 256) = true)
    by (vm_compute; reflexivity).
  rewrite forallb_forall in Hall.
  specialize (Hall (Z.to_nat k)). rewrite Z2Nat.id in Hall by assumption.
  assert (Hin : In (Z.to_nat k) (seq 0 256)) by (apply in_seq; lia).
  apply Hall in Hin. apply andb_true_iff in Hin as [H0 H1].
  split; intros E.
  - rewrite E in H0. simpl in H0. apply Z.eqb_eq, H0.
  - rewrite E in H1. simpl in H1. apply Z.eqb_eq, H1.
Qed.

Lemma stop_position k rgba st : stop k rgba = Ok st -> fst st = true_divide k 255.
Proof.
  unfold stop. destruct (iterate rgba) as [l|]; [|discriminate].
  destruct (components l) as [xs|]; [|discriminate].
  destruct (negb _); [discriminate|].
  destruct (channels _) as [ys|]; [|discriminate].
  intros H. inversion H. reflexivity.
Qed.

(** A lookup table is made only from positions that start at 0 and end
    at 1. *)
Lemma create_lookup_table_positions x y lut :
  create_lookup_table x y = Ok lut ->
  exists x0 x1, item x 0 = Some x0 /\ item x (-1) = Some x1
                /\ PrimFloat.eqb x0 PrimFloat.zero = true
                /\ PrimFloat.eqb x1 PrimFloat.one = true.
Proof.
  unfold create_lookup_table.
  destruct (item x 0) as [x0|], (item x (-1)) as [x1|], (item y 0), (item y (-1));
    try discriminate.
  destruct (negb (PrimFloat.eqb x0 PrimFloat.zero)) eqn:E0; [discriminate|].
  destruct (negb (PrimFloat.eqb x1 PrimFloat.one)) eqn:E1; [discriminate|].
  intros _. apply negb_false_iff in E0, E1. exists x0, x1. auto.
Qed.

(** The positions at the two ends of an expansion that succeeds. *)
Lemma linear_end_positions kv out st0 sts st1 sts' :
  linear (PMap kv) = Ok out ->
  stops kv = Ok (st0 :: sts) -> st0 :: sts = sts' ++ [st1] ->
  PrimFloat.eqb (fst st0) PrimFloat.zero = true
  /\ PrimFloat.eqb (fst st1) PrimFloat.one = true.
Proof.
  intros Hlin Hst Hsnoc.
  apply linear_Ok in Hlin as (kv' & sts0 & luts & Hkv & _ & Hst' & Hl & _ & _).
  inversion Hkv; subst kv'; clear Hkv. rewrite Hst in Hst'. inversion Hst'; subst sts0.
  apply lookup_tables_Forall2 in Hl. cbn [map seq] in Hl.
  apply Forall2_cons_inv_l in Hl as (lut & ? & Hc & _ & _).
  apply create_lookup_table_positions in Hc as (x0 & x1 & H0 & H1 & E0 & E1).
  rewrite item_head in H0. inversion H0; subst x0.
  change (fst st0 :: map fst sts) with (map fst (st0 :: sts)) in H1.
  rewrite Hsnoc, map_app in H1. cbn [map] in H1. rewrite item_last in H1.
  inversion H1; subst x1. auto.
Qed.

(** X17: a linear colormap that [ColorMapParams] answers has at least two
    stops, and its stops span all the levels: the key of the first stop,
    when it is between 0 and 255, is 0, and the key of the last stop, when
    it is between 0 and 255, is 255. *)
Theorem linear_colormap_spans_all_levels (cmap : ColorMaps) (s : string)
  (kv : list (Z * pyval)) (cm : pyval) :
  s <> EmptyString ->
  decode s = Ok (PMap kv) ->
  @ColorMapParams cmap None (Some s) linear_type = Ok cm ->
  (2 <= length kv)%nat
  /\ forall k0 c0 k1 c1,
       head kv = Some (k0, c0) -> last kv = Some (k1, c1) ->
       (byte k0 -> k0 = 0) /\ (byte k1 -> k1 = 255).
Proof.
  intros Hne Hd. rewrite ColorMapParams_decoded, Hd by assumption. intros Hlin.
  pose proof Hlin as Hlin'.
  apply linear_Ok in Hlin' as (kv' & sts & luts & Hkv & Hnil & Hst & _).
  inversion Hkv; subst kv'; clear Hkv.
  pose proof (stops_Forall2 kv sts Hst) as Hall.
  destruct kv as [|[k0 c0] kv0]; [contradiction|].
  pose proof Hall as Hall0.
  apply Forall2_cons_inv_l in Hall0 as (st0 & sts0 & Hst0 & Hrest & ->).
  destruct (last ((k0, c0) :: kv0)) as [[k1 c1]|] eqn:Hlast;
    [|apply last_None in Hlast; discriminate Hlast].
  pose proof Hlast as Hlast'.
  apply last_Some in Hlast' as [kv1 Hkv1].
  rewrite Hkv1 in Hall.
  apply Forall2_app_inv_l in Hall as (sts1 & sts2 & Hall1' & Hall1 & Hsnoc).
  apply Forall2_cons_inv_l in Hall1 as (st1 & nil_ & Hst1 & Hnil' & ->).
  apply Forall2_nil_inv_l in Hnil' as ->.
  destruct (linear_end_positions _ _ _ _ _ _ Hlin Hst Hsnoc) as [E0 E1].
  simpl in Hst0, Hst1.
  apply stop_position in Hst0, Hst1. rewrite Hst0 in E0. rewrite Hst1 in E1.
  split.
  - destruct kv0 as [|m kv0]; [|simpl; lia].
    exfalso. simpl in Hlast. inversion Hlast; subst k1 c1.
    apply not_zero_and_one in E0. congruence.
  - intros k0' c0' k1' c1' Hh Hl. simpl in Hh. inversion Hh; subst k0' c0'.
    inversion Hl; subst k1' c1'.
    split; intros Hb.
    + apply (proj1 (position_of_byte k0 Hb)), E0.
    + apply (proj2 (position_of_byte k1 Hb)), E1.
Qed.

End LinearExtras.

(* ===================================================================== *)
(** * Properties of [render_cog] *)
(* ===================================================================== *)

Section CogFacts.
Import Cog.
Context {Cell : Type}.
Variable fill_value : string -> float -> result Cell.
Variable read : string -> result (ndarray Cell).

Lemma assoc_dict_set {A} (k k' : string) (v : A) d :
  Py.assoc k' (JSON.dict_set String.eqb k v d)
  = if String.eqb k' k then Some v else Py.assoc k' d.
Proof.
  induction d as [|[k0 v0] r IH]; simpl.
  - reflexivity.
  - destruct (String.eqb k k0) eqn:E; simpl.
    + apply String.eqb_eq in E. subst k0. destruct (String.eqb k' k); reflexivity.
    + rewrite IH. destruct (String.eqb k' k0) eqn:E0; [|reflexivity].
      apply String.eqb_eq in E0. subst k0.
      rewrite String.eqb_sym, E. reflexivity.
Qed.

Lemma assoc_update (k' : string) kwargs : forall profile : Profile,
  Py.assoc k' (update profile kwargs)
  = match Py.assoc k' (rev kwargs) with
    | Some v => Some v
    | None => Py.assoc k' profile
    end.
Proof.
  unfold update. induction kwargs as [|[k v] r IH]; intros profile; simpl; [reflexivity|].
  rewrite IH, assoc_dict_set.
  assert (Happ : forall (l1 l2 : list (string * setting)),
             Py.assoc k' (l1 ++ l2)
             = match Py.assoc k' l1 with Some x => Some x | None => Py.assoc k' l2 end).
  { induction l1 as [|[k1 v1] l1 IH1]; intros l2; simpl; [reflexivity|].
    destruct (String.eqb k' k1); [reflexivity | apply IH1]. }
  rewrite Happ. simpl. destruct (Py.assoc k' (rev r)); [reflexivity|].
  destruct (String.eqb k' k); reflexivity.
Qed.

Lemma size_expand_dims (a : ndarray Cell) : size (expand_dims a) = size a.
Proof. unfold size, expand_dims. simpl. destruct (fold_right Z.mul 1 (shape a)); reflexivity. Qed.

Lemma filled_frame x (a b : ndarray Cell) :
  filled fill_value x a = Ok b ->
  shape b = shape a /\ dtype b = dtype a /\ itemsize b = itemsize a.
Proof.
  unfold filled. destruct (data a).
  - intros H. inversion H. auto.
  - destruct (fill_value (dtype a) x); [|discriminate].
    intros H. inversion H. auto.
Qed.

(** A call that succeeds, step by step. *)
Lemma render_cog_Ok (a : ndarray Cell) (profile profile' : Profile)
  (compression : string) (resampling : Resampling.t) (levels : list Z)
  (nodata : option float) (colormap : option (list (Z * list Z))) (band : Z)
  (calls : list (action Cell)) :
  render_cog fill_value read a profile compression resampling levels nodata colormap band
  = (Ok calls, profile') ->
  exists (filled_ written : ndarray Cell) count rest,
    (if is_masked a && truthy nodata
     then exists x, nodata = Some x /\ filled fill_value x a = Ok filled_
     else filled_ = a)
    /\ written = (if (length (shape a) =? 2)%nat then expand_dims filled_ else filled_)
    /\ shape filled_ = shape a /\ dtype filled_ = dtype a /\ itemsize filled_ = itemsize a
    /\ shape written = count :: rest
    /\ profile'
       = update profile
           [ ("driver", SStr "COG");
             ("nodata", nodata_setting nodata);
             ("dtype", SDtype (dtype a));
             ("count", SInt count);
             ("tiled", SBool true);
             ("compress", SStr compression);
             ("BIGTIFF", SStr (if 4000000000 <? size a * itemsize a then "YES" else "NO"));
             ("COPY_SRC_OVERVIEWS", SStr "YES") ]
    /\ calls
       = [open_dataset profile'; write written]
         ++ match colormap with
            | Some ((_ :: _) as cm) => [write_colormap band cm]
            | _ => []
            end
         ++ [build_overviews levels resampling].
Proof.
  unfold render_cog.
  destruct (match nodata with
            | Some x => if is_masked a && truthy nodata then filled fill_value x a else Ok a
            | None => Ok a
            end) as [b|e] eqn:Ef; [|discriminate].
  assert (Hfill : if is_masked a && truthy nodata
                  then exists x, nodata = Some x /\ filled fill_value x a = Ok b
                  else b = a).
  { destruct nodata as [x|].
    - destruct (is_masked a && truthy (Some x)); [eauto | inversion Ef; reflexivity].
    - rewrite andb_false_r. inversion Ef; reflexivity. }
  assert (Hb : shape b = shape a /\ dtype b = dtype a /\ itemsize b = itemsize a).
  { destruct (is_masked a && truthy nodata).
    - destruct Hfill as (x & _ & Hx). eapply filled_frame, Hx.
    - subst b. auto. }
  destruct Hb as (Hs & Hd & Hi). rewrite Hs.
  remember (if (length (shape a) =? 2)%nat then expand_dims b else b) as c eqn:Ec.
  assert (Hc : size c = size a /\ dtype c = dtype a /\ itemsize c = itemsize a).
  { subst c. destruct (length (shape a) =? 2)%nat.
    - rewrite size_expand_dims. unfold size. simpl. rewrite Hs. auto.
    - unfold size. rewrite Hs. auto. }
  destruct Hc as (Hsz & Hdt & Hit).
  unfold is_bigtiff. rewrite Hsz, Hit, Hdt.
  destruct (shape c) as [|count rest] eqn:Esc.
  { destruct (4000000000 <? size a * itemsize a); discriminate. }
  intros H. exists b, c, count, rest.
  split; [exact Hfill|]. split; [exact Ec|].
  split; [exact Hs|]. split; [exact Hd|]. split; [exact Hi|]. split; [exact Esc|].
  destruct (4000000000 <? size a * itemsize a); inversion H; subst; split; reflexivity.
Qed.

(** X13: a call of [render_cog] that succeeds opens the file with the
    profile it leaves to the caller.  In that profile the eight keys of the
    update are set: the driver, the [nodata] given (the one of the caller
    is replaced even by [None]), the type of the data, the number of bands
    (one for an array of two dimensions, else the first dimension),
    the tiling, the compression, [BIGTIFF] (YES exactly when the array
    given takes more than 4000000000 bytes) and the copy of overviews;
    every other key keeps the value the caller gave it. *)
Theorem render_cog_profile (a : ndarray Cell) (profile profile' : Profile)
  (compression : string) (resampling : Resampling.t) (levels : list Z)
  (nodata : option float) (colormap : option (list (Z * list Z))) (band : Z)
  (calls : list (action Cell)) :
  render_cog fill_value read a profile compression resampling levels nodata colormap band
  = (Ok calls, profile') ->
  head calls = Some (open_dataset profile')
  /\ Py.assoc "driver" profile' = Some (SStr "COG")
  /\ Py.assoc "nodata" profile' = Some (nodata_setting nodata)
  /\ Py.assoc "dtype" profile' = Some (SDtype (dtype a))
  /\ Py.assoc "count" profile'
     = Some (SInt (if (length (shape a) =? 2)%nat then 1 else hd 0 (shape a)))
  /\ Py.assoc "tiled" profile' = Some (SBool true)
  /\ Py.assoc "compress" profile' = Some (SStr compression)
  /\ Py.assoc "BIGTIFF" profile'
     = Some (SStr (if 4000000000 <? size a * itemsize a then "YES" else "NO"))
  /\ Py.assoc "COPY_SRC_OVERVIEWS" profile' = Some (SStr "YES")
  /\ forall k, ~ In k updated -> Py.assoc k profile' = Py.assoc k profile.
Proof.
  intros H.
  apply render_cog_Ok in H
    as (b & c & count & rest & _ & Hc & Hs & _ & _ & Hsc & Hp & Hcalls).
  assert (Hcount : count = if (length (shape a) =? 2)%nat then 1 else hd 0 (shape a)).
  { subst c. destruct (length (shape a) =? 2)%nat.
    - simpl in Hsc. inversion Hsc. reflexivity.
    - rewrite Hs in Hsc. rewrite Hsc. reflexivity. }
  split; [rewrite Hcalls; reflexivity|].
  rewrite Hp, <- Hcount.
  repeat (split; [rewrite assoc_update; reflexivity|]).
  intros k Hk. rewrite assoc_update.
  destruct (Py.assoc k (rev _)) as [v|] eqn:Ek; [|reflexivity].
  exfalso. apply Hk. revert Ek. cbn [rev app Py.assoc]. unfold updated.
  repeat match goal with
         | |- context [String.eqb k ?s] =>
             let E := fresh "E" in
             destruct (String.eqb k s) eqn:E;
             [apply String.eqb_eq in E; subst k; intros _; simpl; tauto|]
         end.
  discriminate.
Qed.

(** X14: [render_cog] writes one array.  A plain array is written as it
    is.  A masked array is filled only when one of its cells is masked and
    [nodata] is neither [None] nor zero: the array written is then plain
    and holds the fill value in every masked cell and the value given in
    every other cell; with no [nodata], or a [nodata] of zero, it is
    written still masked. *)
Theorem render_cog_fills_masked_cells (a : ndarray Cell) (profile profile' : Profile)
  (compression : string) (resampling : Resampling.t) (levels : list Z)
  (nodata : option float) (colormap : option (list (Z * list Z))) (band : Z)
  (calls : list (action Cell)) :
  render_cog fill_value read a profile compression resampling levels nodata colormap band
  = (Ok calls, profile') ->
  exists written,
    calls !! 1%nat = Some (write written)
    /\ (forall w, In (write w) calls -> w = written)
    /\ match data a with
       | Plain cells => data written = Plain cells
       | Masked cells =>
           if existsb snd cells && truthy nodata
           then exists x c,
                  nodata = Some x /\ fill_value (dtype a) x = Ok c
                  /\ data written
                     = Plain (map (fun cell : Cell * bool =>
                                     if snd cell then c else fst cell) cells)
           else data written = Masked cells
       end.
Proof.
  intros H.
  apply render_cog_Ok in H
    as (b & c & count & rest & Hfill & Hc & _ & _ & _ & _ & _ & Hcalls).
  exists c. split; [rewrite Hcalls; reflexivity|]. split.
  - intros w Hin. rewrite Hcalls in Hin. simpl in Hin.
    destruct Hin as [Hin | [Hin | Hin]]; [discriminate | congruence|].
    apply in_app_or in Hin as [Hin | [Hin | []]]; [|discriminate].
    destruct colormap as [[|? ?]|]; simpl in Hin; try contradiction.
    destruct Hin as [Hin | []]. discriminate.
  - assert (Hdata : data c = data b).
    { subst c. destruct (length (shape a) =? 2)%nat; reflexivity. }
    rewrite Hdata. unfold is_masked in Hfill.
    destruct (data a) as [cells|cells] eqn:Ea.
    + simpl in Hfill. subst b. exact Ea.
    + destruct (existsb snd cells && truthy nodata).
      * destruct Hfill as (x & Hx & Hf). unfold filled in Hf. rewrite Ea in Hf.
        destruct (fill_value (dtype a) x) as [cell|e] eqn:Ev; [|discriminate].
        exists x, cell. inversion Hf. auto.
      * subst b. exact Ea.
Qed.

End CogFacts.

(* ===================================================================== *)
(** * Further properties of [SearchParams] *)
(* ===================================================================== *)

Section SearchExtras.
Import Py Model.

Lemma dict_without_none ex ba (fs : list field) :
  dict true ex ba fs
  = dict true ex ba (List.filter (fun f => negb (is_none (fvalue f))) fs).
Proof.
  induction fs as [|f r IH]; simpl; [reflexivity|].
  destruct (is_none (fvalue f)) eqn:En; simpl.
  - rewrite orb_true_r. exact IH.
  - rewrite En, orb_false_r. destruct (mem (fname f) ex); rewrite IH; reflexivity.
Qed.

(** X15: the fields of a request whose value is [None] have no part in
    what [SearchParams] builds.  Two requests that are the same once their
    [None] fields are left out give the same dictionary, and, when their
    metadata are the same, the same search and metadata. *)
Theorem SearchParams_ignores_none_fields (body1 body2 : list field) :
  List.filter (fun f => negb (is_none (fvalue f))) body1
  = List.filter (fun f => negb (is_none (fvalue f))) body2 ->
  search_dict body1 = search_dict body2
  /\ (getattr "metadata" body1 = getattr "metadata" body2 ->
      SearchParams body1 = SearchParams body2).
Proof.
  intros Hsame.
  assert (Hd : search_dict body1 = search_dict body2).
  { unfold search_dict. rewrite (dict_without_none _ _ body1), (dict_without_none _ _ body2).
    rewrite Hsame. reflexivity. }
  split; [exact Hd|].
  intros Hm. unfold SearchParams. rewrite Hm, Hd. reflexivity.
Qed.

End SearchExtras.

(* ===================================================================== *)
(** * The properties on the samples *)
(* ===================================================================== *)

Section ItemSamples.
Import Items Clock.
#[local] Existing Instance Fixture.pystac.


Lemma not_found_is_not_remembered_witness :
  fst (get_stac_item 5 6 Fixture.dbpool Fixture.collection Fixture.item_a
         (snd (get_stac_item 0 1 Fixture.empty_pool Fixture.collection Fixture.item_a
                 (run (start 2 300) []))))
  = fetch_stac_item Fixture.dbpool Fixture.collection Fixture.item_a
  /\ sent (snd (get_stac_item 5 6 Fixture.dbpool Fixture.collection Fixture.item_a
                  (snd (get_stac_item 0 1 Fixture.empty_pool Fixture.collection
                          Fixture.item_a (run (start 2 300) [])))))
     = sent (snd (get_stac_item 0 1 Fixture.empty_pool Fixture.collection Fixture.item_a
                    (run (start 2 300) [])))
       ++ [(conninfo Fixture.dbpool, (Fixture.collection, Fixture.item_a))].
Proof.
  apply (not_found_is_not_remembered 2 300 [] 0 1 5 6 Fixture.empty_pool Fixture.dbpool
           Fixture.collection Fixture.item_a
           (HTTPException 404
              "No item '20200307aC0853900w361030' found in 'noaa-emergency-response' collection")).
  - vm_compute. reflexivity.
  - lia.
Defined.

Lemma served_item_was_fetched_for_its_key_witness :
  fetch_stac_item Fixture.empty_pool Fixture.collection Fixture.item_a
  = Ok (Item_from_dict (Fixture.feature Fixture.item_a))
  \/ exists cl, In cl [Sample.first_call]
                /\ c_collection cl = Fixture.collection /\ c_item cl = Fixture.item_a
                /\ fetch_stac_item (c_pool cl) Fixture.collection Fixture.item_a
                   = Ok (Item_from_dict (Fixture.feature Fixture.item_a)).
Proof.
  apply (served_item_was_fetched_for_its_key 2 300 [Sample.first_call] 4 5
           Fixture.empty_pool Fixture.collection Fixture.item_a).
  vm_compute. reflexivity.
Defined.

Lemma cache_without_room_stores_nothing_witness :
  run (start 0 300) [Sample.first_call; Sample.second_call]
  = {| cache := TTL.empty 0 300;
       sent := all_sent [Sample.first_call; Sample.second_call] |}
  /\ forall now later pool collection item,
       fst (get_stac_item now later pool collection item
              (run (start 0 300) [Sample.first_call; Sample.second_call]))
       = fetch_stac_item pool collection item.
Proof.
  apply (cache_without_room_stores_nothing 0 300 [Sample.first_call; Sample.second_call]).
  lia.
Defined.

Lemma cache_without_ttl_answers_nothing_witness :
  sent (run (start 512 0) [Sample.first_call; Sample.second_call])
  = all_sent [Sample.first_call; Sample.second_call].
Proof.
  apply (cache_without_ttl_answers_nothing 512 0 0 [Sample.first_call; Sample.second_call]).
  - lia.
  - simpl. lia.
Defined.

End ItemSamples.

Section ColormapSamples.
Import JSON Colormap Shape.

Lemma hook_keeps_last_colour_of_each_key_witness :
  NoDup (map fst [(1, PTuple [PInt 0; PInt 0; PInt 255; PInt 255])])
  /\ forall n c,
       In (n, c) [(1, PTuple [PInt 0; PInt 0; PInt 255; PInt 255])] <->
       exists x1 k v x2,
         [("1", PStr "#ff0000"); (" 01 ", PList [PInt 0; PInt 0; PInt 255])]
         = x1 ++ (k, v) :: x2
         /\ py_int k = Ok n /\ parse_color v = Ok c
         /\ forall m, In m x2 -> py_int (fst m) <> Ok n.
Proof.
  apply (hook_keeps_last_colour_of_each_key
           [("1", PStr "#ff0000"); (" 01 ", PList [PInt 0; PInt 0; PInt 255])]).
  vm_compute. reflexivity.
Defined.

Lemma bad_request_only_for_malformed_witness :
  @None (ColorMapName []) = None
  /\ exists s, Some "[1, 2" = Some s /\ s <> EmptyString
     /\ ((HTTPException 400 "Could not parse the colormap value."
          = HTTPException 400 "Could not parse the colormap value." /\ malformed s)
         \/ ((forall status detail,
                 HTTPException 400 "Could not parse the colormap value."
                 <> HTTPException status detail)
             /\ HTTPException 400 "Could not parse the colormap value." <> JSONDecodeError
             /\ (explicit = explicit
                 -> conversion_error
                      (HTTPException 400 "Could not parse the colormap value.")
                    \/ HTTPException 400 "Could not parse the colormap value."
                       = RecursionError))).
Proof.
  apply (bad_request_only_for_malformed [] None (Some "[1, 2") explicit).
  vm_compute. reflexivity.
Defined.

Lemma explicit_colormap_shape_witness :
  explicit_colormap (PMap Sample.three_stops_decoded).
Proof.
  apply (explicit_colormap_shape [] Sample.three_stops).
  vm_compute. reflexivity.
Defined.

Lemma scalar_colormap_passes_through_witness :
  @ColorMapParams [] None (Some "5") explicit = Ok (PInt 5)
  /\ @ColorMapParams [] None (Some "5") linear_type = Raise AttributeError.
Proof.
  apply (scalar_colormap_passes_through [] "5" (PInt 5)).
  - vm_compute. reflexivity.
  - exact I.
Defined.

Lemma string_colormap_is_taken_for_intervals_witness :
  @ColorMapParams [] None (Some (dq "'abc'")) explicit = Raise ValueError.
Proof.
  apply (string_colormap_is_taken_for_intervals [] (dq "'abc'") "abc" explicit).
  vm_compute. reflexivity.
Defined.

Lemma linear_colormap_shape_witness :
  exists cm,
    @ColorMapParams [] None (Some Sample.three_stops) linear_type = Ok cm
    /\ (exists stops, decode Sample.three_stops = Ok (PMap stops) /\ stops <> [])
    /\ exists rows,
         cm = PMap rows
         /\ map fst rows = map Z.of_nat (seq 0 256)
         /\ map snd rows = map (fun row => PList (map PInt row)) (rows_of rows)
         /\ Forall (fun row => length row = 4%nat /\ Forall byte row) (rows_of rows).
Proof.
  eexists. split; [vm_compute; reflexivity|].
  apply (linear_colormap_shape [] Sample.three_stops).
  - discriminate.
  - vm_compute. reflexivity.
Defined.

Lemma linear_colormap_keeps_end_colours_witness :
  exists rows,
    @ColorMapParams [] None (Some Sample.three_stops) linear_type = Ok (PMap rows)
    /\ nth 0 (rows_of rows) [] = [10; 20; 30; 255]
    /\ nth 255 (rows_of rows) [] = [250; 251; 252; 253].
Proof.
  eexists. split; [vm_compute; reflexivity|].
  apply (linear_colormap_keeps_end_colours [] Sample.three_stops
           Sample.three_stops_decoded _ 0 255).
  - discriminate.
  - vm_compute. reflexivity.
  - reflexivity.
  - reflexivity.
  - repeat (apply List.Forall_cons; [unfold byte; lia|]). apply List.Forall_nil.
  - repeat (apply List.Forall_cons; [unfold byte; lia|]). apply List.Forall_nil.
  - vm_compute. reflexivity.
Defined.

Lemma linear_colormap_spans_all_levels_witness :
  exists cm,
    @ColorMapParams [] None (Some Sample.three_stops) linear_type = Ok cm
    /\ (2 <= length Sample.three_stops_decoded)%nat
    /\ forall k0 c0 k1 c1,
         head Sample.three_stops_decoded = Some (k0, c0) ->
         last Sample.three_stops_decoded = Some (k1, c1) ->
         (byte k0 -> k0 = 0) /\ (byte k1 -> k1 = 255).
Proof.
  eexists. split; [vm_compute; reflexivity|].
  eapply (linear_colormap_spans_all_levels [] Sample.three_stops
            Sample.three_stops_decoded).
  - discriminate.
  - vm_compute. reflexivity.
  - vm_compute. reflexivity.
Defined.

End ColormapSamples.

Section SearchSamples.
Import Py Model.

Lemma SearchParams_ignores_none_fields_witness :
  search_dict Sample.body = search_dict Sample.body_without_none
  /\ (getattr "metadata" Sample.body = getattr "metadata" Sample.body_without_none ->
      SearchParams Sample.body = SearchParams Sample.body_without_none).
Proof.
  apply (SearchParams_ignores_none_fields Sample.body Sample.body_without_none).
  vm_compute. reflexivity.
Defined.

End SearchSamples.

Section CogSamples.
Import Cog.

Lemma render_cog_profile_witness :
  head (Sample.calls None) = Some (open_dataset (snd (Sample.rendered None)))
  /\ Py.assoc "driver" (snd (Sample.rendered None)) = Some (SStr "COG")
  /\ Py.assoc "nodata" (snd (Sample.rendered None)) = Some (nodata_setting None)
  /\ Py.assoc "dtype" (snd (Sample.rendered None)) = Some (SDtype (dtype Sample.band))
  /\ Py.assoc "count" (snd (Sample.rendered None))
     = Some (SInt (if (length (shape Sample.band) =? 2)%nat then 1
                   else hd 0 (shape Sample.band)))
  /\ Py.assoc "tiled" (snd (Sample.rendered None)) = Some (SBool true)
  /\ Py.assoc "compress" (snd (Sample.rendered None)) = Some (SStr default_compression)
  /\ Py.assoc "BIGTIFF" (snd (Sample.rendered None))
     = Some (SStr (if 4000000000 <? size Sample.band * itemsize Sample.band
                   then "YES" else "NO"))
  /\ Py.assoc "COPY_SRC_OVERVIEWS" (snd (Sample.rendered None)) = Some (SStr "YES")
  /\ forall k, ~ In k updated ->
       Py.assoc k (snd (Sample.rendered None)) = Py.assoc k Sample.profile.
Proof.
  apply (render_cog_profile Sample.fill_value Sample.read Sample.band Sample.profile
           (snd (Sample.rendered None)) default_compression default_overview_resampling
           default_overview_levels None None default_colormap_band (Sample.calls None)).
  vm_compute. reflexivity.
Defined.

Lemma render_cog_fills_masked_cells_witness :
  (exists written,
      Sample.calls (Some PrimFloat.zero) !! 1%nat = Some (write written)
      /\ (forall w, In (write w) (Sample.calls (Some PrimFloat.zero)) -> w = written)
      /\ data written = Masked [(1, false); (2, true); (3, false); (4, true)])
  /\ (exists written,
         Sample.calls (Some (JSON.float_of_int 7)) !! 1%nat = Some (write written)
         /\ (forall w, In (write w) (Sample.calls (Some (JSON.float_of_int 7))) -> w = written)
         /\ exists x c,
              Some (JSON.float_of_int 7) = Some x
              /\ Sample.fill_value (dtype Sample.band) x = Ok c
              /\ data written
                 = Plain (map (fun cell : Z * bool => if snd cell then c else fst cell)
                            [(1, false); (2, true); (3, false); (4, true)])).
Proof.
  split.
  - exact (render_cog_fills_masked_cells Sample.fill_value Sample.read Sample.band
             Sample.profile (snd (Sample.rendered (Some PrimFloat.zero)))
             default_compression default_overview_resampling default_overview_levels
             (Some PrimFloat.zero) None default_colormap_band
             (Sample.calls (Some PrimFloat.zero)) eq_refl).
  - exact (render_cog_fills_masked_cells Sample.fill_value Sample.read Sample.band
             Sample.profile (snd (Sample.rendered (Some (JSON.float_of_int 7))))
             default_compression default_overview_resampling default_overview_levels
             (Some (JSON.float_of_int 7)) None default_colormap_band
             (Sample.calls (Some (JSON.float_of_int 7))) eq_refl).
Defined.

End CogSamples.
